(** * docubot: the indexing pipeline and the semantic search tool

    A shallow embedding of [vectorize_repo.py] (class [RepositoryVectorizer]
    and [main]) and of [tools/busqueda.py] (class [BuscadorSemantico],
    [obtener_buscador] and the tool [buscar_codigo]).

    Python values are modelled as follows.
    - [str]: a Rocq [string]; one element of the string is one character
      (the code points below 256).
    - [int]: [Z].  [float]: the kernel's binary64 numbers ([PrimFloat]),
      which are Python's floats.
    - [dict] used as a record of metadata: [gmap string mdval].
    - exceptions: the type [exn] (subclasses of [Exception]) and the
      type [result] of a call that returns or raises.
    - external libraries (tiktoken, hashlib, json, boto3, chromadb) are
      Section variables or small models of their documented behaviour.
    - paths: [pathlib.Path] on POSIX, a record of the anchor and the
      components; the file system, the strict codecs and Python's number
      formatting are Section variables. *)

From Stdlib Require Import ZArith String Ascii List Bool Lia.
From Stdlib Require Import Floats.PrimFloat.
From Stdlib Require Import Floats.SpecFloat Floats.FloatOps Floats.FloatAxioms.
From stdpp Require Import base tactics option gmap strings list pretty.

Local Open Scope string_scope.
Local Open Scope list_scope.
Local Open Scope Z_scope.

Set Warnings "-register-all".

(** ** Python primitives *)
Module Py.

(** Exceptions that derive from [Exception].  [JSONDecodeError] is a
    subclass of [ValueError]; [OtherError] stands for any other subclass
    (botocore's [ClientError], [TypeError], ...). *)
Inductive exn : Type :=
| ValueError (msg : string)
| JSONDecodeError (msg : string)
| KeyError (key : string)
| IndexError (msg : string)
| OtherError (msg : string)
| WrappedException (msg : string).

(** [str(e)] *)
Definition exn_str (e : exn) : string :=
  match e with
  | ValueError m | JSONDecodeError m | IndexError m
  | OtherError m | WrappedException m => m
  | KeyError k => "'" +:+ k +:+ "'"
  end.

(** [isinstance(e, ValueError)] *)
Definition is_ValueError (e : exn) : bool :=
  match e with
  | ValueError _ | JSONDecodeError _ => true
  | _ => false
  end.

(** [isinstance(e, json.JSONDecodeError)] *)
Definition is_JSONDecodeError (e : exn) : bool :=
  match e with
  | JSONDecodeError _ => true
  | _ => false
  end.

(** The outcome of a call: a returned value or a raised exception. *)
Inductive result (A : Type) : Type :=
| Ok (a : A)
| Raise (e : exn).
Arguments Ok {A} a.
Arguments Raise {A} e.

#[global] Instance result_ret : MRet result := fun A a => Ok a.
#[global] Instance result_bind : MBind result :=
  fun A B f r => match r with Ok a => f a | Raise e => Raise e end.
#[global] Instance result_fmap : FMap result :=
  fun A B f r => match r with Ok a => Ok (f a) | Raise e => Raise e end.

(** *** Strings *)

Definition nl : ascii := ascii_of_nat 10.
Definition NL : string := String nl EmptyString.

(** [c.isspace()] on the code points below 256: U+0009..U+000D,
    U+001C..U+0020, U+0085 and U+00A0. *)
Definition isspace (c : ascii) : bool :=
  let n := nat_of_ascii c in
  ((9 <=? n) && (n <=? 13) || (28 <=? n) && (n <=? 32)
   || (n =? 133) || (n =? 160))%nat.

Fixpoint lstrip (s : string) : string :=
  match s with
  | EmptyString => EmptyString
  | String c s' => if isspace c then lstrip s' else s
  end.

Fixpoint rstrip (s : string) : string :=
  match s with
  | EmptyString => EmptyString
  | String c s' =>
      match rstrip s' with
      | EmptyString => if isspace c then EmptyString else String c EmptyString
      | r => String c r
      end
  end.

(** [s.strip()] *)
Definition strip (s : string) : string := rstrip (lstrip s).

(** Truth value of a [str]: the empty string is false. *)
Definition str_truthy (s : string) : bool :=
  match s with EmptyString => false | _ => true end.

(** [s.split('\n')] *)
Fixpoint split_nl (s : string) : list string :=
  match s with
  | EmptyString => [EmptyString]
  | String c s' =>
      if Ascii.eqb c nl then EmptyString :: split_nl s'
      else match split_nl s' with
           | [] => [String c EmptyString]
           | l :: ls => String c l :: ls
           end
  end.

(** ['\n'.join(ls)] *)
Fixpoint join_nl (ls : list string) : string :=
  match ls with
  | [] => EmptyString
  | [l] => l
  | l :: ls' => l +:+ NL +:+ join_nl ls'
  end.

Fixpoint str_take (n : nat) (s : string) : string :=
  match n, s with
  | S n', String c s' => String c (str_take n' s')
  | _, _ => EmptyString
  end.

Fixpoint str_drop (n : nat) (s : string) : string :=
  match n, s with
  | S n', String _ s' => str_drop n' s'
  | _, _ => s
  end.

Fixpoint repeat_str (n : nat) (s : string) : string :=
  match n with
  | O => EmptyString
  | S n' => s +:+ repeat_str n' s
  end.

(** ['\n' in s] *)
Fixpoint has_nl (s : string) : bool :=
  match s with
  | EmptyString => false
  | String c s' => Ascii.eqb c nl || has_nl s'
  end.

(** [''.join(ls)] *)
Definition str_concat (ls : list string) : string :=
  fold_right String.append EmptyString ls.

(** *** Slices

    A slice bound [i] of a sequence of length [len]: a negative bound
    counts from the end, and the result is clamped to [0, len]. *)
Definition slice_bound (len i : Z) : Z :=
  if i <? 0 then Z.max 0 (i + len) else Z.min i len.

Definition slice_lo (len : Z) (lo : option Z) : Z :=
  match lo with None => 0 | Some i => slice_bound len i end.

Definition slice_hi (len : Z) (hi : option Z) : Z :=
  match hi with None => len | Some j => slice_bound len j end.

(** [s[lo:hi]] on a [str] *)
Definition str_slice (s : string) (lo hi : option Z) : string :=
  let len := Z.of_nat (String.length s) in
  let a := slice_lo len lo in
  let b := slice_hi len hi in
  str_take (Z.to_nat (b - a)) (str_drop (Z.to_nat a) s).

(** [l[lo:hi]] on a [list] *)
Definition list_slice {A : Type} (l : list A) (lo hi : option Z) : list A :=
  let len := Z.of_nat (length l) in
  let a := slice_lo len lo in
  let b := slice_hi len hi in
  take (Z.to_nat (b - a)) (drop (Z.to_nat a) l).

(** *** range

    [len(range(start, stop, step))] as CPython computes it. *)
Definition range_len (start stop step : Z) : Z :=
  if 0 <? step then
    if start <? stop then (stop - start - 1) / step + 1 else 0
  else
    if stop <? start then (start - stop - 1) / (- step) + 1 else 0.

(** [range(start, stop, step)]; a zero step raises [ValueError]. *)
Definition range (start stop step : Z) : result (list Z) :=
  if step =? 0 then Raise (ValueError "range() arg 3 must not be zero")
  else Ok (map (fun k => start + Z.of_nat k * step)
               (seq 0 (Z.to_nat (range_len start stop step)))).

(** [sum(xs)] *)
Definition sum (xs : list Z) : Z := fold_left Z.add xs 0.

(** [str(n)] for an [int] *)
Definition int_str (n : Z) : string := pretty n.

(** [l[i]] for an index [i] that is not negative; out of range raises
    [IndexError]. *)
Definition list_index {A : Type} (l : list A) (i : nat) : result A :=
  match l !! i with
  | Some x => Ok x
  | None => Raise (IndexError "list index out of range")
  end.

(** *** Values *)

(** Values stored in a metadata dict (what [_get_file_metadata] builds
    and the vector store accepts). *)
Inductive mdval : Type :=
| MStr (s : string)
| MInt (n : Z)
| MBool (b : bool).

(** [str(v)], as an f-string formats the value. *)
Definition mdval_str (v : mdval) : string :=
  match v with
  | MStr s => s
  | MInt n => int_str n
  | MBool true => "True"
  | MBool false => "False"
  end.

(** [d[key]] on a metadata dict; a missing key raises [KeyError]. *)
Definition dict_get (d : gmap string mdval) (key : string) : result mdval :=
  match d !! key with
  | Some v => Ok v
  | None => Raise (KeyError key)
  end.

(** A decoded JSON document, as [json.loads] returns it. *)
Inductive json : Type :=
| JNull
| JBool (b : bool)
| JInt (n : Z)
| JFloat (x : float)
| JStr (s : string)
| JList (l : list json)
| JDict (d : list (string * json)).

(** [d.get(key)] on a decoded JSON object. *)
Fixpoint json_field (d : list (string * json)) (key : string) : option json :=
  match d with
  | [] => None
  | (k, v) :: d' => if String.eqb k key then Some v else json_field d' key
  end.

(** [isinstance(x, (int, float))]; [bool] is a subclass of [int]. *)
Definition is_number (x : json) : bool :=
  match x with
  | JInt _ | JFloat _ | JBool _ => true
  | _ => false
  end.

(** An argument whose type the caller does not fix: [None], a [bool], an
    [int], a [str], or some other object with the given truth value. *)
Inductive pyval : Type :=
| PNone
| PBool (b : bool)
| PInt (n : Z)
| PStr (s : string)
| PObject (truth : bool).

(** [bool(v)] *)
Definition truthy (v : pyval) : bool :=
  match v with
  | PNone => false
  | PBool b => b
  | PInt n => negb (n =? 0)
  | PStr s => str_truthy s
  | PObject t => t
  end.

(** [isinstance(v, str)] *)
Definition is_str (v : pyval) : bool :=
  match v with PStr _ => true | _ => false end.


(** *** More string methods *)

(** [c.isupper()] on the code points below 256: A-Z, U+00C0..U+00D6 and
    U+00D8..U+00DE. *)
Definition isupper (c : ascii) : bool :=
  let n := nat_of_ascii c in
  ((65 <=? n) && (n <=? 90)
   || (192 <=? n) && (n <=? 222) && negb (n =? 215))%nat.

(** [c.lower()]: an upper-case letter has its lower-case form 32 code
    points on. *)
Definition char_lower (c : ascii) : ascii :=
  if isupper c then ascii_of_nat (nat_of_ascii c + 32) else c.

(** [s.lower()] *)
Fixpoint lower (s : string) : string :=
  match s with
  | EmptyString => EmptyString
  | String c s' => String (char_lower c) (lower s')
  end.

(** [s.startswith(p)] *)
Definition startswith (s p : string) : bool := String.prefix p s.

(** [needle in s] on strings *)
Fixpoint str_in (needle s : string) : bool :=
  String.prefix needle s
  || match s with
     | EmptyString => false
     | String _ s' => str_in needle s'
     end.

(** [x in xs] for a set or a tuple of strings *)
Definition str_mem (x : string) (xs : list string) : bool :=
  existsb (String.eqb x) xs.

(** [s.rfind(c)] for a one-character [c]: the highest index of [c], or
    -1. *)
Fixpoint rfind (c : ascii) (s : string) : Z :=
  match s with
  | EmptyString => -1
  | String a s' =>
      let r := rfind c s' in
      if 0 <=? r then r + 1 else if Ascii.eqb a c then 0 else -1
  end.

(** [sep.join(ls)] *)
Fixpoint join (sep : string) (ls : list string) : string :=
  match ls with
  | [] => EmptyString
  | [l] => l
  | l :: ls' => l +:+ sep +:+ join sep ls'
  end.

(** [bool(v)] for a metadata value *)
Definition mdval_truthy (v : mdval) : bool :=
  match v with
  | MStr s => str_truthy s
  | MInt n => negb (n =? 0)
  | MBool b => b
  end.

(** Text-mode reading with universal newlines: a carriage return, alone
    or followed by a line feed, is read as one line feed. *)
Fixpoint translate_newlines (s : string) : string :=
  match s with
  | EmptyString => EmptyString
  | String c s' =>
      if Ascii.eqb c (ascii_of_nat 13) then
        String nl
          match s' with
          | EmptyString => EmptyString
          | String c' s'' =>
              if Ascii.eqb c' nl then translate_newlines s''
              else translate_newlines s'
          end
      else String c (translate_newlines s')
  end.

End Py.
Import Py.

(** ** The environment: logging, the embedding provider, the vector store *)
Module Env.

Inductive level : Type := DEBUG | INFO | WARNING | ERROR.

Record log_record : Type := LogRecord {
  levelname : level;
  message : string
}.

(** The keyword arguments of [bedrock_client.invoke_model].  [body] is
    [json.dumps] of a dict with the single key [inputText]; the record
    keeps that field. *)
Record invoke_request : Type := InvokeRequest {
  modelId : string;
  contentType : option string;
  accept : option string;
  inputText : string
}.

(** One row of [collection.add]. *)
Record entry : Type := Entry {
  entry_id : string;
  entry_embedding : list json;
  entry_metadata : gmap string mdval;
  entry_document : string
}.

(** The dict [collection.query] returns: parallel lists, one inner list
    per query embedding. *)
Record query_result : Type := QueryResult {
  ids : list (list string);
  documents : list (list string);
  metadatas : list (list (gmap string mdval));
  distances : list (list float)
}.

(** The libraries and the machine the program calls.
    - [tokenizer_encode] is the [encode] of tiktoken's [cl100k_base];
      [sha256_hexdigest s] is [hashlib.sha256(s.encode()).hexdigest()].
    - [bedrock] is the state of the embedding provider; [invoke_model]
      answers one request with the text read from [response['body']],
      or raises.
    - [collection] is the content of one ChromaDB collection.
    - [repo_files root] is what [_get_all_files] and [_read_file_content]
      give for the files under [root], in discovery order: the content
      and metadata of a file, or [None] for a file that cannot be read.
    - [path_exists] is [os.path.exists]. *)
Record externals : Type := Externals {
  bedrock : Type;
  collection : Type;
  tokenizer_encode : string -> list Z;
  sha256_hexdigest : string -> string;
  repo_files : string -> list (option (string * gmap string mdval));
  json_loads : string -> result json;
  invoke_model : bedrock -> invoke_request -> result string * bedrock;
  boto3_client : string -> result unit;
  PersistentClient : string -> result unit;
  new_collection : gmap string mdval -> collection;
  collection_add : collection -> list entry -> result collection;
  collection_query : collection -> list (list json) -> Z -> result query_result;
  path_exists : string -> bool
}.

Section Runtime.

Context {E : externals}.

(** What the program can change: the provider, the collections of the
    ChromaDB client (by name) and the log.  [sent] records every request
    passed to [invoke_model], in order. *)
Record world : Type := World {
  provider : bedrock E;
  sent : list invoke_request;
  chroma : gmap string (collection E);
  log : list log_record
}.

(** A statement: it returns or raises, and changes the world. *)
Definition M (A : Type) : Type := world -> result A * world.

Definition ret {A : Type} (a : A) : M A := fun w => (Ok a, w).

Definition bind {A B : Type} (m : M A) (f : A -> M B) : M B :=
  fun w =>
    match m w with
    | (Ok a, w') => f a w'
    | (Raise e, w') => (Raise e, w')
    end.

(** [raise e] *)
Definition raise {A : Type} (e : exn) : M A := fun w => (Raise e, w).

(** The outcome of a pure call, as a statement. *)
Definition lift {A : Type} (r : result A) : M A := fun w => (r, w).

(** [try: body  except Exception as e: handler(e)] *)
Definition try_except {A : Type} (body : M A) (handler : exn -> M A) : M A :=
  fun w =>
    match body w with
    | (Ok a, w') => (Ok a, w')
    | (Raise e, w') => handler e w'
    end.

(** [logger.debug], [logger.info], [logger.error] *)
Definition logger (lv : level) (msg : string) : M unit :=
  fun w =>
    (Ok tt,
     {| provider := provider w; sent := sent w; chroma := chroma w;
        log := log w ++ [{| levelname := lv; message := msg |}] |}).

(** [bedrock_client.invoke_model(...)] followed by
    [response['body'].read()]. *)
Definition call_invoke_model (req : invoke_request) : M string :=
  fun w =>
    let '(r, p) := invoke_model E (provider w) req in
    (r, {| provider := p; sent := sent w ++ [req]; chroma := chroma w;
           log := log w |}).

(** [chroma_client.get_collection(name)]: the handle of an existing
    collection; a missing one raises. *)
Definition get_collection (name : string) : M string :=
  fun w =>
    match chroma w !! name with
    | Some _ => (Ok name, w)
    | None =>
        (Raise (ValueError ("Collection " +:+ name +:+ " does not exist.")), w)
    end.

(** [chroma_client.create_collection(name, metadata)]: a new, empty
    collection; an existing name raises. *)
Definition create_collection (name : string) (md : gmap string mdval)
  : M string :=
  fun w =>
    match chroma w !! name with
    | Some _ =>
        (Raise (OtherError ("Collection " +:+ name +:+ " already exists")), w)
    | None =>
        (Ok name,
         {| provider := provider w; sent := sent w;
            chroma := <[name := new_collection E md]> (chroma w);
            log := log w |})
    end.

(** [collection.add(ids, embeddings, metadatas, documents)] on the
    collection a handle names. *)
Definition call_collection_add (handle : string) (rows : list entry) : M unit :=
  fun w =>
    match chroma w !! handle with
    | None =>
        (Raise (ValueError ("Collection " +:+ handle +:+ " does not exist.")), w)
    | Some c =>
        match collection_add E c rows with
        | Raise e => (Raise e, w)
        | Ok c' =>
            (Ok tt,
             {| provider := provider w; sent := sent w;
                chroma := <[handle := c']> (chroma w); log := log w |})
        end
    end.

(** [collection.query(query_embeddings, n_results, include)] *)
Definition call_collection_query
    (handle : string) (query_embeddings : list (list json)) (n_results : Z)
  : M query_result :=
  fun w =>
    match chroma w !! handle with
    | None =>
        (Raise (ValueError ("Collection " +:+ handle +:+ " does not exist.")), w)
    | Some c => (collection_query E c query_embeddings n_results, w)
    end.

(** [asyncio.gather] over the tasks with [return_exceptions=True].  The tasks
    are coroutines that never await, so the event loop runs each one to
    its end in the order of the list; an exception a task raises is its
    entry in the returned list. *)
Fixpoint gather {A : Type} (tasks : list (M A)) (w : world)
  : list (result A) * world :=
  match tasks with
  | [] => ([], w)
  | t :: ts =>
      let '(r, w1) := t w in
      let '(rs, w2) := gather ts w1 in
      (r :: rs, w2)
  end.

End Runtime.

Arguments world E : clear implicits.
Arguments M E A : clear implicits.

End Env.
Import Env.

Notation "x <- m ;; k" := (Env.bind m (fun x => k))
  (at level 100, m at next level, right associativity, only parsing).
Notation "m ;;; k" := (Env.bind m (fun _ => k))
  (at level 100, right associativity, only parsing).

(** ** pathlib

    A POSIX path as [pathlib.Path] keeps it: whether it starts at the
    root, and its components (none is empty, none holds a slash, and
    none is a single dot). *)
Module pathlib.

Record Path : Type := MkPath {
  anchored : bool;
  components : list string
}.

(** [p.parts] *)
Definition parts (p : Path) : list string :=
  (if anchored p then ["/"] else []) ++ components p.

(** [p.name] *)
Definition name (p : Path) : string := List.last (components p) "".

(** [p.suffix]: the name from its last dot on, when that dot is neither
    the first nor the last character of the name. *)
Definition suffix (p : Path) : string :=
  let nm := name p in
  let i := rfind "." nm in
  if (0 <? i) && (i <? Z.of_nat (String.length nm) - 1)
  then str_slice nm (Some i) None
  else "".

(** [str(p)] *)
Definition str (p : Path) : string :=
  if anchored p then "/" +:+ join "/" (components p)
  else match components p with
       | [] => "."
       | _ :: _ => join "/" (components p)
       end.

(** [p.parent] *)
Definition parent (p : Path) : Path :=
  {| anchored := anchored p; components := removelast (components p) |}.

(** Whether the list [l] starts with the list [pre]. *)
Fixpoint starts_with (l pre : list string) : bool :=
  match pre, l with
  | [], _ => true
  | x :: pre', y :: l' => String.eqb x y && starts_with l' pre'
  | _ :: _, [] => false
  end.

(** [p.relative_to(other)]; a path that is not under [other] raises
    [ValueError]. *)
Definition relative_to (p other : Path) : result Path :=
  if Bool.eqb (anchored p) (anchored other)
     && starts_with (components p) (components other)
  then Ok {| anchored := false;
             components := drop (length (components other)) (components p) |}
  else Raise (ValueError ("'" +:+ str p +:+ "' is not in the subpath of '"
                          +:+ str other +:+ "'")).

End pathlib.

(** ** vectorize_repo.py *)
Module vectorize_repo.

(** A chunk dict: the keys ['text'] and ['metadata'] set by
    [_create_chunk_dict]; ['embedding'] is absent ([None]) until
    [_process_chunks_batch] sets it. *)
Record chunk : Type := Chunk {
  text : string;
  metadata : gmap string mdval;
  embedding : option (list json)
}.

(** The constructor arguments of [RepositoryVectorizer] the chunker
    reads; [default_config] holds the defaults of [__init__]. *)
Record config : Type := Config {
  chunk_size : Z;
  chunk_overlap : Z;
  max_tokens_per_chunk : Z
}.

Definition default_config : config :=
  {| chunk_size := 500; chunk_overlap := 50; max_tokens_per_chunk := 2000 |}.

(** The local variables of the loop of [_chunk_content]. *)
Record chunker_state : Type := ChunkerState {
  chunks : list chunk;
  current_chunk : list string;
  current_tokens : Z
}.

Section Chunker.

(** [self.tokenizer.encode] (tiktoken's [cl100k_base]), taken as a total
    function: a text that spells one of the tokenizer's special tokens,
    on which [encode] raises, is outside the model. *)
Variable encode : string -> list Z.

Variable self : config.

(** [len(self.tokenizer.encode(s))] *)
Definition token_len (s : string) : Z := Z.of_nat (length (encode s)).

Definition _create_chunk_dict
    (txt : string) (md : gmap string mdval) (chunk_index : Z) : chunk :=
  {| text := txt;
     metadata :=
       <["token_count" := MInt (token_len txt)]>
         (<["chunk_size" := MInt (Z.of_nat (String.length txt))]>
            (<["chunk_index" := MInt chunk_index]> md));
     embedding := None |}.

(** [chunks.append(self._create_chunk_dict(txt, metadata, len(chunks)))] *)
Definition append_chunk
    (md : gmap string mdval) (cks : list chunk) (txt : string) : list chunk :=
  cks ++ [_create_chunk_dict txt md (Z.of_nat (length cks))].

(** The flush guarded by [if current_chunk:]. *)
Definition flush
    (md : gmap string mdval) (cks : list chunk) (cur : list string)
  : list chunk :=
  match cur with
  | [] => cks
  | _ :: _ => append_chunk md cks (join_nl cur)
  end.

(** The inner loop over [range(0, len(line), self.chunk_size)]. *)
Definition emit_slices
    (md : gmap string mdval) (cks : list chunk) (line : string)
    (indices : list Z) : list chunk :=
  fold_left
    (fun acc i =>
       append_chunk md acc
         (str_slice line (Some i) (Some (i + chunk_size self))))
    indices cks.

(** [current_chunk[-self.chunk_overlap:]] when the buffer is longer than
    the overlap, the whole buffer otherwise. *)
Definition overlap_of (cur : list string) : list string :=
  if chunk_overlap self <? Z.of_nat (length cur)
  then list_slice cur (Some (- chunk_overlap self)) None
  else cur.

(** One iteration of [for line in lines]. *)
Definition chunk_step
    (md : gmap string mdval) (st : chunker_state) (line : string)
  : result chunker_state :=
  let line_tokens := token_len line in
  if max_tokens_per_chunk self <? line_tokens then
    let st1 :=
      match current_chunk st with
      | [] => st
      | _ :: _ =>
          {| chunks := append_chunk md (chunks st) (join_nl (current_chunk st));
             current_chunk := [];
             current_tokens := 0 |}
      end in
    indices ← range 0 (Z.of_nat (String.length line)) (chunk_size self);
    Ok {| chunks := emit_slices md (chunks st1) line indices;
          current_chunk := current_chunk st1;
          current_tokens := current_tokens st1 |}
  else if max_tokens_per_chunk self <? current_tokens st + line_tokens then
    let cks := flush md (chunks st) (current_chunk st) in
    let cur := overlap_of (current_chunk st) ++ [line] in
    Ok {| chunks := cks;
          current_chunk := cur;
          current_tokens := sum (map token_len cur) |}
  else
    Ok {| chunks := chunks st;
          current_chunk := current_chunk st ++ [line];
          current_tokens := current_tokens st + line_tokens |}.

Fixpoint chunk_loop
    (md : gmap string mdval) (st : chunker_state) (lines : list string)
  : result chunker_state :=
  match lines with
  | [] => Ok st
  | line :: rest => st' ← chunk_step md st line; chunk_loop md st' rest
  end.

Definition initial_state : chunker_state :=
  {| chunks := []; current_chunk := []; current_tokens := 0 |}.

Definition _chunk_content (content : string) (md : gmap string mdval)
  : result (list chunk) :=
  if negb (str_truthy (strip content)) then Ok []
  else
    st ← chunk_loop md initial_state (split_nl content);
    Ok (flush md (chunks st) (current_chunk st)).

End Chunker.

(** The [token_count] a chunk records in its metadata. *)
Definition token_count (c : chunk) : option mdval :=
  metadata c !! "token_count".

(** *** The chunker with its provenance

    The same loop, recording where each chunk comes from: a flushed
    buffer, with the number of leading lines that are the overlap it was
    seeded with, or a character slice of an oversized line, with whether
    the line goes on in the next chunk. *)
Inductive origin : Type :=
| Packed (seed : nat)
| Slice (continues : bool).

Record traced_state : Type := TracedState {
  tchunks : list (origin * chunk);
  tcurrent : list string;
  tseed : nat;
  ttokens : Z
}.

Section ChunkerTrace.

Variable encode : string -> list Z.
Variable self : config.

Definition tappend
    (md : gmap string mdval) (tr : list (origin * chunk)) (o : origin)
    (txt : string) : list (origin * chunk) :=
  tr ++ [(o, _create_chunk_dict encode txt md (Z.of_nat (length tr)))].

Definition tflush
    (md : gmap string mdval) (tr : list (origin * chunk)) (seed : nat)
    (cur : list string) : list (origin * chunk) :=
  match cur with
  | [] => tr
  | _ :: _ => tappend md tr (Packed seed) (join_nl cur)
  end.

Definition temit_slices
    (md : gmap string mdval) (tr : list (origin * chunk)) (line : string)
    (indices : list Z) : list (origin * chunk) :=
  fold_left
    (fun acc i =>
       tappend md acc
         (Slice (i + chunk_size self <? Z.of_nat (String.length line)))
         (str_slice line (Some i) (Some (i + chunk_size self))))
    indices tr.

Definition traced_step
    (md : gmap string mdval) (st : traced_state) (line : string)
  : result traced_state :=
  let line_tokens := token_len encode line in
  if max_tokens_per_chunk self <? line_tokens then
    let st1 :=
      match tcurrent st with
      | [] => st
      | _ :: _ =>
          {| tchunks := tappend md (tchunks st) (Packed (tseed st))
                          (join_nl (tcurrent st));
             tcurrent := []; tseed := 0%nat; ttokens := 0 |}
      end in
    indices ← range 0 (Z.of_nat (String.length line)) (chunk_size self);
    Ok {| tchunks := temit_slices md (tchunks st1) line indices;
          tcurrent := tcurrent st1; tseed := tseed st1;
          ttokens := ttokens st1 |}
  else if max_tokens_per_chunk self <? ttokens st + line_tokens then
    let tr := tflush md (tchunks st) (tseed st) (tcurrent st) in
    let overlap_lines := overlap_of self (tcurrent st) in
    let cur := overlap_lines ++ [line] in
    Ok {| tchunks := tr; tcurrent := cur; tseed := length overlap_lines;
          ttokens := sum (map (token_len encode) cur) |}
  else
    Ok {| tchunks := tchunks st; tcurrent := tcurrent st ++ [line];
          tseed := tseed st; ttokens := ttokens st + line_tokens |}.

Fixpoint traced_loop
    (md : gmap string mdval) (st : traced_state) (lines : list string)
  : result traced_state :=
  match lines with
  | [] => Ok st
  | line :: rest => st' ← traced_step md st line; traced_loop md st' rest
  end.

Definition traced_initial : traced_state :=
  {| tchunks := []; tcurrent := []; tseed := 0%nat; ttokens := 0 |}.

Definition traced_chunk_content (content : string) (md : gmap string mdval)
  : result (list (origin * chunk)) :=
  if negb (str_truthy (strip content)) then Ok []
  else
    st ← traced_loop md traced_initial (split_nl content);
    Ok (tflush md (tchunks st) (tseed st) (tcurrent st)).

End ChunkerTrace.

(** Forgetting the provenance. *)
Definition erase (st : traced_state) : chunker_state :=
  {| chunks := map snd (tchunks st);
     current_chunk := tcurrent st;
     current_tokens := ttokens st |}.

(** The line sequence read back from the chunks: a flushed buffer gives
    its lines without the overlap it was seeded with; the slices of an
    oversized line are put together again. *)
Fixpoint reconstruct (tr : list (origin * chunk)) : list string :=
  match tr with
  | [] => []
  | (Packed seed, c) :: tr' => drop seed (split_nl (text c)) ++ reconstruct tr'
  | (Slice false, c) :: tr' => text c :: reconstruct tr'
  | (Slice true, c) :: tr' =>
      match reconstruct tr' with
      | [] => [text c]
      | l :: ls => (text c +:+ l) :: ls
      end
  end.

(** *** Vocabulary of the chunker's properties *)
Section ChunkerSpec.

Variable encode : string -> list Z.
Variable self : config.

(** The slices [temit_slices] appends to a list of [n] chunks. *)
Fixpoint tblock
    (md : gmap string mdval) (n : nat) (line : string) (indices : list Z)
  : list (origin * chunk) :=
  match indices with
  | [] => []
  | i :: rest =>
      (Slice (i + chunk_size self <? Z.of_nat (String.length line)),
       _create_chunk_dict encode
         (str_slice line (Some i) (Some (i + chunk_size self))) md
         (Z.of_nat n))
      :: tblock md (S n) line rest
  end.

(** Every consumed line within the budget is a line of some chunk or is
    still in the buffer. *)
Definition covered
    (tr : list (origin * chunk)) (cur consumed : list string) : Prop :=
  forall l, l ∈ consumed ->
    token_len encode l <= max_tokens_per_chunk self ->
    (exists oc, oc ∈ tr /\ l ∈ split_nl (text oc.2)) \/ l ∈ cur.

End ChunkerSpec.

(** The lines read back from a list of chunks do not depend on the
    chunks that follow. *)
Definition splits (tr : list (origin * chunk)) : Prop :=
  forall tr', reconstruct (tr ++ tr') = reconstruct tr ++ reconstruct tr'.

(** The invariant of the loop of [_chunk_content] after the lines
    [consumed]. *)
Record chunker_inv
    (encode : string -> list Z) (self : config)
    (st : traced_state) (consumed : list string) : Prop := {
  inv_splits : splits (tchunks st);
  inv_lines :
    reconstruct (tchunks st) ++ drop (tseed st) (tcurrent st) = consumed;
  inv_no_nl : Forall (fun l => has_nl l = false) (tcurrent st);
  inv_seed : (tseed st <= length (tcurrent st))%nat;
  inv_covered : covered encode self (tchunks st) (tcurrent st) consumed
}.

(** Every chunk of the list records its position as [chunk_index] and
    keeps the [file_path] of the file's metadata. *)
Definition positioned (md : gmap string mdval) (cks : list chunk) : Prop :=
  forall k c, cks !! k = Some c ->
    metadata c !! "chunk_index" = Some (MInt (Z.of_nat k))
    /\ metadata c !! "file_path" = md !! "file_path".

(** *** Embeddings *)

Section Pipeline.

Context {E : externals}.

Definition _validar_respuesta_embedding (response_body : json)
  : result (list json) :=
  match response_body with
  | JDict d =>
      match json_field d "embedding" with
      | None => Raise (ValueError "Respuesta AWS no contiene campo 'embedding'")
      | Some (JList embedding) =>
          match embedding with
          | [] => Raise (ValueError "El embedding está vacío")
          | _ :: _ =>
              if forallb is_number embedding then Ok embedding
              else Raise (ValueError "El embedding contiene valores no numéricos")
          end
      | Some _ => Raise (ValueError "El embedding no es una lista válida")
      end
  | _ => Raise (ValueError "Respuesta AWS no es un diccionario válido")
  end.

Definition _get_embedding (txt : pyval) : M E (option (list json)) :=
  try_except
    (if negb (truthy txt) || negb (is_str txt) then
       (logger ERROR "Texto de entrada inválido para embedding";;;
        ret None)
     else
       match txt with
       | PStr s =>
           raw <- call_invoke_model
                    {| modelId := "amazon.titan-embed-text-v1";
                       contentType := Some "application/json";
                       accept := Some "application/json";
                       inputText := str_slice s None (Some 8192) |};;
           response_body <- lift (json_loads E raw);;
           embedding <- lift (_validar_respuesta_embedding response_body);;
           (logger DEBUG
              ("Embedding obtenido exitosamente: "
               +:+ int_str (Z.of_nat (length embedding)) +:+ " dimensiones");;;
            ret (Some embedding))
       | _ => raise (OtherError "TypeError")
       end)
    (fun e =>
       if is_ValueError e then
         (logger ERROR
            ("Error de validación en respuesta AWS: " +:+ exn_str e);;;
          ret None)
       else if is_JSONDecodeError e then
         (logger ERROR ("Error decodificando JSON de AWS: " +:+ exn_str e);;;
          ret None)
       else
         (logger ERROR ("Error obteniendo embedding: " +:+ exn_str e);;;
          ret None)).

(** [bool(embedding)] for the value a task returned. *)
Definition embedding_truthy (o : option (list json)) : bool :=
  match o with
  | Some (_ :: _) => true
  | _ => false
  end.

(** The loop over [zip(chunks, embeddings)]. *)
Fixpoint collect_processed
    (pairs : list (chunk * result (option (list json))))
    (processed_chunks : list chunk) : M E (list chunk) :=
  match pairs with
  | [] => ret processed_chunks
  | (c, r) :: rest =>
      match r with
      | Raise e =>
          (logger ERROR ("Error procesando chunk: " +:+ exn_str e);;;
           collect_processed rest processed_chunks)
      | Ok emb =>
          if embedding_truthy emb then
            collect_processed rest
              (processed_chunks
               ++ [{| text := text c; metadata := metadata c;
                      embedding := emb |}])
          else collect_processed rest processed_chunks
      end
  end.

Definition _process_chunks_batch (cks : list chunk) : M E (list chunk) :=
  fun w =>
    let tasks := map (fun c => _get_embedding (PStr (text c))) cks in
    let '(embeddings, w1) := gather tasks w in
    collect_processed (zip cks embeddings) [] w1.

(** *** Storage *)

(** The loop of [_store_in_chromadb] that builds the four parallel
    lists, kept here as one list of rows. *)
Fixpoint store_rows (cks : list chunk) : result (list entry) :=
  match cks with
  | [] => Ok []
  | c :: rest =>
      file_path ← dict_get (metadata c) "file_path";
      chunk_index ← dict_get (metadata c) "chunk_index";
      let chunk_id :=
        sha256_hexdigest E
          (mdval_str file_path +:+ "_" +:+ mdval_str chunk_index) in
      emb ← match embedding c with
            | Some e => Ok e
            | None => Raise (KeyError "embedding")
            end;
      rows ← store_rows rest;
      Ok ({| entry_id := chunk_id; entry_embedding := emb;
             entry_metadata := metadata c; entry_document := text c |}
          :: rows)
  end.

Definition _store_in_chromadb (handle : string) (cks : list chunk) : M E unit :=
  match cks with
  | [] => ret tt
  | _ :: _ =>
      rows <- lift (store_rows cks);;
      try_except
        (call_collection_add handle rows;;;
         logger INFO
           ("Almacenados " +:+ int_str (Z.of_nat (length cks))
            +:+ " chunks en ChromaDB"))
        (fun e =>
           logger ERROR ("Error almacenando en ChromaDB: " +:+ exn_str e))
  end.

(** *** The vectorizer *)

(** The parsed command line ([argparse]'s namespace). *)
Record cli_args : Type := CliArgs {
  repo_path : string;
  chroma_dir : string;
  arg_collection_name : string;
  aws_region : string;
  batch_size : Z;
  max_workers : Z
}.

Definition default_args : cli_args :=
  {| repo_path := "./repository/sas-fa-web-frontend/src";
     chroma_dir := "./chroma_db";
     arg_collection_name := "react_typescript_code";
     aws_region := "us-east-1";
     batch_size := 10;
     max_workers := 4 |}.

(** The attributes of a [RepositoryVectorizer] that the pipeline reads. *)
Record vectorizer : Type := Vectorizer {
  self_args : cli_args;
  self_config : config;
  self_collection : string
}.

Definition _setup_clients (args : cli_args) : M E string :=
  try_except
    (_ <- lift (boto3_client E (aws_region args));;
     _ <- lift (PersistentClient E (chroma_dir args));;
     try_except
       (h <- get_collection (arg_collection_name args);;
        (logger INFO
           ("Colección existente encontrada: " +:+ arg_collection_name args);;;
         ret h))
       (fun _ =>
          h <- create_collection (arg_collection_name args)
                 {[ "description" :=
                      MStr "React/TypeScript repository vectorization" ]};;
          (logger INFO
             ("Nueva colección creada: " +:+ arg_collection_name args);;;
           ret h)))
    (fun e =>
       logger ERROR ("Error configurando clientes: " +:+ exn_str e);;;
       raise e).

(** [RepositoryVectorizer(...)], with the keyword arguments [main] passes. *)
Definition RepositoryVectorizer (args : cli_args) : M E vectorizer :=
  h <- _setup_clients args;;
  ret {| self_args := args; self_config := default_config;
         self_collection := h |}.

(** The inner loop of [vectorize_repository] over one batch of files. *)
Fixpoint read_batch
    (self : vectorizer) (total_files : Z)
    (batch_files : list (option (string * gmap string mdval)))
    (batch_chunks : list chunk) (processed_files : Z)
  : M E (list chunk * Z) :=
  match batch_files with
  | [] => ret (batch_chunks, processed_files)
  | None :: rest =>
      read_batch self total_files rest batch_chunks processed_files
  | Some (content, md) :: rest =>
      cks <- lift (_chunk_content (tokenizer_encode E) (self_config self)
                     content md);;
      let processed_files := processed_files + 1 in
      (if processed_files mod 10 =? 0 then
         logger INFO
           ("Procesados " +:+ int_str processed_files +:+ "/"
            +:+ int_str total_files +:+ " archivos")
       else ret tt);;;
      read_batch self total_files rest (batch_chunks ++ cks) processed_files
  end.

(** The outer loop of [vectorize_repository] over the batch offsets. *)
Fixpoint run_batches
    (self : vectorizer) (files : list (option (string * gmap string mdval)))
    (offsets : list Z) (processed_files total_chunks : Z) : M E (Z * Z) :=
  match offsets with
  | [] => ret (processed_files, total_chunks)
  | i :: rest =>
      let batch_files :=
        list_slice files (Some i) (Some (i + batch_size (self_args self))) in
      read <- read_batch self (Z.of_nat (length files)) batch_files []
                processed_files;;
      let '(batch_chunks, processed_files) := read in
      match batch_chunks with
      | [] => run_batches self files rest processed_files total_chunks
      | _ :: _ =>
          processed_chunks <- _process_chunks_batch batch_chunks;;
          (_store_in_chromadb (self_collection self) processed_chunks;;;
           run_batches self files rest processed_files
             (total_chunks + Z.of_nat (length processed_chunks)))
      end
  end.

Definition vectorize_repository (self : vectorizer) : M E unit :=
  logger INFO ("Iniciando vectorización de: " +:+ repo_path (self_args self));;;
  logger INFO ("Guardando en: " +:+ chroma_dir (self_args self));;;
  let files := repo_files E (repo_path (self_args self)) in
  let total_files := Z.of_nat (length files) in
  logger INFO
    ("Encontrados " +:+ int_str total_files +:+ " archivos para procesar");;;
  offsets <- lift (range 0 total_files (batch_size (self_args self)));;
  counters <- run_batches self files offsets 0 0;;
  let '(processed_files, total_chunks) := counters in
  (logger INFO "Vectorización completada:";;;
   logger INFO
     ("- Archivos procesados: " +:+ int_str processed_files +:+ "/"
      +:+ int_str total_files);;;
   logger INFO ("- Total chunks creados: " +:+ int_str total_chunks);;;
   logger INFO ("- Colección: " +:+ arg_collection_name (self_args self))).

(** [main()], after [parser.parse_args()] gave [args]. *)
Definition main (args : cli_args) : M E unit :=
  if negb (path_exists E (repo_path args)) then
    logger ERROR ("El directorio " +:+ repo_path args +:+ " no existe");;;
    ret tt
  else
    v <- RepositoryVectorizer args;;
    try_except
      (vectorize_repository v;;;
       logger INFO "¡Vectorización completada exitosamente!")
      (fun e =>
         logger ERROR ("Error durante la vectorización: " +:+ exn_str e);;;
         raise e).

(** The exit status of [python vectorize_repo.py]: 0 when [main()]
    returns, 1 when an exception leaves it. *)
Definition exit_status (r : result unit) : Z :=
  match r with
  | Ok _ => 0
  | Raise _ => 1
  end.

(** *** Vocabulary of the pipeline's properties *)

(** The request [_get_embedding] sends for a text. *)
Definition titan_request (s : string) : invoke_request :=
  {| modelId := "amazon.titan-embed-text-v1";
     contentType := Some "application/json";
     accept := Some "application/json";
     inputText := str_slice s None (Some 8192) |}.

(** What [_get_embedding] answers in a world: the validated embedding of
    a non-empty text when the provider call, the decoding and the
    validation all succeed, [None] in every other case. *)
Definition embedding_answer (w : world E) (txt : pyval)
  : option (list json) :=
  match txt with
  | PStr s =>
      if str_truthy s then
        match fst (invoke_model E (provider w) (titan_request s)) with
        | Ok raw =>
            match json_loads E raw with
            | Ok response_body =>
                match _validar_respuesta_embedding response_body with
                | Ok embedding => Some embedding
                | Raise _ => None
                end
            | Raise _ => None
            end
        | Raise _ => None
        end
      else None
  | _ => None
  end.

(** The requests [_get_embedding] sends for a text: one for a non-empty
    string, none otherwise. *)
Definition requests_for (txt : pyval) : list invoke_request :=
  match txt with
  | PStr s => if str_truthy s then [titan_request s] else []
  | _ => []
  end.

(** The task [_process_chunks_batch] creates for a chunk. *)
Definition embedding_task (c : chunk) : M E (option (list json)) :=
  _get_embedding (PStr (text c)).

(** The answers the tasks of a batch get, in order: each task runs in
    the world the task before it left. *)
Fixpoint answers (w : world E) (cks : list chunk)
  : list (option (list json)) :=
  match cks with
  | [] => []
  | c :: rest =>
      embedding_answer w (PStr (text c))
      :: answers (snd (embedding_task c w)) rest
  end.

(** A chunk with the embedding it was answered, or nothing. *)
Definition with_embedding (p : chunk * option (list json)) : option chunk :=
  match p with
  | (c, Some e) =>
      Some {| text := text c; metadata := metadata c; embedding := Some e |}
  | (_, None) => None
  end.

(** The id [_store_in_chromadb] computes from a file path and a chunk
    index. *)
Definition chunk_id (file_path chunk_index : mdval) : string :=
  sha256_hexdigest E (mdval_str file_path +:+ "_" +:+ mdval_str chunk_index).

(** [r] is the row [_store_in_chromadb] builds for the chunk [c]. *)
Definition row_of (c : chunk) (r : entry) : Prop :=
  exists file_path chunk_index,
    metadata c !! "file_path" = Some file_path
    /\ metadata c !! "chunk_index" = Some chunk_index
    /\ entry_id r = chunk_id file_path chunk_index
    /\ embedding c = Some (entry_embedding r)
    /\ entry_metadata r = metadata c
    /\ entry_document r = text c.

(** Two chunks have the same file path and chunk index. *)
Definition same_position (c c' : chunk) : Prop :=
  metadata c !! "file_path" = metadata c' !! "file_path"
  /\ metadata c !! "chunk_index" = metadata c' !! "chunk_index".

End Pipeline.

Arguments chunk_id E file_path chunk_index : clear implicits.
Arguments row_of E c r : clear implicits.

(** *** Files *)

(** [os.stat_result]: the fields the program reads. *)
Record stat_result : Type := StatResult {
  st_size : Z;
  st_mtime : float
}.

(** The dataclass [FileContent]; its fields carry the prefix [fc_]. *)
Record FileContent : Type := MkFileContent {
  fc_path : string;
  fc_content : string;
  fc_size : Z;
  fc_hash : string;
  fc_metadata : gmap string mdval
}.

Definition supported_extensions : list string :=
  [".ts"; ".tsx"; ".js"; ".jsx"; ".json"; ".css"; ".scss";
   ".sass"; ".less"; ".html"; ".md"; ".mdx"; ".yaml"; ".yml"].

Definition ignore_dirs : list string :=
  ["node_modules"; ".git"; ".next"; "build"; "dist";
   "coverage"; ".nyc_output"; "tmp"; "temp"].

Definition ignore_files : list string :=
  [".env"; ".env.local"; ".env.production"; ".env.development";
   "package-lock.json"; "yarn.lock"; ".gitignore"; ".eslintrc";
   ".prettierrc"; "tsconfig.json"].

(** The encodings [_read_file_content] tries, in order. *)
Inductive encoding : Type := utf_8 | utf_8_sig | latin_1 | cp1252.

Definition encodings : list encoding := [utf_8; utf_8_sig; latin_1; cp1252].

(** The [utf-8-sig] codec drops a leading byte order mark. *)
Definition strip_bom (raw : list Byte.byte) : list Byte.byte :=
  match raw with
  | Byte.xef :: Byte.xbb :: Byte.xbf :: rest => rest
  | _ => raw
  end.

Definition _is_react_component (file_path : pathlib.Path) : result bool :=
  if str_mem (pathlib.suffix file_path) [".tsx"; ".jsx"] then Ok true
  else if str_in "components" (lower (pathlib.str file_path)) then Ok true
  else match pathlib.name file_path with
       | EmptyString => Raise (IndexError "string index out of range")
       | String c _ => Ok (isupper c)
       end.

Definition _is_test_file (file_path : pathlib.Path) : bool :=
  let name_lower := lower (pathlib.name file_path) in
  str_in ".test." name_lower
  || str_in ".spec." name_lower
  || str_in "__tests__" (lower (pathlib.str file_path)).

Definition _is_config_file (file_path : pathlib.Path) : bool :=
  let name_lower := lower (pathlib.name file_path) in
  str_in "config" name_lower
  || startswith name_lower "."
  || str_mem (pathlib.suffix file_path) [".json"; ".yaml"; ".yml"].

(** The loop [for part in file_path.parts] of [_should_process_file]:
    whether it returns [False]. *)
Fixpoint in_ignored_dir (parts : list string) : bool :=
  match parts with
  | [] => false
  | part :: rest => if str_mem part ignore_dirs then true else in_ignored_dir rest
  end.

Section Files.

Context {E : externals}.

(** The file system and the codecs.
    - [stat p] is [p.stat()], [is_file p] is [p.is_file()], [rglob p] is
      [list(p.rglob("*"))], [read_bytes p] is the bytes [open(p)] reads;
      each raises as the operating system decides.
    - [utf8_decode] and [cp1252_decode] are the strict decoders, [None]
      when they raise [UnicodeDecodeError]; a text with a code point
      above 255 is outside the model.  Latin-1 decoding maps each byte to
      the character with its code.
    - [isoformat t] is [datetime.fromtimestamp(t).isoformat()]. *)
Variable stat : pathlib.Path -> result stat_result.
Variable is_file : pathlib.Path -> bool.
Variable rglob : pathlib.Path -> list pathlib.Path.
Variable read_bytes : pathlib.Path -> result (list Byte.byte).
Variable utf8_decode : list Byte.byte -> option string.
Variable cp1252_decode : list Byte.byte -> option string.
Variable isoformat : float -> string.

(** [self.repo_path] *)
Variable self_repo_path : pathlib.Path.

Definition _should_process_file (file_path : pathlib.Path) : M E bool :=
  if negb (str_mem (pathlib.suffix file_path) supported_extensions) then ret false
  else if in_ignored_dir (pathlib.parts file_path) then ret false
  else if str_mem (pathlib.name file_path) ignore_files then ret false
  else
    returned <-
      try_except
        (st <- lift (stat file_path);;
         if 1024 * 1024 <? st_size st then
           (logger WARNING
              ("Archivo muy grande ignorado: " +:+ pathlib.str file_path);;;
            ret (Some false))
         else ret None)
        (fun _ => ret (Some false));;
    match returned with
    | Some b => ret b
    | None => ret true
    end.

Definition _get_file_metadata (file_path : pathlib.Path)
  : result (gmap string mdval) :=
  st ← stat file_path;
  relative_path ← pathlib.relative_to file_path self_repo_path;
  is_component ← _is_react_component file_path;
  Ok (<["file_path" := MStr (pathlib.str relative_path)]>
      (<["file_name" := MStr (pathlib.name file_path)]>
      (<["file_extension" := MStr (pathlib.suffix file_path)]>
      (<["file_size" := MInt (st_size st)]>
      (<["last_modified" := MStr (isoformat (st_mtime st))]>
      (<["directory" := MStr (pathlib.str (pathlib.parent relative_path))]>
      (<["is_component" := MBool is_component]>
      (<["is_test" := MBool (_is_test_file file_path)]>
      (<["is_config" := MBool (_is_config_file file_path)]> ∅))))))))).

(** [raw.decode(encoding)] *)
Definition decode (enc : encoding) (raw : list Byte.byte) : option string :=
  match enc with
  | utf_8 => utf8_decode raw
  | utf_8_sig => utf8_decode (strip_bom raw)
  | latin_1 => Some (string_of_list_byte raw)
  | cp1252 => cp1252_decode raw
  end.

(** The loop [for encoding in encodings] of [_read_file_content]: the
    file is opened and read with each encoding until one decodes it. *)
Fixpoint read_content (file_path : pathlib.Path) (encs : list encoding)
  : result (option string) :=
  match encs with
  | [] => Ok None
  | enc :: rest =>
      raw ← read_bytes file_path;
      match decode enc raw with
      | Some s => Ok (Some (translate_newlines s))
      | None => read_content file_path rest
      end
  end.

Definition _read_file_content (file_path : pathlib.Path)
  : M E (option FileContent) :=
  try_except
    (content <- lift (read_content file_path encodings);;
     match content with
     | None =>
         logger WARNING ("No se pudo decodificar: " +:+ pathlib.str file_path);;;
         ret None
     | Some content =>
         let content_hash := sha256_hexdigest E content in
         relative_path <- lift (pathlib.relative_to file_path self_repo_path);;
         md <- lift (_get_file_metadata file_path);;
         ret (Some {| fc_path := pathlib.str relative_path;
                      fc_content := content;
                      fc_size := Z.of_nat (String.length content);
                      fc_hash := content_hash;
                      fc_metadata := md |})
     end)
    (fun e =>
       logger ERROR
         ("Error leyendo " +:+ pathlib.str file_path +:+ ": " +:+ exn_str e);;;
       ret None).

(** The generator [_get_all_files], run to its end over the given
    candidates. *)
Fixpoint select_files (candidates : list pathlib.Path)
  : M E (list pathlib.Path) :=
  match candidates with
  | [] => ret []
  | file_path :: rest =>
      if is_file file_path then
        keep <- _should_process_file file_path;;
        files <- select_files rest;;
        ret (if keep then file_path :: files else files)
      else select_files rest
  end.

Definition _get_all_files : M E (list pathlib.Path) :=
  select_files (rglob self_repo_path).

End Files.

(** *** Vocabulary of the run's properties *)

Section Run.

Context {E : externals}.

(** The chunks of the files a run reads, in the order of the files: a
    file that cannot be read, or whose chunking raises, gives none. *)
Definition file_chunks
    (self : config) (file : option (string * gmap string mdval)) : list chunk :=
  match file with
  | Some (content, md) =>
      match _chunk_content (tokenizer_encode E) self content md with
      | Ok cks => cks
      | Raise _ => []
      end
  | None => []
  end.

Definition indexed_chunks
    (self : config) (files : list (option (string * gmap string mdval)))
  : list chunk :=
  concat (map (file_chunks self) files).

(** The requests the tasks of a list of chunks send. *)
Definition chunk_requests (cks : list chunk) : list invoke_request :=
  concat (map (fun c => requests_for (PStr (text c))) cks).

End Run.

Arguments file_chunks E self file : clear implicits.
Arguments indexed_chunks E self files : clear implicits.

(** A tokenizer that emits one token per character.  [cl100k_base]
    agrees with it on the strings used in the examples below: their
    lines alternate single letters and single digits, which the
    tokenizer's pre-tokenization splits into one-character pieces, and
    a line break between two lines is a token of its own. *)
Definition char_encode (s : string) : list Z :=
  map (fun c => Z.of_nat (nat_of_ascii c)) (list_ascii_of_string s).

End vectorize_repo.

(** ** tools/busqueda.py *)
Module busqueda.

Definition CHROMA_PERSIST_DIR : string := "./chroma_db".
Definition COLLECTION_NAME : string := "react_typescript_code".
Definition BEDROCK_MODEL_ID : string := "amazon.titan-embed-text-v1".
Definition MAX_RESULTS : Z := 5.

(** One formatted result of [buscar]. *)
Record search_result : Type := SearchResult {
  contenido : string;
  metadata : gmap string mdval;
  relevancia : float
}.

Section BuscadorSemantico.

Context {E : externals}.

(** [BuscadorSemantico()]; [region] is [os.getenv("AWS_REGION")].  The
    value returned is [self.collection]. *)
Definition __init__ (region : option string) : M E string :=
  _ <- lift (boto3_client E (default "us-east-1" region));;
  _ <- lift (PersistentClient E CHROMA_PERSIST_DIR);;
  try_except
    (get_collection COLLECTION_NAME)
    (fun e =>
       raise (ValueError
                ("No se pudo encontrar la colección en ChromaDB: "
                 +:+ exn_str e))).

Definition _validar_respuesta_bedrock (response_body : json)
  : result (list json) :=
  match response_body with
  | JDict d =>
      match json_field d "embedding" with
      | None => Raise (ValueError "Respuesta AWS no contiene campo 'embedding'")
      | Some (JList embedding) =>
          match embedding with
          | [] => Raise (ValueError "El embedding está vacío")
          | _ :: _ =>
              if forallb is_number embedding then Ok embedding
              else Raise (ValueError "El embedding contiene valores no numéricos")
          end
      | Some _ => Raise (ValueError "El embedding no es una lista válida")
      end
  | _ => Raise (ValueError "Respuesta AWS no es un diccionario válido")
  end.

Definition generar_embedding (texto : pyval) : M E (list json) :=
  try_except
    (if negb (truthy texto) || negb (is_str texto) then
       raise (ValueError "Texto de entrada inválido para embedding")
     else
       match texto with
       | PStr s =>
           raw <- call_invoke_model
                    {| modelId := BEDROCK_MODEL_ID;
                       contentType := None;
                       accept := None;
                       inputText := s |};;
           response_body <- lift (json_loads E raw);;
           embedding <- lift (_validar_respuesta_bedrock response_body);;
           (logger DEBUG
              ("Embedding generado exitosamente: "
               +:+ int_str (Z.of_nat (length embedding)) +:+ " dimensiones");;;
            ret embedding)
       | _ => raise (OtherError "TypeError")
       end)
    (fun e =>
       if is_ValueError e then
         raise (WrappedException
                  ("Error de validación en respuesta Bedrock: " +:+ exn_str e))
       else if is_JSONDecodeError e then
         raise (WrappedException
                  ("Error decodificando JSON de Bedrock: " +:+ exn_str e))
       else
         raise (WrappedException
                  ("Error al generar embedding con Bedrock: " +:+ exn_str e))).

(** The loop [for i in range(len(results["ids"][0]))] of [buscar]. *)
Fixpoint format_results
    (results : query_result) (indices : list nat)
    (formatted_results : list search_result) : result (list search_result) :=
  match indices with
  | [] => Ok formatted_results
  | i :: rest =>
      docs ← list_index (documents results) 0;
      doc ← list_index docs i;
      mds ← list_index (metadatas results) 0;
      md ← list_index mds i;
      ds ← list_index (distances results) 0;
      d ← list_index ds i;
      format_results results rest
        (formatted_results
         ++ [{| contenido := doc; metadata := md;
                relevancia := (1 - d)%float |}])
  end.

Definition buscar (self_collection : string) (query : pyval) (num_results : Z)
  : M E (list search_result) :=
  try_except
    (query_embedding <- generar_embedding query;;
     results <- call_collection_query self_collection [query_embedding]
                  num_results;;
     first_ids <- lift (list_index (ids results) 0);;
     lift (format_results results (seq 0 (length first_ids)) []))
    (fun e =>
       raise (WrappedException ("Error al buscar en ChromaDB: " +:+ exn_str e))).

End BuscadorSemantico.

(** *** Vocabulary of the search tool's properties *)

(** One stored entry as a query returns it. *)
Record hit : Type := Hit {
  hit_id : string;
  hit_document : string;
  hit_metadata : gmap string mdval;
  hit_distance : float
}.

(** The dict [collection.query] returns for one query embedding and the
    given hits, in the store's order. *)
Definition query_result_of (hits : list hit) : query_result :=
  {| ids := [map hit_id hits];
     documents := [map hit_document hits];
     metadatas := [map hit_metadata hits];
     distances := [map hit_distance hits] |}.

(** The result [buscar] formats for a hit. *)
Definition result_of (h : hit) : search_result :=
  {| contenido := hit_document h;
     metadata := hit_metadata h;
     relevancia := (1 - hit_distance h)%float |}.

(** *** The search tool *)

(** [chr(n)] as a one-character string.  The text [buscar_codigo] builds
    has its characters counted, so its letters above 127 are written
    with [chr]; the literals of log and exception messages are written
    as the source file has them. *)
Definition chr (n : nat) : string := String (ascii_of_nat n) EmptyString.

(** [max(xs)] and [min(xs)] on a non-empty list [x :: xs] of floats: the
    first element is replaced by each later one that compares greater
    (smaller). *)
Definition py_max (x : float) (xs : list float) : float :=
  fold_left (fun best item => if (best <? item)%float then item else best) xs x.

Definition py_min (x : float) (xs : list float) : float :=
  fold_left (fun best item => if (item <? best)%float then item else best) xs x.

(** The line that names the kind of a file, from the flags of its
    metadata. *)
Definition tipo (md : gmap string mdval) : string :=
  let flag key := match md !! key with Some v => mdval_truthy v | None => false end in
  if flag "is_component" then "Tipo: Componente React" +:+ NL
  else if flag "is_test" then "Tipo: Archivo de test" +:+ NL
  else if flag "is_config" then
    "Tipo: Archivo de configuraci" +:+ chr 243 +:+ "n" +:+ NL
  else "".

Section Herramienta.

Context {E : externals}.

(** Python's number formatting and summation: [round(x, 2)], [str(x)],
    [format(x, '.3f')], the built-in [sum] on a list of floats and the
    conversion of [len(xs)] to a float. *)
Variable round2 : float -> float.
Variable float_str : float -> string.
Variable format_3f : float -> string.
Variable float_sum : list float -> float.
Variable float_of_len : nat -> float.

(** A statement that also reads and writes the module's global
    [_buscador] ([None], or the collection of the instance it holds). *)
Definition G (A : Type) : Type :=
  option string -> world E -> result A * option string * world E.

Definition glift {A : Type} (m : M E A) : G A :=
  fun g w => let '(r, w') := m w in (r, g, w').

Definition gbind {A B : Type} (m : G A) (f : A -> G B) : G B :=
  fun g w =>
    match m g w with
    | (Ok a, g', w') => f a g' w'
    | (Raise e, g', w') => (Raise e, g', w')
    end.

(** [try: body  except Exception as e: handler(e)] *)
Definition gtry {A : Type} (body : G A) (handler : exn -> G A) : G A :=
  fun g w =>
    match body g w with
    | (Ok a, g', w') => (Ok a, g', w')
    | (Raise e, g', w') => handler e g' w'
    end.

(** [region] is [os.getenv("AWS_REGION")]. *)
Definition obtener_buscador (region : option string) : G string :=
  fun _buscador w =>
    match _buscador with
    | None =>
        match __init__ region w with
        | (Ok b, w') => (Ok b, Some b, w')
        | (Raise e, w') =>
            (Raise (WrappedException
                      ("No se pudo inicializar el buscador semántico: "
                       +:+ exn_str e)),
             None, w')
        end
    | Some b => (Ok b, Some b, w)
    end.

(** The statistics [buscar_codigo] logs when there are results. *)
Definition log_estadisticas (resultados : list search_result) : M E unit :=
  match map relevancia resultados with
  | [] => ret tt
  | r :: rs =>
      let relevancia_max := py_max r rs in
      let relevancia_min := py_min r rs in
      let relevancia_promedio :=
        (float_sum (r :: rs) / float_of_len (length (r :: rs)))%float in
      logger DEBUG "📊 Estadísticas de relevancia:";;;
      logger DEBUG ("   🔝 Máxima: " +:+ format_3f relevancia_max);;;
      logger DEBUG ("   🔻 Mínima: " +:+ format_3f relevancia_min);;;
      logger DEBUG ("   📈 Promedio: " +:+ format_3f relevancia_promedio)
  end.

(** The loop [for i, resultado in enumerate(resultados, 1)]. *)
Fixpoint formatear
    (i : Z) (resultados : list search_result) (respuesta : string)
  : M E string :=
  match resultados with
  | [] => ret respuesta
  | resultado :: rest =>
      let md := metadata resultado in
      let archivo :=
        match md !! "file_path" with
        | Some v => mdval_str v
        | None => "archivo desconocido"
        end in
      let relevancia := round2 (relevancia resultado * 100)%float in
      logger DEBUG
        ("📄 Resultado " +:+ int_str i +:+ ": " +:+ archivo
         +:+ " (relevancia: " +:+ float_str relevancia +:+ "%)");;;
      formatear (i + 1) rest
        (respuesta
         +:+ ("--- Resultado " +:+ int_str i +:+ " (Relevancia: "
              +:+ float_str relevancia +:+ "%) ---" +:+ NL)
         +:+ ("Archivo: " +:+ archivo +:+ NL)
         +:+ tipo md
         +:+ (NL +:+ "Fragmento:" +:+ NL +:+ "```" +:+ NL
              +:+ str_slice (contenido resultado) None (Some 400)
              +:+ "..." +:+ NL +:+ "```" +:+ NL +:+ NL))
  end.

(** The statements of [buscar_codigo] that follow [obtener_buscador()]. *)
Definition responder (buscador : string) (consulta : string) : M E string :=
  logger DEBUG "🎯 Ejecutando búsqueda en ChromaDB...";;;
  resultados <- buscar buscador (PStr consulta) MAX_RESULTS;;
  log_estadisticas resultados;;;
  respuesta <- formatear 1 resultados
                 ("He encontrado " +:+ int_str (Z.of_nat (length resultados))
                  +:+ " resultados para tu consulta:" +:+ NL +:+ NL);;
  logger INFO
    ("📤 Respuesta generada con "
     +:+ int_str (Z.of_nat (String.length respuesta)) +:+ " caracteres");;;
  ret respuesta.

(** The function the [tool] decorator wraps. *)
Definition buscar_codigo (region : option string) (consulta : string)
  : G string :=
  gbind
    (glift (logger INFO
              ("🔍 Iniciando búsqueda semántica: '" +:+ consulta +:+ "'")))
    (fun _ =>
       gtry
         (gbind
            (glift (logger DEBUG
                      "📡 Obteniendo instancia del buscador semántico..."))
            (fun _ =>
               gbind (obtener_buscador region)
                 (fun buscador => glift (responder buscador consulta))))
         (fun e =>
            glift
              (logger ERROR ("❌ Error en búsqueda semántica: " +:+ exn_str e);;;
               ret ("Error al realizar la b" +:+ chr 250 +:+ "squeda: "
                    +:+ exn_str e)))).

End Herramienta.

End busqueda.

(** ** Concrete instances

    Inputs and stand-ins for the libraries, used to run the definitions
    on examples. *)
Module Demo.

Import vectorize_repo.

Definition small_config : config :=
  {| chunk_size := 2; chunk_overlap := 1; max_tokens_per_chunk := 3 |}.

(** A line of 1000 characters and 1000 tokens. *)
Definition line_1000 : string := repeat_str (Z.to_nat 500) "a1".

Definition three_lines : string :=
  line_1000 +:+ NL +:+ line_1000 +:+ NL +:+ line_1000.

(** A line of 10000 characters and 10000 tokens. *)
Definition line_10000 : string := repeat_str (Z.to_nat 5000) "a1".

Definition short_file : string := "ab" +:+ NL +:+ "abcde" +:+ NL +:+ "x".

Definition blank_file : string := " " +:+ NL +:+ " ".

(** A query of 8193 characters. *)
Definition long_query : string := repeat_str (Z.to_nat 8193) "a".

(** An indexing run: the provider answers every text but [down] with a
    two-dimensional embedding, no path exists on disk, and a collection
    is the list of its rows. *)
Definition pipeline : externals :=
  {| bedrock := nat;
     collection := list entry;
     tokenizer_encode := char_encode;
     sha256_hexdigest := fun s => "sha256:" +:+ s;
     repo_files := fun _ => [];
     json_loads := fun raw =>
       if String.eqb raw "ok"
       then Ok (JDict [("embedding", JList [JInt 1; JFloat 0.5])])
       else Raise (JSONDecodeError "Expecting value");
     invoke_model := fun n req =>
       (if String.eqb (inputText req) "down"
        then Raise (OtherError "timeout") else Ok "ok", S n);
     boto3_client := fun _ => Ok tt;
     PersistentClient := fun _ => Ok tt;
     new_collection := fun _ => [];
     collection_add := fun c rows => Ok (c ++ rows);
     collection_query := fun _ _ _ => Raise (OtherError "not used");
     path_exists := fun _ => false |}.

Definition empty_world : world pipeline :=
  @World pipeline 0%nat [] ∅ [].

Definition indexed_world : world pipeline :=
  @World pipeline 0%nat [] {[ "react_typescript_code" := [] ]} [].

Definition stored_chunk (idx : Z) (txt : string) : chunk :=
  {| text := txt;
     metadata :=
       {[ "file_path" := MStr "src/App.tsx"; "chunk_index" := MInt idx ]};
     embedding := Some [JFloat 0.5] |}.

Definition stored_chunks : list chunk :=
  [stored_chunk 0 "import React"; stored_chunk 1 "export default App"].

Definition stored_rows : list entry :=
  [ {| entry_id := "sha256:src/App.tsx_0"; entry_embedding := [JFloat 0.5];
       entry_metadata := metadata (stored_chunk 0 "");
       entry_document := "import React" |};
    {| entry_id := "sha256:src/App.tsx_1"; entry_embedding := [JFloat 0.5];
       entry_metadata := metadata (stored_chunk 1 "");
       entry_document := "export default App" |} ].

(** Two stored entries, nearest first; the second distance is 2^-60. *)
Definition hits : list busqueda.hit :=
  [ {| busqueda.hit_id := "a"; busqueda.hit_document := "login()";
       busqueda.hit_metadata := ∅; busqueda.hit_distance := 0%float |};
    {| busqueda.hit_id := "b"; busqueda.hit_document := "logout()";
       busqueda.hit_metadata := ∅;
       busqueda.hit_distance := 0x1p-60%float |} ].

(** A query session: a collection is the list of hits every query
    returns. *)
Definition search : externals :=
  {| bedrock := nat;
     collection := list busqueda.hit;
     tokenizer_encode := char_encode;
     sha256_hexdigest := fun s => "sha256:" +:+ s;
     repo_files := fun _ => [];
     json_loads := fun _ => Ok (JDict [("embedding", JList [JFloat 0.5])]);
     invoke_model := fun n _ => (Ok "ok", S n);
     boto3_client := fun _ => Ok tt;
     PersistentClient := fun _ => Ok tt;
     new_collection := fun _ => [];
     collection_add := fun c _ => Ok c;
     collection_query := fun c _ _ => Ok (busqueda.query_result_of c);
     path_exists := fun _ => true |}.

Definition search_world : world search :=
  @World search 0%nat [] {[ busqueda.COLLECTION_NAME := hits ]} [].

End Demo.

(** ** Binary64 rounding

    Vocabulary for the subtraction [1 - d] of [buscar]: the rounding of
    an integer count of units of [2^-1074] to the nearest binary64
    number, ties to even, written with integer arithmetic. *)
Module Binary64.

(** [V / 2^n] rounded to the nearest integer, ties to even ([1 <= n]). *)
Definition rne (V n : Z) : Z :=
  let q := V / 2 ^ n in
  round_nearest_even q
    (loc_of_shr_record
       {| shr_m := q;
          shr_r := Z.odd (V / 2 ^ (n - 1));
          shr_s := negb (V mod 2 ^ (n - 1) =? 0) |}).

(** The number [m * 2^e] with the sign [sx], or the infinity when the
    exponent is too large. *)
Definition finish (sx : bool) (m e : Z) : spec_float :=
  if e <=? 971 then S754_finite sx (Z.to_pos m) e else S754_infinity sx.

(** The binary64 number nearest to [V * 2^-1074], for [0 < V], with the
    sign [sx]. *)
Definition round_scaled (sx : bool) (V : Z) : spec_float :=
  let n := Z.max (Zdigits2 V - 53) 0 in
  if n =? 0 then S754_finite sx (Z.to_pos V) (-1074)
  else
    let q := rne V n in
    let m := if q =? 2 ^ 53 then 2 ^ 52 else q in
    let e := if q =? 2 ^ 53 then n + 1 - 1074 else n - 1074 in
    if e <=? 971 then S754_finite sx (Z.to_pos m) e else S754_infinity sx.

(** The exponent and the mantissa [round_scaled] chooses. *)
Definition scaled_exp (V : Z) : Z :=
  let n := Z.max (Zdigits2 V - 53) 0 in
  if n =? 0 then -1074
  else if rne V n =? 2 ^ 53 then n + 1 - 1074 else n - 1074.

Definition scaled_mant (V : Z) : Z :=
  let n := Z.max (Zdigits2 V - 53) 0 in
  if n =? 0 then V
  else if rne V n =? 2 ^ 53 then 2 ^ 52 else rne V n.

(** The binary64 number nearest to [V * 2^-1074]. *)
Definition round_signed (V : Z) : spec_float :=
  match V with
  | 0 => S754_zero false
  | Z.pos _ => round_scaled false V
  | Z.neg p => round_scaled true (Z.pos p)
  end.

(** The value of a finite binary64 number, in units of [2^-1074]. *)
Definition scaled_val (a : spec_float) : Z :=
  match a with
  | S754_finite s m e => cond_Zopp s (Z.pos m * 2 ^ (e + 1074))
  | _ => 0
  end.

(** The binary64 number 1.0. *)
Definition SF_one : spec_float := S754_finite false 4503599627370496 (-52).

(** Zero or a finite number. *)
Definition is_finite (a : spec_float) : Prop :=
  match a with
  | S754_zero _ | S754_finite _ _ _ => True
  | _ => False
  end.

End Binary64.

(** ** More instances

    Inputs and stand-ins for the libraries and the file system, used to
    run the further properties on examples. *)
Module Samples.

Import vectorize_repo.

(** No overlap between chunks. *)
Definition no_overlap : config :=
  {| chunk_size := 2; chunk_overlap := 0; max_tokens_per_chunk := 3 |}.

(** A negative slice length. *)
Definition negative_size : config :=
  {| chunk_size := -1; chunk_overlap := 1; max_tokens_per_chunk := 3 |}.

Definition three_short_lines : string := "ab" +:+ NL +:+ "abc" +:+ NL +:+ "x".

(** The second chunk of [Demo.short_file] under [Demo.small_config]. *)
Definition second_chunk : chunk :=
  {| text := "ab";
     metadata := {[ "chunk_index" := MInt 1; "chunk_size" := MInt 2;
                    "token_count" := MInt 2 ]};
     embedding := None |}.

Definition app_md : gmap string mdval :=
  {[ "file_path" := MStr "src/App.tsx"; "is_component" := MBool true ]}.

Definition util_md : gmap string mdval :=
  {[ "file_path" := MStr "src/util.ts" ]}.

(** A repository of three files, the second of which cannot be read; the
    provider fails on the text of the third. *)
Definition repo : externals :=
  {| bedrock := nat;
     collection := list entry;
     tokenizer_encode := char_encode;
     sha256_hexdigest := fun s => "sha256:" +:+ s;
     repo_files := fun _ =>
       [Some ("a1" +:+ NL +:+ "b2", app_md); None; Some ("x9", util_md)];
     json_loads := fun raw =>
       if String.eqb raw "ok"
       then Ok (JDict [("embedding", JList [JInt 1; JFloat 0.5])])
       else Raise (JSONDecodeError "Expecting value");
     invoke_model := fun n req =>
       (if String.eqb (inputText req) "x9"
        then Raise (OtherError "timeout") else Ok "ok", S n);
     boto3_client := fun _ => Ok tt;
     PersistentClient := fun _ => Ok tt;
     new_collection := fun _ => [];
     collection_add := fun c rows => Ok (c ++ rows);
     collection_query := fun _ _ _ => Raise (OtherError "not used");
     path_exists := fun _ => true |}.

(** The same, with a store that refuses every write. *)
Definition full_disk : externals :=
  {| bedrock := nat;
     collection := list entry;
     tokenizer_encode := char_encode;
     sha256_hexdigest := fun s => "sha256:" +:+ s;
     repo_files := fun _ =>
       [Some ("a1" +:+ NL +:+ "b2", app_md); None; Some ("x9", util_md)];
     json_loads := fun _ => Ok (JDict [("embedding", JList [JFloat 0.5])]);
     invoke_model := fun n _ => (Ok "ok", S n);
     boto3_client := fun _ => Ok tt;
     PersistentClient := fun _ => Ok tt;
     new_collection := fun _ => [];
     collection_add := fun _ _ => Raise (OtherError "disk full");
     collection_query := fun _ _ _ => Raise (OtherError "not used");
     path_exists := fun _ => true |}.

(** The same, without credentials for the provider. *)
Definition no_credentials : externals :=
  {| bedrock := nat;
     collection := list entry;
     tokenizer_encode := char_encode;
     sha256_hexdigest := fun s => "sha256:" +:+ s;
     repo_files := fun _ => [];
     json_loads := fun _ => Raise (JSONDecodeError "Expecting value");
     invoke_model := fun n _ => (Raise (OtherError "timeout"), S n);
     boto3_client := fun _ => Raise (OtherError "NoRegionError");
     PersistentClient := fun _ => Ok tt;
     new_collection := fun _ => [];
     collection_add := fun c rows => Ok (c ++ rows);
     collection_query := fun _ _ _ => Raise (OtherError "not used");
     path_exists := fun _ => true |}.

Definition args (n : Z) : cli_args :=
  {| repo_path := "./repository/sas-fa-web-frontend/src";
     chroma_dir := "./chroma_db";
     arg_collection_name := "react_typescript_code";
     aws_region := "us-east-1";
     batch_size := n;
     max_workers := 4 |}.

(** The vectorizer [main] builds for a batch size. *)
Definition indexer (n : Z) : vectorizer :=
  {| self_args := args n;
     self_config := default_config;
     self_collection := "react_typescript_code" |}.

Definition repo_start : world repo :=
  @World repo 0%nat [] {[ "react_typescript_code" := [] ]} [].

(** The world [RepositoryVectorizer] leaves when the collection exists. *)
Definition repo_ready : world repo :=
  @World repo 0%nat [] {[ "react_typescript_code" := [] ]}
    [{| levelname := INFO;
        message := "Colección existente encontrada: react_typescript_code" |}].

Definition full_disk_start : world full_disk :=
  @World full_disk 0%nat [] {[ "react_typescript_code" := [] ]} [].

Definition no_credentials_start : world no_credentials :=
  @World no_credentials 0%nat [] ∅ [].

(** A file system: every file has 10 bytes. *)
Definition stat_10 (p : pathlib.Path) : result stat_result :=
  Ok {| st_size := 10; st_mtime := 0%float |}.

Definition epoch (t : float) : string := "1970-01-01T00:00:00".

(** A repository checked out under [/tmp]. *)
Definition tmp_repo : pathlib.Path :=
  {| pathlib.anchored := true; pathlib.components := ["tmp"; "repo"] |}.

Definition tmp_files (root : pathlib.Path) : list pathlib.Path :=
  [ {| pathlib.anchored := pathlib.anchored root;
       pathlib.components := pathlib.components root ++ ["index.ts"] |};
    {| pathlib.anchored := pathlib.anchored root;
       pathlib.components := pathlib.components root ++ ["src"; "App.tsx"] |} ].

Definition home_repo : pathlib.Path :=
  {| pathlib.anchored := true; pathlib.components := ["home"; "ana"; "repo"] |}.

(** A test file written in TSX. *)
Definition button_test : pathlib.Path :=
  {| pathlib.anchored := true;
     pathlib.components := ["home"; "ana"; "repo"; "src"; "button.test.tsx"] |}.

Definition button_test_md : gmap string mdval :=
  {[ "file_path" := MStr "src/button.test.tsx";
     "file_name" := MStr "button.test.tsx";
     "file_extension" := MStr ".tsx";
     "file_size" := MInt 10;
     "last_modified" := MStr "1970-01-01T00:00:00";
     "directory" := MStr "src";
     "is_component" := MBool true;
     "is_test" := MBool true;
     "is_config" := MBool false ]}.

Definition button_test_chunk : chunk :=
  {| text := "it()";
     metadata :=
       <["token_count" := MInt 4]>
         (<["chunk_size" := MInt 4]>
            (<["chunk_index" := MInt 0]> button_test_md));
     embedding := None |}.

End Samples.

(** * Properties *)

Import vectorize_repo.

(** ** Strings, slices and ranges *)

Example python_primitives :
  split_nl ("a" +:+ NL +:+ NL +:+ "b") = ["a"; ""; "b"]
  /\ join_nl ["a"; ""; "b"] = "a" +:+ NL +:+ NL +:+ "b"
  /\ strip (" " +:+ NL +:+ " x ") = "x"
  /\ str_slice "abcdef" (Some 2) (Some 4) = "cd"
  /\ str_slice "abcdef" None (Some 100) = "abcdef"
  /\ list_slice [1;2;3;4;5] (Some (-2)) None = [4;5]
  /\ list_slice [1;2;3;4;5] (Some (-0)) None = [1;2;3;4;5]
  /\ range 0 10 4 = Ok [0;4;8]
  /\ range 0 10 (-1) = Ok []
  /\ int_str 12 = "12".
Proof. repeat split; reflexivity. Qed.

Lemma append_String c s t : String c s +:+ t = String c (s +:+ t).
Proof. reflexivity. Qed.

Lemma split_nl_no_nl s : Forall (fun l => has_nl l = false) (split_nl s).
Proof.
  induction s as [|c s IH]; simpl.
  - by constructor.
  - destruct (Ascii.eqb c nl) eqn:Hc.
    + by constructor.
    + destruct (split_nl s) as [|l ls]; [by repeat constructor; simpl; rewrite Hc|].
      inversion IH; subst. constructor; [simpl; by rewrite Hc|done].
Qed.

Lemma split_nl_line l : has_nl l = false -> split_nl l = [l].
Proof.
  induction l as [|c l IH]; simpl; [done|].
  destruct (Ascii.eqb c nl); simpl; [done|]. intros H. by rewrite IH.
Qed.

Lemma split_nl_cons l rest :
  has_nl l = false -> split_nl (l +:+ NL +:+ rest) = l :: split_nl rest.
Proof.
  induction l as [|c l IH]; simpl.
  - done.
  - destruct (Ascii.eqb c nl); simpl; [done|]. intros H. by rewrite IH.
Qed.

Lemma split_join ls :
  ls <> [] -> Forall (fun l => has_nl l = false) ls -> split_nl (join_nl ls) = ls.
Proof.
  induction ls as [|l ls IH]; [done|]. intros _ H. inversion H as [|? ? Hl Hls]; subst.
  destruct ls as [|l' ls].
  - simpl. by apply split_nl_line.
  - change (join_nl (l :: l' :: ls)) with (l +:+ NL +:+ join_nl (l' :: ls)).
    rewrite split_nl_cons by done. f_equal. by apply IH.
Qed.

Lemma str_take_drop n s : str_take n s +:+ str_drop n s = s.
Proof.
  revert s; induction n as [|n IH]; intros [|c s]; simpl; try done.
  rewrite append_String. f_equal. apply IH.
Qed.

Lemma str_drop_length n s : String.length (str_drop n s) = (String.length s - n)%nat.
Proof. revert s; induction n as [|n IH]; intros [|c s]; simpl; try done. Qed.

Lemma str_take_length n s : String.length (str_take n s) = Nat.min n (String.length s).
Proof. revert s; induction n as [|n IH]; intros [|c s]; simpl; try done. by rewrite IH. Qed.

Lemma str_take_all n s : (String.length s <= n)%nat -> str_take n s = s.
Proof. revert s; induction n as [|n IH]; intros [|c s]; simpl; try done; try lia. intros. rewrite IH; [done|lia]. Qed.

Lemma str_take_min n s : str_take (Nat.min n (String.length s)) s = str_take n s.
Proof. revert s; induction n as [|n IH]; intros [|c s]; simpl; try done. by rewrite IH. Qed.

Lemma str_drop_all n s : (String.length s <= n)%nat -> str_drop n s = "".
Proof. revert s; induction n as [|n IH]; intros [|c s]; simpl; try done; try lia. intros. apply IH. lia. Qed.

Lemma str_drop_drop n m s : str_drop n (str_drop m s) = str_drop (m + n) s.
Proof. revert s; induction m as [|m IH]; intros [|c s]; simpl; try done. by destruct n. Qed.

Lemma str_slice_window s i cs :
  0 <= i -> 0 < cs ->
  str_slice s (Some i) (Some (i + cs)) = str_take (Z.to_nat cs) (str_drop (Z.to_nat i) s).
Proof.
  intros Hi Hcs. unfold str_slice, slice_lo, slice_hi, slice_bound.
  destruct (Z.ltb_spec i 0); [lia|]. destruct (Z.ltb_spec (i + cs) 0); [lia|].
  set (len := String.length s).
  destruct (Z.le_gt_cases i (Z.of_nat len)) as [Hle|Hgt].
  - rewrite (Z.min_l i) by lia.
    rewrite <- (str_take_min (Z.to_nat cs)). rewrite str_drop_length. fold len.
    f_equal. lia.
  - rewrite (Z.min_r i) by lia. rewrite (Z.min_r (i + cs)) by lia.
    rewrite Z.sub_diag. rewrite !str_drop_all by (fold len; lia).
    by destruct (Z.to_nat cs).
Qed.

Lemma range_from_zero len step :
  0 < step -> 0 < len ->
  range 0 len step
  = Ok (map (fun k => 0 + Z.of_nat k * step)
            (seq 0 (S (Z.to_nat ((len - 1) / step))))).
Proof.
  intros Hs Hl. unfold range, range_len.
  destruct (Z.eqb_spec step 0); [lia|].
  destruct (Z.ltb_spec 0 step); [|lia].
  destruct (Z.ltb_spec 0 len); [|lia].
  do 3 f_equal. rewrite Z.sub_0_r.
  assert (0 <= (len - 1) / step) by (apply Z.div_pos; lia). lia.
Qed.

Lemma map_seq_S (f : nat -> Z) n :
  map f (seq 0 (S n)) = f 0%nat :: map (fun k => f (S k)) (seq 0 n).
Proof. simpl. f_equal. by rewrite <- seq_shift, map_map. Qed.


Lemma ceil_div_pos len step :
  0 < step -> 0 < len -> (len + step - 1) / step = (len - 1) / step + 1.
Proof.
  intros. replace (len + step - 1) with (len - 1 + 1 * step) by lia.
  rewrite Z.div_add by lia. done.
Qed.

Lemma range_len_ceil len step :
  0 < step -> 0 <= len -> range_len 0 len step = (len + step - 1) / step.
Proof.
  intros Hs Hl. unfold range_len.
  destruct (Z.ltb_spec 0 step); [|lia].
  destruct (Z.ltb_spec 0 len).
  - rewrite ceil_div_pos by lia. f_equal. f_equal. lia.
  - replace len with 0 by lia. simpl. symmetry. apply Z.div_small. lia.
Qed.

Lemma range_windows len step :
  0 < step -> 0 <= len ->
  range 0 len step
  = Ok (map (fun k => Z.of_nat k * step)
            (seq 0 (Z.to_nat ((len + step - 1) / step)))).
Proof.
  intros Hs Hl. unfold range. destruct (Z.eqb_spec step 0); [lia|].
  rewrite range_len_ceil by done. f_equal.
Qed.

Lemma ceil_div_bounds len step :
  0 < step -> 0 <= len ->
  let count := (len + step - 1) / step in
  0 <= count /\ len <= count * step /\ (count - 1) * step < len.
Proof.
  intros Hs Hl count. subst count.
  assert (step * ((len + step - 1) / step) <= len + step - 1) by (apply Z.mul_div_le; lia).
  assert (len + step - 1 < step * Z.succ ((len + step - 1) / step))
    by (apply Z.mul_succ_div_gt; lia).
  assert (0 <= (len + step - 1) / step) by (apply Z.div_pos; lia).
  repeat split; nia.
Qed.

Lemma concat_windows line c : forall count i0,
  (String.length line <= i0 + count * c)%nat ->
  str_concat (map (fun k => str_take c (str_drop (i0 + k * c) line)) (seq 0 count))
  = str_drop i0 line.
Proof.
  induction count as [|n IH]; intros i0 Hle.
  - simpl. symmetry. apply str_drop_all. lia.
  - rewrite <- cons_seq, <- seq_shift, map_cons, map_map. cbn [str_concat fold_right].
    fold (str_concat (map (fun k => str_take c (str_drop (i0 + S k * c) line)) (seq 0 n))).
    rewrite (map_ext _ (fun k => str_take c (str_drop ((i0 + c) + k * c) line)))
      by (intros; do 2 f_equal; lia).
    rewrite IH by lia. rewrite Nat.mul_0_l, Nat.add_0_r.
    rewrite <- str_drop_drop. apply str_take_drop.
Qed.


(** ** The chunker *)

Section ChunkerFacts.

Variable encode : string -> list Z.
Variable self : config.
Local Abbreviation cs := (chunk_size self).
Local Abbreviation budget := (max_tokens_per_chunk self).


Lemma temit_slices_block md tr line indices :
  temit_slices encode self md tr line indices
  = tr ++ tblock encode self md (length tr) line indices.
Proof.
  revert tr. induction indices as [|i rest IH]; intros tr; simpl.
  - by rewrite app_nil_r.
  - rewrite IH. unfold tappend. rewrite length_app, <- app_assoc. simpl.
    by rewrite Nat.add_1_r.
Qed.

Lemma tblock_erase md n line indices cks :
  length cks = n ->
  emit_slices encode self md cks line indices
  = cks ++ map snd (tblock encode self md n line indices).
Proof.
  revert cks n. induction indices as [|i rest IH]; intros cks n Hn; simpl.
  - by rewrite app_nil_r.
  - rewrite (IH _ (S n)).
    + unfold append_chunk. rewrite <- app_assoc. simpl. by rewrite Hn.
    + unfold append_chunk. rewrite length_app. simpl. lia.
Qed.

Lemma erase_step md st line :
  chunk_step encode self md (erase st) line
  = erase <$> traced_step encode self md st line.
Proof.
  destruct st as [tr cur seed tok].
  unfold chunk_step, traced_step, erase. simpl.
  destruct (budget <? token_len encode line).
  - destruct (range 0 (Z.of_nat (String.length line)) cs) as [indices|e]; simpl; [|done].
    destruct cur as [|l0 cur]; simpl; do 2 f_equal.
    + rewrite temit_slices_block, map_app.
      by rewrite (tblock_erase md (length tr)) by apply length_map.
    + rewrite temit_slices_block, map_app.
      rewrite (tblock_erase md (length (tappend encode md tr (Packed seed) (join_nl (l0 :: cur))))).
      * f_equal. unfold tappend, append_chunk. rewrite map_app. simpl. by rewrite length_map.
      * unfold tappend, append_chunk. rewrite !length_app, length_map. done.
  - destruct (budget <? tok + token_len encode line); simpl; [|done].
    do 2 f_equal.
    destruct cur; simpl; [done|].
    unfold tappend, append_chunk. rewrite map_app. simpl. by rewrite length_map.
Qed.

Lemma erase_loop md lines : forall st,
  chunk_loop encode self md (erase st) lines
  = erase <$> traced_loop encode self md st lines.
Proof.
  induction lines as [|line rest IH]; intros st; simpl; [done|].
  rewrite erase_step.
  destruct (traced_step encode self md st line) as [st'|e]; simpl; [|done].
  apply IH.
Qed.

Lemma erase_chunk_content content md :
  _chunk_content encode self content md
  = map snd <$> traced_chunk_content encode self content md.
Proof.
  unfold _chunk_content, traced_chunk_content.
  destruct (negb (str_truthy (strip content))); [done|].
  change initial_state with (erase traced_initial).
  rewrite erase_loop.
  destruct (traced_loop encode self md traced_initial (split_nl content)) as [st|e]; simpl; [|done].
  f_equal. destruct (tcurrent st); simpl; [done|].
  unfold tappend, append_chunk. rewrite map_app. simpl. by rewrite length_map.
Qed.


Lemma tblock_cons md n line i rest :
  tblock encode self md n line (i :: rest)
  = (Slice (i + cs <? Z.of_nat (String.length line)),
     _create_chunk_dict encode (str_slice line (Some i) (Some (i + cs))) md
       (Z.of_nat n))
    :: tblock encode self md (S n) line rest.
Proof. reflexivity. Qed.

Lemma reconstruct_last_slice c tr :
  reconstruct ((Slice false, c) :: tr) = text c :: reconstruct tr.
Proof. reflexivity. Qed.

Lemma reconstruct_inner_slice c tr l ls :
  reconstruct tr = l :: ls ->
  reconstruct ((Slice true, c) :: tr) = (text c +:+ l) :: ls.
Proof. intros H. simpl. by rewrite H. Qed.

Lemma reconstruct_block md line (Hcs : 0 < cs) :
  forall count i0 n tr',
    0 <= i0 ->
    i0 + Z.of_nat count * cs < Z.of_nat (String.length line) ->
    Z.of_nat (String.length line) <= i0 + Z.of_nat (S count) * cs ->
    reconstruct
      (tblock encode self md n line
         (map (fun k => i0 + Z.of_nat k * cs) (seq 0 (S count))) ++ tr')
    = str_drop (Z.to_nat i0) line :: reconstruct tr'.
Proof.
  induction count as [|c IH]; intros i0 n tr' Hi0 Hlt Hle;
    rewrite map_seq_S, tblock_cons, <- app_comm_cons;
    rewrite Z.mul_0_l, Z.add_0_r.
  - destruct (Z.ltb_spec (i0 + cs) (Z.of_nat (String.length line))); [lia|].
    rewrite reconstruct_last_slice. simpl. f_equal.
    rewrite str_slice_window by lia.
    apply str_take_all. rewrite str_drop_length. lia.
  - destruct (Z.ltb_spec (i0 + cs) (Z.of_nat (String.length line))); [|lia].
    rewrite (map_ext _ (fun k => (i0 + cs) + Z.of_nat k * cs)) by (intros; lia).
    erewrite reconstruct_inner_slice by (apply IH; lia).
    f_equal. cbn [text _create_chunk_dict]. rewrite str_slice_window by lia.
    replace (Z.to_nat (i0 + cs)) with (Z.to_nat i0 + Z.to_nat cs)%nat by lia.
    rewrite <- str_drop_drop. apply str_take_drop.
Qed.

Lemma reconstruct_slices md line n indices tr' :
  0 < cs -> line <> "" ->
  range 0 (Z.of_nat (String.length line)) cs = Ok indices ->
  reconstruct (tblock encode self md n line indices ++ tr')
  = line :: reconstruct tr'.
Proof.
  intros Hcs Hne Hr.
  assert (0 < Z.of_nat (String.length line)) as Hlen by (destruct line; simpl; [done|lia]).
  rewrite range_from_zero in Hr by done.
  replace indices
    with (map (fun k => 0 + Z.of_nat k * cs)
            (seq 0 (S (Z.to_nat ((Z.of_nat (String.length line) - 1) / cs)))))
    by congruence.
  clear Hr.
  set (q := (Z.of_nat (String.length line) - 1) / cs).
  assert (0 <= q) by (apply Z.div_pos; lia).
  assert (cs * q <= Z.of_nat (String.length line) - 1) by (apply Z.mul_div_le; lia).
  assert (Z.of_nat (String.length line) - 1 < cs * Z.succ q)
    by (apply Z.mul_succ_div_gt; lia).
  rewrite (reconstruct_block md line Hcs (Z.to_nat q) 0 n tr'); [done|lia|nia|nia].
Qed.


Lemma splits_nil : splits [].
Proof. intros tr'. reflexivity. Qed.

Lemma splits_packed tr seed c :
  splits tr -> splits (tr ++ [(Packed seed, c)]).
Proof.
  intros H tr'. rewrite <- app_assoc, !H. simpl.
  by rewrite app_nil_r, <- app_assoc.
Qed.

Lemma splits_block md tr line n indices :
  0 < cs -> line <> "" ->
  range 0 (Z.of_nat (String.length line)) cs = Ok indices ->
  splits tr -> splits (tr ++ tblock encode self md n line indices).
Proof.
  intros Hcs Hne Hr H tr'.
  pose proof (reconstruct_slices md line n indices [] Hcs Hne Hr) as Hb.
  rewrite app_nil_r in Hb.
  rewrite <- app_assoc, !H, Hb.
  rewrite (reconstruct_slices md line n indices tr') by done.
  by rewrite <- app_assoc.
Qed.

Lemma overlap_of_Forall (P : string -> Prop) cur :
  Forall P cur -> Forall P (overlap_of self cur).
Proof.
  intros H. unfold overlap_of.
  destruct (chunk_overlap self <? Z.of_nat (length cur)); [|done].
  unfold list_slice. by apply Forall_take, Forall_drop.
Qed.

Lemma flush_inv md st consumed :
  chunker_inv encode self st consumed ->
  let tr := tflush encode md (tchunks st) (tseed st) (tcurrent st) in
  splits tr /\ reconstruct tr = consumed
  /\ covered encode self tr [] consumed
  /\ (forall l, l ∈ tcurrent st -> exists oc, oc ∈ tr /\ l ∈ split_nl (text oc.2)).
Proof.
  intros [Hs Hl Hn Hseed Hc]. destruct st as [tr cur seed tok]. simpl in *.
  destruct cur as [|l0 cur]; cbn [tflush].
  - rewrite drop_nil, app_nil_r in Hl. repeat split; try done.
    intros l Hin. by apply elem_of_nil in Hin.
  - unfold tappend.
    assert (split_nl (join_nl (l0 :: cur)) = l0 :: cur) as Hsj by (by apply split_join).
    assert (forall l, l ∈ l0 :: cur ->
              exists oc, oc ∈ tr ++ [(Packed seed,
                  _create_chunk_dict encode (join_nl (l0 :: cur)) md (Z.of_nat (length tr)))]
               /\ l ∈ split_nl (text oc.2)) as Hcur.
    { intros l Hin. eexists. split; [apply elem_of_app; right; apply list_elem_of_singleton; reflexivity|].
      cbn [snd text _create_chunk_dict]. by rewrite Hsj. }
    split; [by apply splits_packed|]. split; [|split; [|done]].
    + rewrite Hs. cbn [reconstruct text _create_chunk_dict]. by rewrite Hsj, app_nil_r.
    + intros l Hin Hb. left. destruct (Hc l Hin Hb) as [(oc & Hoc & Hloc)|Hincur].
      * exists oc. split; [|done]. apply elem_of_app. by left.
      * by apply Hcur.
Qed.

Lemma traced_step_inv md st consumed line :
  0 < cs -> token_len encode "" <= budget ->
  has_nl line = false ->
  chunker_inv encode self st consumed ->
  exists st', traced_step encode self md st line = Ok st'
              /\ chunker_inv encode self st' (consumed ++ [line]).
Proof.
  intros Hcs Hempty Hline Hinv.
  pose proof (flush_inv md st consumed Hinv) as (Hfs & Hfl & Hfc & Hfcur).
  destruct Hinv as [Hs Hl Hn Hseed Hc].
  unfold traced_step.
  destruct (Z.ltb_spec budget (token_len encode line)) as [Hover|Hfit].
  - assert (line <> "") as Hne by (intros ->; lia).
    assert (0 < Z.of_nat (String.length line)) as Hlen by (destruct line; simpl; [done|lia]).
    destruct (range 0 (Z.of_nat (String.length line)) cs) as [indices|e] eqn:Hr;
      [|rewrite range_from_zero in Hr by done; done].
    simpl. eexists. split; [reflexivity|].
    set (st1 := match tcurrent st with
                | [] => st
                | _ :: _ =>
                    {| tchunks := tappend encode md (tchunks st) (Packed (tseed st))
                                    (join_nl (tcurrent st));
                       tcurrent := []; tseed := 0%nat; ttokens := 0 |}
                end).
    assert (tchunks st1 = tflush encode md (tchunks st) (tseed st) (tcurrent st)
            /\ tcurrent st1 = [] /\ tseed st1 = 0%nat) as (Htr & Hcur' & Hseed').
    { subst st1. destruct (tcurrent st) eqn:E; simpl; rewrite ?E; repeat split; try done.
      simpl in Hseed. lia. }
    constructor; cbn [tchunks tcurrent tseed]; rewrite ?Htr, ?Hcur', ?Hseed', ?temit_slices_block.
    + by apply splits_block.
    + rewrite drop_nil, app_nil_r, Hfs, Hfl.
      pose proof (reconstruct_slices md line
                    (length (tflush encode md (tchunks st) (tseed st) (tcurrent st)))
                    indices [] Hcs Hne Hr) as Hb.
      rewrite app_nil_r in Hb. by rewrite Hb.
    + constructor.
    + simpl. lia.
    + intros l Hin Hb. left. apply elem_of_app in Hin as [Hin|Hin].
      * destruct (Hfc l Hin Hb) as [(oc & Hoc & Hloc)|Hnil]; [|by apply elem_of_nil in Hnil].
        exists oc. split; [|done]. apply elem_of_app. by left.
      * apply list_elem_of_singleton in Hin as ->. lia.
  - destruct (Z.ltb_spec budget (ttokens st + token_len encode line)) as [Hfull|Hroom].
    + eexists. split; [reflexivity|].
      constructor; cbn [tchunks tcurrent tseed].
      * done.
      * rewrite Hfl. by rewrite drop_app_length.
      * apply Forall_app. split; [|by repeat constructor].
        by apply overlap_of_Forall.
      * rewrite length_app. lia.
      * intros l Hin Hb. apply elem_of_app in Hin as [Hin|Hin].
        -- destruct (Hfc l Hin Hb) as [?|Hnil]; [by left|by apply elem_of_nil in Hnil].
        -- right. apply elem_of_app. by right.
    + eexists. split; [reflexivity|].
      constructor; cbn [tchunks tcurrent tseed].
      * done.
      * rewrite drop_app_le by done. by rewrite app_assoc, Hl.
      * apply Forall_app. split; [done|by repeat constructor].
      * rewrite length_app. lia.
      * intros l Hin Hb. apply elem_of_app in Hin as [Hin|Hin].
        -- destruct (Hc l Hin Hb) as [?|?]; [by left|right; apply elem_of_app; by left].
        -- right. apply elem_of_app. by right.
Qed.

Lemma traced_loop_inv md lines : forall st consumed,
  0 < cs -> token_len encode "" <= budget ->
  Forall (fun l => has_nl l = false) lines ->
  chunker_inv encode self st consumed ->
  exists st', traced_loop encode self md st lines = Ok st'
              /\ chunker_inv encode self st' (consumed ++ lines).
Proof.
  induction lines as [|line rest IH]; intros st consumed Hcs Hempty Hlines Hinv.
  - exists st. rewrite app_nil_r. done.
  - inversion Hlines as [|? ? Hline Hrest]; subst.
    destruct (traced_step_inv md st consumed line Hcs Hempty Hline Hinv) as (st1 & Hstep & Hinv1).
    destruct (IH st1 (consumed ++ [line]) Hcs Hempty Hrest Hinv1) as (st2 & Hloop & Hinv2).
    exists st2. simpl. rewrite Hstep. simpl. split; [done|].
    by rewrite <- app_assoc in Hinv2.
Qed.

Lemma initial_inv : chunker_inv encode self traced_initial [].
Proof.
  constructor; simpl; try done.
  intros l Hin. by apply elem_of_nil in Hin.
Qed.



Lemma emit_slices_pieces md cks line indices :
  emit_slices encode self md cks line indices
  = fold_left (append_chunk encode md)
      (map (fun i => str_slice line (Some i) (Some (i + cs))) indices) cks.
Proof.
  revert cks. induction indices as [|i rest IH]; intros cks; simpl; [done|].
  apply IH.
Qed.

Lemma length_fold_append md pieces : forall cks,
  length (fold_left (append_chunk encode md) pieces cks)
  = (length cks + length pieces)%nat.
Proof.
  induction pieces as [|p rest IH]; intros cks; simpl; [lia|].
  rewrite IH. unfold append_chunk. rewrite length_app. simpl. lia.
Qed.

Lemma window_pieces line count :
  0 < cs ->
  map (fun i => str_slice line (Some i) (Some (i + cs)))
      (map (fun k => Z.of_nat k * cs) (seq 0 count))
  = map (fun k => str_take (Z.to_nat cs) (str_drop (0 + k * Z.to_nat cs) line))
      (seq 0 count).
Proof.
  intros Hcs. rewrite map_map. apply map_ext. intros k.
  rewrite str_slice_window by lia. do 2 f_equal. lia.
Qed.

(** Claim C6, as amended.  On a line over the budget, with a positive
    [chunk_size], one iteration flushes the buffer if it is not empty,
    appends the line cut into consecutive pieces, one chunk each, and
    leaves the buffer empty.  The pieces concatenate to the line; all
    have [chunk_size] characters but the last, which has at most as
    many; there are ceil(len(line) / chunk_size) of them, a number of
    characters that does not depend on the token count; a file made of
    that one line gives exactly these chunks.  No piece is tokenized
    before it is appended. *)
Theorem oversized_line_step md st line :
  budget < token_len encode line ->
  0 < cs ->
  (current_chunk st = [] -> current_tokens st = 0) ->
  exists pieces,
    chunk_step encode self md st line
    = Ok {| chunks :=
              fold_left (append_chunk encode md) pieces
                (flush encode md (chunks st) (current_chunk st));
            current_chunk := [];
            current_tokens := 0 |}
    /\ str_concat pieces = line
    /\ Z.of_nat (length pieces) = (Z.of_nat (String.length line) + cs - 1) / cs
    /\ (forall k p, pieces !! k = Some p ->
          (0 < String.length p <= Z.to_nat cs)%nat
          /\ (S k < length pieces -> String.length p = Z.to_nat cs)%nat)
    /\ (has_nl line = false -> strip line <> "" ->
        _chunk_content encode self line md
        = Ok (fold_left (append_chunk encode md) pieces [])
        /\ length <$> _chunk_content encode self line md
           = Ok (length pieces)).
Proof.
  intros Hover Hcs Hreset.
  set (len := Z.of_nat (String.length line)).
  destruct (ceil_div_bounds len cs Hcs ltac:(lia)) as (Hc0 & Hc1 & Hc2).
  set (q := (len + cs - 1) / cs) in *.
  set (count := Z.to_nat q).
  assert (Z.of_nat count = q) as Hq by lia.
  exists (map (fun k => str_take (Z.to_nat cs) (str_drop (0 + k * Z.to_nat cs) line))
            (seq 0 count)).
  assert (forall cks, emit_slices encode self md cks line
            (map (fun k => Z.of_nat k * cs) (seq 0 count))
          = fold_left (append_chunk encode md)
              (map (fun k => str_take (Z.to_nat cs) (str_drop (0 + k * Z.to_nat cs) line))
                 (seq 0 count)) cks) as Hemit.
  { intros cks. by rewrite emit_slices_pieces, window_pieces. }
  split; [|split; [|split; [|split]]].
  - unfold chunk_step. destruct (Z.ltb_spec budget (token_len encode line)); [|lia].
    rewrite range_windows by lia. fold len. fold q. fold count. simpl.
    rewrite Hemit. destruct st as [cks cur tok]. simpl in *.
    destruct cur; simpl; [by rewrite Hreset|done].
  - rewrite concat_windows; [done|]. nia.
  - rewrite length_map, length_seq. lia.
  - intros k p Hk. rewrite length_map, length_seq.
    apply list_lookup_fmap_Some in Hk as (k' & -> & Hk').
    apply lookup_seq in Hk' as [-> Hlt]. rewrite !Nat.add_0_l.
    rewrite str_take_length, str_drop_length.
    assert (Z.of_nat k * cs < len) as Hstart by nia.
    split; [split; [nia|lia]|].
    intros Hlast. assert ((Z.of_nat k + 1) * cs < len) by nia. nia.
  - intros Hnl Hblank.
    assert (_chunk_content encode self line md
            = Ok (fold_left (append_chunk encode md)
                    (map (fun k => str_take (Z.to_nat cs)
                                     (str_drop (0 + k * Z.to_nat cs) line))
                       (seq 0 count)) [])) as Hfile.
    { unfold _chunk_content.
      destruct (strip line) eqn:Hs; [done|]. simpl.
      rewrite split_nl_line by done. simpl.
      unfold chunk_step. simpl.
      destruct (Z.ltb_spec budget (token_len encode line)); [|lia].
      rewrite range_windows by lia. fold len. fold q. fold count. simpl.
      by rewrite Hemit. }
    split; [exact Hfile|]. rewrite Hfile. simpl. f_equal.
    by rewrite length_fold_append.
Qed.


Lemma positioned_append md cks txt :
  positioned md cks -> positioned md (append_chunk encode md cks txt).
Proof.
  intros H k c Hk. unfold append_chunk in Hk.
  apply lookup_app_Some in Hk as [Hk|[Hge Hk]]; [by apply H|].
  apply list_lookup_singleton_Some in Hk as [Hk <-].
  replace k with (length cks) by lia. simpl.
  split.
  - rewrite !lookup_insert_ne by discriminate. apply lookup_insert_eq.
  - by rewrite !lookup_insert_ne by discriminate.
Qed.

Lemma positioned_flush md cks cur :
  positioned md cks -> positioned md (flush encode md cks cur).
Proof. intros H. destruct cur; [done|]. by apply positioned_append. Qed.

Lemma positioned_fold md pieces : forall cks,
  positioned md cks ->
  positioned md (fold_left (append_chunk encode md) pieces cks).
Proof.
  induction pieces as [|p rest IH]; intros cks H; simpl; [done|].
  by apply IH, positioned_append.
Qed.

Lemma positioned_step md st line st' :
  positioned md (chunks st) ->
  chunk_step encode self md st line = Ok st' ->
  positioned md (chunks st').
Proof.
  intros H. unfold chunk_step.
  destruct (budget <? token_len encode line).
  - destruct (range 0 _ cs) as [indices|]; simpl; [|done].
    intros [= <-]. simpl. rewrite emit_slices_pieces. apply positioned_fold.
    destruct (current_chunk st); simpl; [done|]. by apply positioned_append.
  - destruct (budget <? current_tokens st + token_len encode line);
      intros [= <-]; simpl; [by apply positioned_flush|done].
Qed.

Lemma positioned_loop md lines : forall st st',
  positioned md (chunks st) ->
  chunk_loop encode self md st lines = Ok st' ->
  positioned md (chunks st').
Proof.
  induction lines as [|line rest IH]; intros st st' H; simpl.
  - by intros [= <-].
  - destruct (chunk_step encode self md st line) as [st1|] eqn:Hs; simpl; [|done].
    apply IH. by eapply positioned_step.
Qed.

Lemma chunk_content_positioned content md cks :
  _chunk_content encode self content md = Ok cks -> positioned md cks.
Proof.
  unfold _chunk_content. destruct (negb _).
  - intros [= <-] k c Hk. done.
  - destruct (chunk_loop _ _ _ _ _) as [st|] eqn:Hl; simpl; [|done].
    intros [= <-]. apply positioned_flush.
    eapply positioned_loop; [|exact Hl]. intros k c Hk. done.
Qed.

Lemma sum_snoc xs x : sum (xs ++ [x]) = sum xs + x.
Proof. unfold sum. by rewrite fold_left_app. Qed.

(** The flush that seeds the next buffer does not check the budget: a
    buffer no longer than the overlap is kept whole, and the new buffer
    is over the budget. *)
Lemma seeded_buffer_over_budget md st line :
  token_len encode line <= budget ->
  budget < current_tokens st + token_len encode line ->
  Z.of_nat (length (current_chunk st)) <= chunk_overlap self ->
  current_tokens st = sum (map (token_len encode) (current_chunk st)) ->
  exists st',
    chunk_step encode self md st line = Ok st'
    /\ current_chunk st' = current_chunk st ++ [line]
    /\ budget < current_tokens st'.
Proof.
  intros Hfit Hfull Hshort Htok. unfold chunk_step, overlap_of.
  destruct (Z.ltb_spec budget (token_len encode line)); [lia|].
  destruct (Z.ltb_spec budget (current_tokens st + token_len encode line)); [|lia].
  destruct (Z.ltb_spec (chunk_overlap self) (Z.of_nat (length (current_chunk st)))); [lia|].
  eexists. split; [reflexivity|]. cbn [current_chunk current_tokens].
  split; [done|]. rewrite map_app. cbn [map]. rewrite sum_snoc. lia.
Qed.


End ChunkerFacts.


(** ** Embeddings, batches and storage *)

Section PipelineFacts.

Context {E : externals}.


Lemma validated_embedding body e :
  _validar_respuesta_embedding body = Ok e ->
  e <> [] /\ forallb is_number e = true.
Proof.
  unfold _validar_respuesta_embedding.
  destruct body; try done.
  destruct (json_field d "embedding") as [[]|]; try done.
  destruct l as [|x l]; [done|].
  destruct (forallb is_number (x :: l)) eqn:Hn; [|done].
  intros [= <-]. done.
Qed.

Lemma embedding_answer_validated (w : world E) txt e :
  embedding_answer w txt = Some e -> e <> [] /\ forallb is_number e = true.
Proof.
  unfold embedding_answer. destruct txt; try done.
  destruct (str_truthy s); [|done].
  destruct (invoke_model E (provider w) (titan_request s)).1; [|done].
  destruct (json_loads E a); [|done].
  destruct (_validar_respuesta_embedding a0) eqn:Hv; [|done].
  intros [= <-]. by apply validated_embedding in Hv.
Qed.

Lemma get_embedding_total txt (w : world E) :
  exists w',
    _get_embedding txt w = (Ok (embedding_answer w txt), w')
    /\ sent w' = sent w ++ requests_for txt
    /\ chroma w' = chroma w.
Proof.
  unfold _get_embedding, try_except, embedding_answer, requests_for.
  destruct txt as [|b|n|s|t]; simpl;
    try (destruct b); try (destruct (n =? 0)); try (destruct t);
    try (unfold bind, logger, ret, raise; simpl; eexists; split; [reflexivity|];
         simpl; by rewrite ?app_nil_r).
  destruct (str_truthy s) eqn:Hs; simpl.
  2:{ unfold bind, logger, ret; simpl. eexists. split; [reflexivity|].
      simpl. by rewrite app_nil_r. }
  unfold bind, call_invoke_model, lift, logger, ret. fold (titan_request s).
  destruct (invoke_model E (provider w) (titan_request s)) as [[raw|e] p]; simpl.
  - destruct (json_loads E raw) as [body|e]; simpl.
    + destruct (_validar_respuesta_embedding body) as [emb|e]; simpl.
      * eexists. split; [reflexivity|]. done.
      * destruct (is_ValueError e), (is_JSONDecodeError e); simpl;
          eexists; (split; [reflexivity|done]).
    + destruct (is_ValueError e), (is_JSONDecodeError e); simpl;
        eexists; (split; [reflexivity|done]).
  - destruct (is_ValueError e), (is_JSONDecodeError e); simpl;
      eexists; (split; [reflexivity|done]).
Qed.

Lemma titan_request_bounded s :
  Z.of_nat (String.length (inputText (titan_request s))) <= 8192.
Proof.
  unfold titan_request, str_slice, slice_lo, slice_hi, slice_bound.
  cbn [inputText]. change (8192 <? 0) with false. cbv iota.
  rewrite str_take_length. lia.
Qed.


Lemma gather_app {A} (t1 t2 : list (M E A)) w :
  gather (t1 ++ t2) w
  = let '(r1, w1) := gather t1 w in
    let '(r2, w2) := gather t2 w1 in
    (r1 ++ r2, w2).
Proof.
  revert w. induction t1 as [|t ts IH]; intros w; simpl.
  - by destruct (gather t2 w).
  - destruct (t w) as [r w1]. rewrite IH.
    destruct (gather ts w1) as [rs w2]. by destruct (gather t2 w2).
Qed.

Lemma gather_tasks cks : forall w : world E,
  fst (gather (map embedding_task cks) w) = map Ok (answers w cks).
Proof.
  induction cks as [|c rest IH]; intros w; simpl; [done|].
  unfold embedding_task at 1.
  destruct (get_embedding_total (PStr (text c)) w) as (w' & Hg & _).
  unfold embedding_task at 2. rewrite Hg. simpl.
  specialize (IH w'). destruct (gather (map embedding_task rest) w') as [rs w2].
  simpl in *. by rewrite IH.
Qed.

Lemma answers_length cks : forall w : world E, length (answers w cks) = length cks.
Proof. induction cks as [|c rest IH]; intros w; simpl; [done|]. by rewrite IH. Qed.

Lemma answers_validated cks : forall w : world E,
  Forall (fun a => forall e, a = Some e -> e <> [] /\ forallb is_number e = true)
    (answers w cks).
Proof.
  induction cks as [|c rest IH]; intros w; simpl; constructor; [|apply IH].
  intros e He. exact (embedding_answer_validated w (PStr (text c)) e He).
Qed.

Lemma collect_answers cks ans :
  Forall (fun a => forall e, a = Some e -> e <> [] /\ forallb is_number e = true) ans ->
  forall (acc : list chunk) (w : world E),
    collect_processed (zip cks (map Ok ans)) acc w
    = (Ok (acc ++ omap with_embedding (zip cks ans)), w).
Proof.
  revert ans. induction cks as [|c rest IH]; intros ans Hv acc w.
  - simpl. by rewrite app_nil_r.
  - destruct ans as [|a ans]; simpl; [by rewrite app_nil_r|].
    inversion Hv as [|? ? Ha Hrest]; subst.
    destruct a as [e|]; simpl.
    + destruct e as [|x e]; [by destruct (Ha [] eq_refl)|]. simpl.
      rewrite IH by done. by rewrite <- app_assoc.
    + by rewrite IH.
Qed.

Lemma process_chunks_batch_eq cks (w : world E) :
  _process_chunks_batch cks w
  = (Ok (omap with_embedding (zip cks (answers w cks))),
     snd (gather (map embedding_task cks) w)).
Proof.
  unfold _process_chunks_batch. fold (@embedding_task E).
  pose proof (gather_tasks cks w) as Hg.
  destruct (gather (map embedding_task cks) w) as [rs w1]. simpl in *. subst rs.
  by rewrite collect_answers by apply answers_validated.
Qed.

Lemma answers_app l1 l2 (w : world E) :
  answers w (l1 ++ l2)
  = answers w l1 ++ answers (snd (gather (map embedding_task l1) w)) l2.
Proof.
  revert w. induction l1 as [|c rest IH]; intros w; simpl; [done|].
  rewrite IH. do 2 f_equal.
  destruct (embedding_task c w) as [r w1]. simpl.
  by destruct (gather (map embedding_task rest) w1).
Qed.


Lemma embedding_answer_failures (w : world E) txt :
  (truthy txt = false \/ is_str txt = false -> embedding_answer w txt = None)
  /\ (forall s, txt = PStr s ->
       (forall e, fst (invoke_model E (provider w) (titan_request s)) = Raise e ->
          embedding_answer w txt = None)
       /\ (forall raw e,
             fst (invoke_model E (provider w) (titan_request s)) = Ok raw ->
             json_loads E raw = Raise e -> embedding_answer w txt = None)
       /\ (forall raw body e,
             fst (invoke_model E (provider w) (titan_request s)) = Ok raw ->
             json_loads E raw = Ok body ->
             _validar_respuesta_embedding body = Raise e ->
             embedding_answer w txt = None)).
Proof.
  split.
  - intros [Ht|Hs]; destruct txt; try done. simpl in Ht. simpl. by rewrite Ht.
  - intros s ->. simpl. destruct (str_truthy s); [|done].
    split; [|split].
    + intros e ->. done.
    + intros raw e -> ->. done.
    + intros raw body e -> -> ->. done.
Qed.

(** Claim C10.  [_get_embedding] returns for every argument and every
    behaviour of the provider, and never raises: it returns the
    validated embedding (non-empty, numbers only) or [None]; an argument
    that is empty or not a string, a provider call that raises, a body
    that does not decode and a response that fails validation all give
    [None].  So every entry [asyncio.gather] hands to
    [_process_chunks_batch] is a returned value, none is an exception,
    and the loop over the results changes nothing (its only statement
    with an effect is the logging of the exception branch). *)
Theorem get_embedding_never_raises txt (w : world E) :
  (exists w', _get_embedding txt w = (Ok (embedding_answer w txt), w'))
  /\ (forall e, embedding_answer w txt = Some e ->
        e <> [] /\ forallb is_number e = true)
  /\ (truthy txt = false \/ is_str txt = false -> embedding_answer w txt = None)
  /\ (forall s, txt = PStr s ->
       (forall e, fst (invoke_model E (provider w) (titan_request s)) = Raise e ->
          embedding_answer w txt = None)
       /\ (forall raw e,
             fst (invoke_model E (provider w) (titan_request s)) = Ok raw ->
             json_loads E raw = Raise e -> embedding_answer w txt = None)
       /\ (forall raw body e,
             fst (invoke_model E (provider w) (titan_request s)) = Ok raw ->
             json_loads E raw = Ok body ->
             _validar_respuesta_embedding body = Raise e ->
             embedding_answer w txt = None))
  /\ forall cks,
       Forall (fun r => exists v, r = Ok v)
         (fst (gather (map (fun c => _get_embedding (PStr (text c))) cks) w))
       /\ snd (_process_chunks_batch cks w)
          = snd (gather (map (fun c => _get_embedding (PStr (text c))) cks) w).
Proof.
  split; [|split; [|split; [|split]]].
  - destruct (get_embedding_total txt w) as (w' & H & _). by exists w'.
  - apply embedding_answer_validated.
  - apply embedding_answer_failures.
  - apply embedding_answer_failures.
  - intros cks. fold (@embedding_task E). split.
    + rewrite gather_tasks. apply Forall_fmap, Forall_true. intros a. by eexists.
    + by rewrite process_chunks_batch_eq.
Qed.


Lemma store_rows_rows cks : forall rows,
  store_rows (E:=E) cks = Ok rows -> Forall2 (row_of E) cks rows.
Proof.
  induction cks as [|c rest IH]; intros rows; simpl.
  - intros [= <-]. constructor.
  - unfold dict_get.
    destruct (metadata c !! "file_path") as [fp|] eqn:Hfp; simpl; [|done].
    destruct (metadata c !! "chunk_index") as [idx|] eqn:Hidx; simpl; [|done].
    destruct (embedding c) as [e|] eqn:He; simpl; [|done].
    destruct (store_rows rest) as [rows'|] eqn:Hr; simpl; [|done].
    intros [= <-]. constructor; [|by apply IH].
    exists fp, idx. done.
Qed.

Lemma same_position_ids cks : forall cks' rows rows',
  Forall2 same_position cks cks' ->
  Forall2 (row_of E) cks rows -> Forall2 (row_of E) cks' rows' ->
  map entry_id rows = map entry_id rows'.
Proof.
  induction cks as [|c rest IH]; intros cks' rows rows' Hs Hr Hr'.
  - inversion Hs; subst. inversion Hr; subst. inversion Hr'; subst. done.
  - inversion Hs as [|? c' ? rest' [Hfp Hidx] Hs']; subst.
    inversion Hr as [|? r ? rs (fp & idx & H1 & H2 & H3 & _) Hrs]; subst.
    inversion Hr' as [|? r' ? rs' (fp' & idx' & H1' & H2' & H3' & _) Hrs']; subst.
    simpl. f_equal; [|by eapply IH].
    rewrite H3, H3'. congruence.
Qed.

(** Claim C3.  The rows [_store_in_chromadb] builds are one per chunk,
    in order; the id of a row is the SHA-256 hex digest of the chunk's
    [file_path], an underscore and its [chunk_index]; the row carries the
    chunk's embedding, metadata and text.  Chunks that agree on file path
    and chunk index get the same ids, whatever their text and embedding.
    These rows are what the collection is given. *)
Theorem store_ids_positional handle cks rows :
  store_rows (E:=E) cks = Ok rows ->
  Forall2 (row_of E) cks rows
  /\ (forall cks' rows',
        Forall2 same_position cks cks' -> store_rows (E:=E) cks' = Ok rows' ->
        map entry_id rows' = map entry_id rows)
  /\ (forall (w : world E) c c',
        cks <> [] -> chroma w !! handle = Some c ->
        collection_add E c rows = Ok c' ->
        chroma (snd (_store_in_chromadb handle cks w)) = <[handle := c']> (chroma w)).
Proof.
  intros Hrows. split; [by apply store_rows_rows|]. split.
  - intros cks' rows' Hs Hrows'. symmetry.
    eapply same_position_ids; eauto using store_rows_rows.
  - intros w c c' Hne Hc Hadd. unfold _store_in_chromadb.
    destruct cks as [|c0 rest]; [done|].
    unfold bind, lift, try_except, call_collection_add, logger. rewrite Hrows.
    simpl. rewrite Hc, Hadd. done.
Qed.


(** The id stored for the [k]-th chunk of a file depends on the file's
    path and on [k] only. *)
Lemma chunk_content_ids encode self content md cks k c e file_path :
  md !! "file_path" = Some file_path ->
  _chunk_content encode self content md = Ok cks ->
  cks !! k = Some c ->
  store_rows (E:=E) [{| text := text c; metadata := metadata c; embedding := Some e |}]
  = Ok [{| entry_id := chunk_id E file_path (MInt (Z.of_nat k));
           entry_embedding := e;
           entry_metadata := metadata c;
           entry_document := text c |}].
Proof.
  intros Hfp Hc Hk.
  destruct (chunk_content_positioned encode self content md cks Hc k c Hk) as [Hidx Hpath].
  simpl. unfold dict_get. rewrite Hpath, Hfp, Hidx. done.
Qed.

Lemma gather_keeps_chroma cks : forall w : world E,
  chroma (snd (gather (map embedding_task cks) w)) = chroma w.
Proof.
  induction cks as [|c rest IH]; intros w; simpl; [done|].
  destruct (get_embedding_total (PStr (text c)) w) as (w' & Hg & _ & Hc).
  unfold embedding_task at 1. rewrite Hg.
  specialize (IH w'). destruct (gather (map embedding_task rest) w') as [rs w2].
  simpl in *. by rewrite IH.
Qed.

Lemma process_keeps_chroma cks (w : world E) :
  chroma (snd (_process_chunks_batch cks w)) = chroma w.
Proof. rewrite process_chunks_batch_eq. apply gather_keeps_chroma. Qed.

Lemma store_keeps_names handle cks (w : world E) :
  dom (chroma (snd (_store_in_chromadb handle cks w))) = dom (chroma w).
Proof.
  unfold _store_in_chromadb. destruct cks as [|c rest]; [done|].
  unfold bind, lift, try_except, call_collection_add, logger.
  destruct (store_rows (c :: rest)) as [rows|e]; simpl; [|done].
  destruct (chroma w !! handle) as [col|] eqn:Hc; simpl; [|done].
  destruct (collection_add E col rows) as [col'|e]; simpl; [|done].
  apply dom_insert_lookup_L. by eexists.
Qed.

Lemma generar_embedding_keeps_chroma texto (w : world E) :
  chroma (snd (busqueda.generar_embedding texto w)) = chroma w.
Proof.
  unfold busqueda.generar_embedding, try_except, bind, call_invoke_model, lift,
    logger, ret, raise.
  destruct (negb (truthy texto) || negb (is_str texto)); simpl; [done|].
  destruct texto; simpl; try done.
  destruct (invoke_model E (provider w) _) as [[raw|e] p]; simpl.
  - destruct (json_loads E raw) as [body|e]; simpl.
    + destruct (busqueda._validar_respuesta_bedrock body) as [emb|e]; simpl; [done|].
      by destruct (is_ValueError e), (is_JSONDecodeError e).
    + by destruct (is_ValueError e), (is_JSONDecodeError e).
  - by destruct (is_ValueError e), (is_JSONDecodeError e).
Qed.

Lemma buscar_keeps_chroma handle query n (w : world E) :
  chroma (snd (busqueda.buscar handle query n w)) = chroma w.
Proof.
  pose proof (generar_embedding_keeps_chroma query w) as Hg.
  unfold busqueda.buscar, try_except, bind, call_collection_query, lift, raise.
  destruct (busqueda.generar_embedding query w) as [[e|ex] w1]; simpl in *; [|done].
  destruct (chroma w1 !! handle); simpl; [|done].
  destruct (collection_query E _ _ _) as [res|ex]; simpl; [|done].
  destruct (list_index (ids res) 0); simpl; [|done].
  by destruct (busqueda.format_results _ _ _).
Qed.

Lemma init_keeps_store region (w : world E) :
  chroma (snd (busqueda.__init__ region w)) = chroma w.
Proof.
  unfold busqueda.__init__, bind, lift, try_except, get_collection, raise.
  destruct (boto3_client E _); simpl; [|done].
  destruct (PersistentClient E _); simpl; [|done].
  by destruct (chroma w !! busqueda.COLLECTION_NAME).
Qed.

Lemma init_missing_collection region (w : world E) :
  chroma w !! busqueda.COLLECTION_NAME = None ->
  exists e, busqueda.__init__ region w = (Raise e, w)
    /\ (boto3_client E (default "us-east-1" region) = Ok tt ->
        PersistentClient E busqueda.CHROMA_PERSIST_DIR = Ok tt ->
        e = ValueError
              ("No se pudo encontrar la colección en ChromaDB: "
               +:+ "Collection " +:+ busqueda.COLLECTION_NAME +:+ " does not exist.")).
Proof.
  intros Hnone.
  unfold busqueda.__init__, bind, lift, try_except, get_collection, raise.
  destruct (boto3_client E _) as [[]|e1]; simpl; [|eexists; split; [done|done]].
  destruct (PersistentClient E _) as [[]|e2]; simpl; [|eexists; split; [done|done]].
  rewrite Hnone. simpl. eexists. split; [done|]. done.
Qed.

Lemma setup_clients_store args (w : world E) :
  let name := arg_collection_name args in
  let w' := snd (_setup_clients args w) in
  (is_Some (chroma w !! name) -> chroma w' = chroma w)
  /\ (chroma w !! name = None ->
      (fst (_setup_clients args w) = Ok name ->
       chroma w' = <[name := new_collection E
                     {[ "description" := MStr "React/TypeScript repository vectorization" ]}]>
                     (chroma w))
      /\ (forall e, fst (_setup_clients args w) = Raise e -> chroma w' = chroma w)
      /\ (boto3_client E (aws_region args) = Ok tt ->
          PersistentClient E (chroma_dir args) = Ok tt ->
          fst (_setup_clients args w) = Ok name)).
Proof.
  intros name w'. subst w'.
  unfold _setup_clients, bind, lift, try_except, get_collection, create_collection,
    logger, ret, raise. fold name.
  destruct (boto3_client E _) as [[]|e1]; simpl.
  2:{ split; [done|]. intros _. repeat split; done. }
  destruct (PersistentClient E _) as [[]|e2]; simpl.
  2:{ split; [done|]. intros _. repeat split; done. }
  split.
  - intros [c Hc]. rewrite Hc. done.
  - intros Hnone. rewrite Hnone. simpl. rewrite Hnone. simpl. repeat split; done.
Qed.

(** Claim C8.  [BuscadorSemantico.__init__] leaves the collections of
    the client as they are in every case; when the collection is
    missing it raises, and with both clients built the exception is the
    [ValueError] that says the collection could not be found.
    [_setup_clients] leaves the collections as they are when the
    collection exists; when it is missing, a call that returns has
    added exactly that collection, a call that raises has added
    nothing, and with both clients built the call returns.  The other
    steps add no collection: embedding a batch and searching leave the
    collections as they are, and storing keeps their names. *)
Theorem collection_created_only_by_setup :
  (forall region (w : world E),
      chroma (snd (busqueda.__init__ region w)) = chroma w
      /\ (chroma w !! busqueda.COLLECTION_NAME = None ->
          exists e, busqueda.__init__ region w = (Raise e, w)
            /\ (boto3_client E (default "us-east-1" region) = Ok tt ->
                PersistentClient E busqueda.CHROMA_PERSIST_DIR = Ok tt ->
                e = ValueError
                      ("No se pudo encontrar la colección en ChromaDB: "
                       +:+ "Collection " +:+ busqueda.COLLECTION_NAME
                       +:+ " does not exist."))))
  /\ (forall args (w : world E),
        let name := arg_collection_name args in
        let w' := snd (_setup_clients args w) in
        (is_Some (chroma w !! name) -> chroma w' = chroma w)
        /\ (chroma w !! name = None ->
            (fst (_setup_clients args w) = Ok name ->
             chroma w' = <[name := new_collection E
                           {[ "description" := MStr "React/TypeScript repository vectorization" ]}]>
                           (chroma w))
            /\ (forall e, fst (_setup_clients args w) = Raise e -> chroma w' = chroma w)
            /\ (boto3_client E (aws_region args) = Ok tt ->
                PersistentClient E (chroma_dir args) = Ok tt ->
                fst (_setup_clients args w) = Ok name)))
  /\ (forall handle cks query n (w : world E),
        chroma (snd (_process_chunks_batch cks w)) = chroma w
        /\ dom (chroma (snd (_store_in_chromadb handle cks w))) = dom (chroma w)
        /\ chroma (snd (busqueda.buscar handle query n w)) = chroma w).
Proof.
  split; [|split].
  - intros region w. split; [apply init_keeps_store|apply init_missing_collection].
  - apply setup_clients_store.
  - intros handle cks query n w. split; [apply process_keeps_chroma|].
    split; [apply store_keeps_names|apply buscar_keeps_chroma].
Qed.

(** Claim C9, as amended.  When the repository path does not exist,
    [main] logs one record of level ERROR that names the path and
    returns; nothing else changes (no client is built, no request is
    sent), and the process exits with status 0. *)
Theorem main_missing_path args (w : world E) :
  path_exists E (repo_path args) = false ->
  main args w
  = (Ok tt,
     {| provider := provider w; sent := sent w; chroma := chroma w;
        log := log w ++ [{| levelname := ERROR;
                            message := "El directorio " +:+ repo_path args
                                       +:+ " no existe" |}] |})
  /\ exit_status (fst (main args w)) = 0.
Proof.
  intros H. unfold main. rewrite H. simpl. done.
Qed.

Lemma generar_embedding_request s (w : world E) :
  str_truthy s = true ->
  sent (snd (busqueda.generar_embedding (PStr s) w))
  = sent w ++ [{| modelId := busqueda.BEDROCK_MODEL_ID; contentType := None;
                  accept := None; inputText := s |}].
Proof.
  intros Hs.
  unfold busqueda.generar_embedding, try_except, bind, call_invoke_model, lift,
    logger, ret, raise. simpl. rewrite Hs. simpl.
  destruct (invoke_model E (provider w) _) as [[raw|e] p]; simpl.
  - destruct (json_loads E raw) as [body|e]; simpl.
    + destruct (busqueda._validar_respuesta_bedrock body) as [emb|e]; simpl; [done|].
      by destruct (is_ValueError e), (is_JSONDecodeError e).
    + by destruct (is_ValueError e), (is_JSONDecodeError e).
  - by destruct (is_ValueError e), (is_JSONDecodeError e).
Qed.

(** Claim C7, on the query service: for a query of 8193 characters
    [generar_embedding] sends a request whose [inputText] is the whole
    query. *)
Theorem generar_embedding_sends_untruncated (w : world E) :
  Z.of_nat (String.length Demo.long_query) = 8193
  /\ sent (snd (busqueda.generar_embedding (PStr Demo.long_query) w))
     = sent w ++ [{| modelId := busqueda.BEDROCK_MODEL_ID; contentType := None;
                     accept := None; inputText := Demo.long_query |}].
Proof.
  split; [by vm_compute|].
  apply generar_embedding_request. by vm_compute.
Qed.

(** The indexing pipeline does truncate: every request [_get_embedding]
    sends carries at most 8192 characters. *)
Lemma get_embedding_requests_bounded txt (w : world E) :
  exists reqs,
    sent (snd (_get_embedding txt w)) = sent w ++ reqs
    /\ Forall (fun r => Z.of_nat (String.length (inputText r)) <= 8192) reqs.
Proof.
  destruct (get_embedding_total txt w) as (w' & Hg & Hsent & _).
  exists (requests_for txt). rewrite Hg. split; [done|].
  unfold requests_for. destruct txt; try constructor.
  destruct (str_truthy s); repeat constructor. apply titan_request_bounded.
Qed.

Lemma format_results_hits hits : forall todo seen acc,
  hits = seen ++ todo ->
  busqueda.format_results (busqueda.query_result_of hits)
    (seq (length seen) (length todo)) acc
  = Ok (acc ++ map busqueda.result_of todo).
Proof.
  induction todo as [|h rest IH]; intros seen acc Hh.
  - simpl. by rewrite app_nil_r.
  - cbn [length seq busqueda.format_results].
    unfold list_index. cbn [busqueda.query_result_of documents metadatas distances lookup list_lookup].
    simpl.
    rewrite !list_lookup_fmap, Hh, !lookup_app_r by lia.
    rewrite Nat.sub_diag. simpl.
    rewrite <- Hh.
    replace (S (length seen)) with (length (seen ++ [h])) by (rewrite length_app; simpl; lia).
    rewrite (IH (seen ++ [h])) by (by rewrite <- app_assoc).
    by rewrite <- app_assoc.
Qed.



End PipelineFacts.


(** ** Examples *)

(** Claim C1, on the default settings and a file of three lines of 1000
    tokens each: no line is over the budget of 2000, and the two chunks
    record 2001 and 3002 tokens. *)
Theorem chunk_over_budget :
  forallb (fun l => token_len char_encode l <=? 2000) (split_nl Demo.three_lines) = true
  /\ map token_count <$> _chunk_content char_encode default_config Demo.three_lines ∅
     = Ok [Some (MInt 2001); Some (MInt 3002)].
Proof. split; vm_compute; reflexivity. Qed.


(** Claim C6 fails on its scenario: a line of 10000 tokens with budget
    2000 is cut into 20 slices of 500 characters. *)
Lemma ten_thousand_tokens_twenty_slices :
  token_len char_encode Demo.line_10000 = 10000
  /\ max_tokens_per_chunk default_config = 2000
  /\ length <$> _chunk_content char_encode default_config Demo.line_10000 ∅
     = Ok 20%nat.
Proof. repeat split; vm_compute; reflexivity. Qed.

(** Claim C9 fails: with a missing path the exit status is 0. *)
Lemma missing_path_exits_zero :
  path_exists Demo.pipeline (repo_path default_args) = false
  /\ exit_status (fst (main (E:=Demo.pipeline) default_args Demo.empty_world)) = 0.
Proof. split; reflexivity. Qed.



Lemma oversized_line_step_witness :
  exists pieces,
    chunk_step char_encode Demo.small_config ∅
      {| chunks := []; current_chunk := ["ab"]; current_tokens := 2 |} "abcde"
    = Ok {| chunks :=
              fold_left (append_chunk char_encode ∅) pieces
                (flush char_encode ∅ [] ["ab"]);
            current_chunk := [];
            current_tokens := 0 |}
    /\ str_concat pieces = "abcde"
    /\ Z.of_nat (length pieces) = (Z.of_nat (String.length "abcde") + 2 - 1) / 2
    /\ (forall k p, pieces !! k = Some p ->
          (0 < String.length p <= Z.to_nat 2)%nat
          /\ (S k < length pieces -> String.length p = Z.to_nat 2)%nat)
    /\ (has_nl "abcde" = false -> strip "abcde" <> "" ->
        _chunk_content char_encode Demo.small_config "abcde" ∅
        = Ok (fold_left (append_chunk char_encode ∅) pieces [])
        /\ length <$> _chunk_content char_encode Demo.small_config "abcde" ∅
           = Ok (length pieces)).
Proof.
  apply (oversized_line_step char_encode Demo.small_config ∅
           {| chunks := []; current_chunk := ["ab"]; current_tokens := 2 |} "abcde").
  - reflexivity.
  - reflexivity.
  - discriminate.
Defined.

Lemma store_ids_positional_witness :
  Forall2 (row_of Demo.pipeline)
    [Demo.stored_chunk 0 "import React"; Demo.stored_chunk 1 "export default App"]
    [ {| entry_id := "sha256:src/App.tsx_0"; entry_embedding := [JFloat 0.5];
         entry_metadata := metadata (Demo.stored_chunk 0 "");
         entry_document := "import React" |};
      {| entry_id := "sha256:src/App.tsx_1"; entry_embedding := [JFloat 0.5];
         entry_metadata := metadata (Demo.stored_chunk 1 "");
         entry_document := "export default App" |} ]
  /\ (forall cks' rows',
        Forall2 same_position
          [Demo.stored_chunk 0 "import React"; Demo.stored_chunk 1 "export default App"]
          cks' ->
        store_rows (E:=Demo.pipeline) cks' = Ok rows' ->
        map entry_id rows' = ["sha256:src/App.tsx_0"; "sha256:src/App.tsx_1"])
  /\ (forall (w : world Demo.pipeline) c c',
        [Demo.stored_chunk 0 "import React"; Demo.stored_chunk 1 "export default App"]
          <> [] ->
        chroma w !! "react_typescript_code" = Some c ->
        collection_add Demo.pipeline c
          [ {| entry_id := "sha256:src/App.tsx_0"; entry_embedding := [JFloat 0.5];
               entry_metadata := metadata (Demo.stored_chunk 0 "");
               entry_document := "import React" |};
            {| entry_id := "sha256:src/App.tsx_1"; entry_embedding := [JFloat 0.5];
               entry_metadata := metadata (Demo.stored_chunk 1 "");
               entry_document := "export default App" |} ] = Ok c' ->
        chroma (snd (_store_in_chromadb "react_typescript_code"
                       [Demo.stored_chunk 0 "import React";
                        Demo.stored_chunk 1 "export default App"] w))
        = <["react_typescript_code" := c']> (chroma w)).
Proof.
  apply (store_ids_positional (E:=Demo.pipeline) "react_typescript_code"
           [Demo.stored_chunk 0 "import React";
            Demo.stored_chunk 1 "export default App"]).
  vm_compute. reflexivity.
Defined.

Lemma main_missing_path_witness :
  main (E:=Demo.pipeline) default_args Demo.empty_world
  = (Ok tt,
     @World Demo.pipeline 0%nat [] ∅
       [{| levelname := ERROR;
           message := "El directorio ./repository/sas-fa-web-frontend/src no existe" |}])
  /\ exit_status (fst (main (E:=Demo.pipeline) default_args Demo.empty_world)) = 0.
Proof.
  apply (main_missing_path (E:=Demo.pipeline) default_args Demo.empty_world).
  reflexivity.
Defined.


Lemma collection_created_only_by_setup_witness :
  chroma (snd (busqueda.__init__ (E:=Demo.pipeline) None Demo.empty_world)) = ∅
  /\ (exists e, busqueda.__init__ (E:=Demo.pipeline) None Demo.empty_world
                = (Raise e, Demo.empty_world))
  /\ chroma (snd (_setup_clients (E:=Demo.pipeline) default_args Demo.indexed_world))
     = chroma Demo.indexed_world
  /\ fst (_setup_clients (E:=Demo.pipeline) default_args Demo.empty_world)
     = Ok "react_typescript_code".
Proof.
  destruct (collection_created_only_by_setup (E:=Demo.pipeline))
    as (Hinit & Hsetup & _).
  destruct (Hinit None Demo.empty_world) as [Hkeep Hraise].
  destruct (Hsetup default_args Demo.indexed_world) as [Hpresent _].
  destruct (Hsetup default_args Demo.empty_world) as [_ Habsent].
  split; [exact Hkeep|]. split.
  - destruct (Hraise eq_refl) as (e & He & _). by exists e.
  - split.
    + apply Hpresent. by eexists.
    + destruct (Habsent eq_refl) as (_ & _ & Hok). by apply Hok.
Defined.

(** * Further properties *)

(** ** Binary64: subtraction from one reverses the order

    [SpecFloat]'s rounding of an exact integer mantissa is written with
    integer arithmetic ([Binary64.round_signed]); it is monotone, and
    [1 - a] is the rounding of the exact difference. *)

Section Binary64Facts.

Import Binary64.

Lemma iter_pos_iter {A} (f : A -> A) p : forall x, SpecFloat.iter_pos f p x = Pos.iter f x p.
Proof.
  induction p as [p IH|p IH|]; intros x; simpl.
  - rewrite !IH. by rewrite <- !Pos.iter_swap.
  - by rewrite !IH.
  - done.
Qed.

Lemma shr_1_nonneg m r s :
  0 <= m ->
  shr_1 {| shr_m := m; shr_r := r; shr_s := s |}
  = {| shr_m := m / 2; shr_r := Z.odd m; shr_s := r || s |}.
Proof.
  intros Hm. rewrite <- Z.div2_div.
  destruct m as [|[p|p|]|]; done.
Qed.

Lemma mod_pow2_succ V j :
  0 <= j ->
  V mod 2 ^ (j + 1) = V mod 2 ^ j + 2 ^ j * (if Z.odd (V / 2 ^ j) then 1 else 0).
Proof.
  intros Hj. rewrite Z.pow_add_r, Z.pow_1_r by lia.
  rewrite Z.rem_mul_r by lia. by rewrite Zmod_odd.
Qed.

Lemma shr_iter V p :
  0 <= V ->
  SpecFloat.iter_pos shr_1 p {| shr_m := V; shr_r := false; shr_s := false |}
  = {| shr_m := V / 2 ^ Z.pos p;
       shr_r := Z.odd (V / 2 ^ (Z.pos p - 1));
       shr_s := negb (V mod 2 ^ (Z.pos p - 1) =? 0) |}.
Proof.
  intros HV. rewrite iter_pos_iter.
  apply (Pos.iter_ind _ shr_1 _
           (fun p rec => rec = {| shr_m := V / 2 ^ Z.pos p;
                                  shr_r := Z.odd (V / 2 ^ (Z.pos p - 1));
                                  shr_s := negb (V mod 2 ^ (Z.pos p - 1) =? 0) |})).
  - rewrite shr_1_nonneg by done. simpl. rewrite Z.div_1_r, Z.mod_1_r. done.
  - intros q rec ->. rewrite shr_1_nonneg by (apply Z.div_pos; lia).
    rewrite Pos2Z.inj_succ. f_equal.
    + rewrite Z.pow_succ_r, (Z.mul_comm 2) by lia. by rewrite Z.div_div by lia.
    + f_equal. f_equal. f_equal. lia.
    + replace (Z.succ (Z.pos q) - 1) with ((Z.pos q - 1) + 1) by lia.
      rewrite mod_pow2_succ by lia.
      replace (V / 2 ^ (Z.pos q - 1) ) with (V / 2 ^ (Z.pos q - 1)) by done.
      assert (0 <= V mod 2 ^ (Z.pos q - 1)) by (apply Z.mod_pos_bound; lia).
      assert (0 < 2 ^ (Z.pos q - 1)) by lia.
      destruct (Z.odd (V / 2 ^ (Z.pos q - 1))); simpl.
      * symmetry. apply negb_true_iff, Z.eqb_neq. lia.
      * rewrite Z.mul_0_r, Z.add_0_r. done.
Qed.

Lemma digits2_size p : digits2_pos p = Pos.size p.
Proof. induction p; simpl; congruence. Qed.

Lemma digits2_bounds p :
  2 ^ (Z.pos (digits2_pos p) - 1) <= Z.pos p < 2 ^ Z.pos (digits2_pos p).
Proof.
  rewrite digits2_size. split.
  - pose proof (Pos.size_le p) as H.
    assert (Z.pos (2 ^ Pos.size p) <= Z.pos p~0) as H' by lia.
    rewrite Pos2Z.inj_pow in H'.
    replace (Z.pos (Pos.size p)) with ((Z.pos (Pos.size p) - 1) + 1) in H' by lia.
    rewrite Z.pow_add_r in H' by lia. lia.
  - pose proof (Pos.size_gt p) as H.
    assert (Z.pos p < Z.pos (2 ^ Pos.size p)) as H' by lia.
    by rewrite Pos2Z.inj_pow in H'.
Qed.

Lemma pos_iter_xO m d : Z.pos (Pos.iter xO m d) = Z.pos m * 2 ^ Z.pos d.
Proof.
  apply (Pos.iter_ind _ xO m (fun d r => Z.pos r = Z.pos m * 2 ^ Z.pos d)).
  - lia.
  - intros p r Hr. rewrite Pos2Z.inj_succ, Z.pow_succ_r by lia. lia.
Qed.

Lemma fexp64 e : fexp prec emax e = Z.max (e - 53) (-1074).
Proof. reflexivity. Qed.

Lemma Zdigits2_bounds V :
  0 < V -> 0 < Zdigits2 V /\ 2 ^ (Zdigits2 V - 1) <= V < 2 ^ Zdigits2 V.
Proof.
  destruct V as [|p|p]; try lia. intros _. simpl. split; [lia|].
  apply digits2_bounds.
Qed.

Lemma Zdigits2_unique V d :
  0 < d -> 2 ^ (d - 1) <= V < 2 ^ d -> Zdigits2 V = d.
Proof.
  intros Hd [Hlo Hhi].
  assert (0 < V) as HV by (pose proof (Z.pow_pos_nonneg 2 (d - 1)); lia).
  destruct (Zdigits2_bounds V HV) as (Hd' & Hlo' & Hhi').
  destruct (Z.lt_trichotomy (Zdigits2 V) d) as [Hlt|[Heq|Hgt]]; [|done|].
  - assert (2 ^ Zdigits2 V <= 2 ^ (d - 1)) by (apply Z.pow_le_mono_r; lia). lia.
  - assert (2 ^ d <= 2 ^ (Zdigits2 V - 1)) by (apply Z.pow_le_mono_r; lia). lia.
Qed.

Lemma Zdigits2_shift V j :
  0 < V -> 0 <= j -> Zdigits2 (V * 2 ^ j) = Zdigits2 V + j.
Proof.
  intros HV Hj. destruct (Zdigits2_bounds V HV) as (Hd & Hlo & Hhi).
  apply Zdigits2_unique; [lia|].
  replace (Zdigits2 V + j - 1) with ((Zdigits2 V - 1) + j) by lia.
  rewrite !Z.pow_add_r by lia.
  assert (0 < 2 ^ j) by lia. nia.
Qed.

(** [rne] of an exact multiple. *)
Lemma rne_exact q n : 1 <= n -> rne (q * 2 ^ n) n = q.
Proof.
  intros Hn. unfold rne.
  rewrite Z.div_mul by lia.
  replace (q * 2 ^ n) with ((q * 2) * 2 ^ (n - 1)).
  2:{ replace n with ((n - 1) + 1) at 2 by lia. rewrite Z.pow_add_r by lia. lia. }
  rewrite Z.div_mul, Z.mod_mul by lia.
  rewrite Z.mul_comm, Z.odd_mul. simpl. done.
Qed.

(** [rne] does not see a common shift. *)
Lemma rne_shift V k j :
  1 <= k -> 0 <= j -> rne (V * 2 ^ j) (k + j) = rne V k.
Proof.
  intros Hk Hj. unfold rne.
  assert (forall i, 0 <= i -> (V * 2 ^ j) / 2 ^ (i + j) = V / 2 ^ i) as Hdiv.
  { intros i Hi. rewrite Z.pow_add_r by lia. apply Z.div_mul_cancel_r; lia. }
  assert (forall i, 0 <= i -> (V * 2 ^ j) mod 2 ^ (i + j) = (V mod 2 ^ i) * 2 ^ j) as Hmod.
  { intros i Hi. rewrite Z.pow_add_r by lia. apply Z.mul_mod_distr_r; lia. }
  rewrite Hdiv by lia.
  replace (k + j - 1) with ((k - 1) + j) by lia.
  rewrite Hdiv, Hmod by lia.
  replace (V mod 2 ^ (k - 1) * 2 ^ j =? 0) with (V mod 2 ^ (k - 1) =? 0); [done|].
  assert (0 < 2 ^ j) by lia.
  destruct (Z.eqb_spec (V mod 2 ^ (k - 1)) 0) as [->|Hne]; [done|].
  symmetry. apply Z.eqb_neq. nia.
Qed.

Lemma rne_cases V n : rne V n = V / 2 ^ n \/ rne V n = V / 2 ^ n + 1.
Proof.
  unfold rne. destruct (Z.odd _), (negb _); simpl; try (by left); try (by right).
  destruct (Z.even _); [by left|by right].
Qed.

(** The first shift of [binary_round_aux]. *)
Lemma shr_fexp_exact m e :
  0 < m ->
  shr_fexp prec emax m e loc_Exact
  = let k := fexp prec emax (Zdigits2 m + e) - e in
    if k <=? 0 then ({| shr_m := m; shr_r := false; shr_s := false |}, e)
    else ({| shr_m := m / 2 ^ k;
             shr_r := Z.odd (m / 2 ^ (k - 1));
             shr_s := negb (m mod 2 ^ (k - 1) =? 0) |}, e + k).
Proof.
  intros Hm. unfold shr_fexp, shr. simpl shr_record_of_loc.
  destruct (fexp prec emax (Zdigits2 m + e) - e) as [|p|p] eqn:Hk; simpl; try done.
  rewrite shr_iter by lia. done.
Qed.

Lemma pow2_53 : 2 ^ 53 = 9007199254740992.
Proof. reflexivity. Qed.
Lemma pow2_52 : 2 ^ 52 = 4503599627370496.
Proof. reflexivity. Qed.


Lemma binary_round_aux_exact sx m e :
  0 < m -> -1074 <= e ->
  binary_round_aux prec emax sx m e loc_Exact
  = let k := fexp prec emax (Zdigits2 m + e) - e in
    if k <=? 0 then finish sx m e
    else
      let q := rne m k in
      if q =? 2 ^ 53 then finish sx (2 ^ 52) (e + k + 1)
      else finish sx q (e + k).
Proof.
  intros Hm He. unfold binary_round_aux.
  rewrite shr_fexp_exact by done.
  destruct (Zdigits2_bounds m Hm) as (Hd & Hlo & Hhi).
  cbv zeta. rewrite fexp64.
  destruct (Z.leb_spec (Z.max (Zdigits2 m + e - 53) (-1074) - e) 0) as [Hk|Hk].
  - (* no shift *)
    simpl shr_m. simpl loc_of_shr_record. simpl round_nearest_even.
    rewrite shr_fexp_exact by done. cbv zeta. rewrite fexp64.
    destruct (Z.leb_spec (Z.max (Zdigits2 m + e - 53) (-1074) - e) 0); [|lia].
    simpl shr_m. unfold finish. destruct m; try lia. simpl.
    by rewrite Pos2Z.id || done.
  - (* shift by k *)
    set (k := Z.max (Zdigits2 m + e - 53) (-1074) - e) in *.
    assert (Zdigits2 m = 53 + k) as Hdm by lia.
    fold (rne m k). cbn [shr_m].
    change (round_nearest_even (m / 2 ^ k)
              (loc_of_shr_record
                 {| shr_m := m / 2 ^ k; shr_r := Z.odd (m / 2 ^ (k - 1));
                    shr_s := negb (m mod 2 ^ (k - 1) =? 0) |}))
      with (rne m k).
    assert (2 ^ 52 <= m / 2 ^ k < 2 ^ 53) as Hq.
    { rewrite Hdm in Hlo, Hhi.
      replace (53 + k - 1) with (52 + k) in Hlo by lia.
      rewrite Z.pow_add_r in Hlo, Hhi by lia.
      split.
      - apply Z.div_le_lower_bound; lia.
      - apply Z.div_lt_upper_bound; lia. }
    assert (2 ^ 52 <= rne m k <= 2 ^ 53) as Hr by (destruct (rne_cases m k); lia).
    rewrite shr_fexp_exact by lia. cbv zeta. rewrite fexp64.
    destruct (Z.eqb_spec (rne m k) (2 ^ 53)) as [Heq|Hne].
    + rewrite Heq.
      assert (Zdigits2 (2 ^ 53) = 54) as -> by reflexivity.
      destruct (Z.leb_spec (Z.max (54 + (e + k) - 53) (-1074) - (e + k)) 0); [lia|].
      replace (Z.max (54 + (e + k) - 53) (-1074) - (e + k)) with 1 by lia.
      cbn [shr_m]. change (2 ^ 53 / 2 ^ 1) with (2 ^ 52).
      unfold finish. replace (e + k + 1) with (e + k + 1) by done.
      change (2 ^ 52) with 4503599627370496. cbv iota. 
      replace (e + k + 1) with (e + k + 1) by lia. done.
    + assert (Zdigits2 (rne m k) = 53) as Hd53
        by (apply Zdigits2_unique; [lia|]; simpl Z.sub; lia).
      rewrite Hd53.
      destruct (Z.leb_spec (Z.max (53 + (e + k) - 53) (-1074) - (e + k)) 0); [|lia].
      cbn [shr_m]. unfold finish.
      destruct (rne m k) eqn:Hrm; try lia. simpl. done.
Qed.

Lemma round_scaled_finish sx V :
  round_scaled sx V
  = let n := Z.max (Zdigits2 V - 53) 0 in
    if n =? 0 then finish sx V (-1074)
    else if rne V n =? 2 ^ 53 then finish sx (2 ^ 52) (n + 1 - 1074)
    else finish sx (rne V n) (n - 1074).
Proof.
  unfold round_scaled, finish. cbv zeta.
  destruct (Z.max (Zdigits2 V - 53) 0 =? 0); [done|].
  by destruct (rne V _ =? 2 ^ 53).
Qed.

Lemma binary_round_scaled sx mx ex :
  -1074 <= ex ->
  binary_round prec emax sx mx ex = round_scaled sx (Z.pos mx * 2 ^ (ex + 1074)).
Proof.
  intros Hex. rewrite round_scaled_finish. cbv zeta.
  set (j := ex + 1074). assert (0 <= j) as Hj by lia.
  assert (0 < 2 ^ j) as Hpj by lia.
  destruct (Zdigits2_bounds (Z.pos mx) ltac:(lia)) as (Hd & Hlo & Hhi).
  rewrite Zdigits2_shift by lia.
  set (dm := Zdigits2 (Z.pos mx)) in *.
  unfold binary_round, shl_align. rewrite fexp64.
  change (Z.pos (digits2_pos mx)) with dm.
  set (fe := Z.max (dm + ex - 53) (-1074)).
  assert (Z.max (dm + j - 53) 0 = fe + 1074) as Hn by lia.
  rewrite Hn.
  destruct (fe - ex) as [|p|d] eqn:Hk.
  - (* fe = ex *)
    rewrite binary_round_aux_exact by lia. cbv zeta. rewrite fexp64.
    fold dm. fold fe. rewrite Hk. simpl (0 <=? 0).  cbv iota.
    destruct (Z.eqb_spec (fe + 1074) 0) as [H0|H0].
    + replace j with 0 by lia. rewrite Z.mul_1_r. f_equal. lia.
    + replace (fe + 1074) with j by lia.
      rewrite rne_exact by lia.
      assert (dm = 53) by lia.
      assert (Z.pos mx < 2 ^ 53) by (replace 53 with dm by lia; lia).
      destruct (Z.eqb_spec (Z.pos mx) (2 ^ 53)); [lia|]. f_equal. lia.
  - (* fe > ex: shift right *)
    rewrite binary_round_aux_exact by lia. cbv zeta. rewrite fexp64.
    fold dm. fold fe. rewrite Hk.
    destruct (Z.leb_spec (Z.pos p) 0); [lia|].
    destruct (Z.eqb_spec (fe + 1074) 0); [lia|].
    replace (fe + 1074) with (Z.pos p + j) by lia.
    rewrite rne_shift by lia.
    destruct (rne (Z.pos mx) (Z.pos p) =? 2 ^ 53); f_equal; lia.
  - (* fe < ex: shift left *)
    assert (Z.pos (Pos.iter xO mx d) = Z.pos mx * 2 ^ Z.pos d) as Hmz by apply pos_iter_xO.
    rewrite binary_round_aux_exact by lia. cbv zeta. rewrite fexp64.
    rewrite Hmz. rewrite Zdigits2_shift by lia. fold dm.
    replace (dm + Z.pos d + fe) with (dm + ex) by lia. fold fe.
    rewrite Z.sub_diag. simpl (0 <=? 0). cbv iota.
    assert (Z.pos mx * 2 ^ j = (Z.pos mx * 2 ^ Z.pos d) * 2 ^ (fe + 1074)) as HV.
    { rewrite <- Z.mul_assoc, <- Z.pow_add_r by lia. do 2 f_equal. lia. }
    destruct (Z.eqb_spec (fe + 1074) 0) as [H0|H0].
    + rewrite HV, H0, Z.mul_1_r. f_equal. lia.
    + rewrite HV, rne_exact by lia.
      assert (dm + Z.pos d = 53) by lia.
      assert (Z.pos mx * 2 ^ Z.pos d < 2 ^ 53).
      { replace 53 with (dm + Z.pos d) by lia. rewrite Z.pow_add_r by lia.
        assert (0 < 2 ^ Z.pos d) by lia. nia. }
      destruct (Z.eqb_spec (Z.pos mx * 2 ^ Z.pos d) (2 ^ 53)); [lia|]. f_equal. lia.
Qed.


Lemma binary_normalize_scaled m e :
  -1074 <= e ->
  binary_normalize prec emax m e false = round_signed (m * 2 ^ (e + 1074)).
Proof.
  intros He. assert (0 < 2 ^ (e + 1074)) as Hp by lia.
  unfold binary_normalize. destruct m as [|p|p].
  - done.
  - rewrite binary_round_scaled by done.
    destruct (Z.pos p * 2 ^ (e + 1074)) eqn:HV; try lia. done.
  - rewrite binary_round_scaled by done.
    destruct (Z.neg p * 2 ^ (e + 1074)) eqn:HV; try lia.
    simpl. do 2 f_equal. lia.
Qed.

(** [rne] by cases on the half bit and the sticky bit. *)
Lemma rne_spec V n :
  rne V n
  = let q := V / 2 ^ n in
    if Z.odd (V / 2 ^ (n - 1))
    then if negb (V mod 2 ^ (n - 1) =? 0) then q + 1
         else if Z.even q then q else q + 1
    else q.
Proof.
  unfold rne. cbv zeta.
  destruct (Z.odd (V / 2 ^ (n - 1))), (negb (V mod 2 ^ (n - 1) =? 0)); done.
Qed.

Lemma half_split V n :
  1 <= n ->
  V / 2 ^ (n - 1) = 2 * (V / 2 ^ n) + (if Z.odd (V / 2 ^ (n - 1)) then 1 else 0).
Proof.
  intros Hn.
  replace (V / 2 ^ n) with (V / 2 ^ (n - 1) / 2).
  2:{ rewrite Z.div_div by lia. f_equal.
      replace n with ((n - 1) + 1) at 2 by lia.
      by rewrite Z.pow_add_r by lia. }
  rewrite (Z.div_mod (V / 2 ^ (n - 1)) 2) at 1 by lia.
  by rewrite Zmod_odd.
Qed.

(** Rounding to nearest even is monotone. *)
Lemma rne_mono V1 V2 n :
  1 <= n -> V1 <= V2 -> rne V1 n <= rne V2 n.
Proof.
  intros Hn HV.
  assert (V1 / 2 ^ n <= V2 / 2 ^ n) as Hq by (apply Z.div_le_mono; lia).
  destruct (Z.eq_dec (V1 / 2 ^ n) (V2 / 2 ^ n)) as [Heq|Hne].
  2:{ destruct (rne_cases V1 n), (rne_cases V2 n); lia. }
  assert (0 < 2 ^ (n - 1)) as Hh by lia.
  assert (V1 / 2 ^ (n - 1) <= V2 / 2 ^ (n - 1)) as HA by (apply Z.div_le_mono; lia).
  pose proof (half_split V1 n Hn) as H1.
  pose proof (half_split V2 n Hn) as H2.
  pose proof (Z.div_mod V1 (2 ^ (n - 1)) ltac:(lia)) as D1.
  pose proof (Z.div_mod V2 (2 ^ (n - 1)) ltac:(lia)) as D2.
  pose proof (Z.mod_pos_bound V1 (2 ^ (n - 1)) Hh) as B1.
  pose proof (Z.mod_pos_bound V2 (2 ^ (n - 1)) Hh) as B2.
  rewrite !rne_spec. cbv zeta. rewrite <- Heq in *.
  destruct (Z.odd (V1 / 2 ^ (n - 1))) eqn:O1,
           (Z.odd (V2 / 2 ^ (n - 1))) eqn:O2; try lia.
  - assert (V1 / 2 ^ (n - 1) = V2 / 2 ^ (n - 1)) as HAeq by lia.
    rewrite HAeq in D1.
    destruct (Z.eqb_spec (V1 mod 2 ^ (n - 1)) 0) as [Z1|Z1],
             (Z.eqb_spec (V2 mod 2 ^ (n - 1)) 0) as [Z2|Z2];
      simpl; destruct (Z.even (V1 / 2 ^ n)); lia.
  - destruct (negb _); [lia|]. destruct (Z.even _); lia.
Qed.

Lemma rne_lower V n : V / 2 ^ n <= rne V n.
Proof. destruct (rne_cases V n); lia. Qed.



Lemma round_scaled_parts sx V :
  round_scaled sx V = finish sx (scaled_mant V) (scaled_exp V).
Proof.
  rewrite round_scaled_finish. unfold scaled_mant, scaled_exp. cbv zeta.
  destruct (Z.max (Zdigits2 V - 53) 0 =? 0); [done|].
  by destruct (rne V _ =? 2 ^ 53).
Qed.

Lemma Zdigits2_mono V1 V2 : 0 < V1 -> V1 <= V2 -> Zdigits2 V1 <= Zdigits2 V2.
Proof.
  intros H1 H12.
  destruct (Zdigits2_bounds V1 H1) as (Hd1 & Hlo1 & Hhi1).
  destruct (Zdigits2_bounds V2 ltac:(lia)) as (Hd2 & Hlo2 & Hhi2).
  destruct (Z.le_gt_cases (Zdigits2 V1) (Zdigits2 V2)) as [|Hgt]; [done|].
  assert (2 ^ Zdigits2 V2 <= 2 ^ (Zdigits2 V1 - 1)) by (apply Z.pow_le_mono_r; lia).
  lia.
Qed.

(** With [53 + n] digits, the quotient by [2^n] has 53 digits. *)
Lemma scaled_quotient V n :
  0 < V -> 1 <= n -> Zdigits2 V = 53 + n ->
  2 ^ 52 <= V / 2 ^ n < 2 ^ 53.
Proof.
  intros HV Hn Hd. destruct (Zdigits2_bounds V HV) as (_ & Hlo & Hhi).
  rewrite Hd in Hlo, Hhi.
  replace (53 + n - 1) with (52 + n) in Hlo by lia.
  rewrite Z.pow_add_r in Hlo, Hhi by lia.
  assert (0 < 2 ^ n) by lia.
  split.
  - apply Z.div_le_lower_bound; lia.
  - apply Z.div_lt_upper_bound; lia.
Qed.

Lemma scaled_rne_bounds V n :
  0 < V -> 1 <= n -> Zdigits2 V = 53 + n ->
  2 ^ 52 <= rne V n <= 2 ^ 53.
Proof.
  intros HV Hn Hd. pose proof (scaled_quotient V n HV Hn Hd).
  destruct (rne_cases V n); lia.
Qed.

Lemma scaled_mant_pos V : 0 < V -> 0 < scaled_mant V.
Proof.
  intros HV. unfold scaled_mant. cbv zeta.
  destruct (Zdigits2_bounds V HV) as (Hd & _).
  destruct (Z.eqb_spec (Z.max (Zdigits2 V - 53) 0) 0) as [|Hn]; [done|].
  destruct (Z.eqb_spec (rne V (Z.max (Zdigits2 V - 53) 0)) (2 ^ 53)); [lia|].
  pose proof (scaled_rne_bounds V (Z.max (Zdigits2 V - 53) 0) HV ltac:(lia) ltac:(lia)).
  lia.
Qed.

(** [round_scaled] is monotone for the lexicographic order on
    (exponent, mantissa). *)
Lemma scaled_parts_mono V1 V2 :
  0 < V1 -> V1 <= V2 ->
  scaled_exp V1 < scaled_exp V2
  \/ (scaled_exp V1 = scaled_exp V2 /\ scaled_mant V1 <= scaled_mant V2).
Proof.
  intros H1 H12. assert (0 < V2) as H2 by lia.
  pose proof (Zdigits2_mono V1 V2 H1 H12) as Hd.
  destruct (Zdigits2_bounds V1 H1) as (Hd1 & _).
  destruct (Zdigits2_bounds V2 H2) as (Hd2 & _).
  unfold scaled_exp, scaled_mant. cbv zeta.
  set (n1 := Z.max (Zdigits2 V1 - 53) 0).
  set (n2 := Z.max (Zdigits2 V2 - 53) 0).
  assert (0 <= n1 <= n2) as Hn by lia.
  destruct (Z.eqb_spec n1 0) as [Hz1|Hz1], (Z.eqb_spec n2 0) as [Hz2|Hz2]; try lia.
  - destruct (rne V2 n2 =? 2 ^ 53); lia.
  - pose proof (scaled_rne_bounds V1 n1 H1 ltac:(lia) ltac:(lia)) as B1.
    pose proof (scaled_rne_bounds V2 n2 H2 ltac:(lia) ltac:(lia)) as B2.
    destruct (Z.eq_dec n1 n2) as [Heq|Hne].
    + pose proof (rne_mono V1 V2 n1 ltac:(lia) H12) as Hm. rewrite Heq in *.
      destruct (Z.eqb_spec (rne V1 n2) (2 ^ 53)), (Z.eqb_spec (rne V2 n2) (2 ^ 53)); lia.
    + destruct (Z.eqb_spec (rne V1 n1) (2 ^ 53)), (Z.eqb_spec (rne V2 n2) (2 ^ 53)); lia.
Qed.

(** Comparison of the results, from the order on their parts. *)
Lemma finish_leb_pos m1 e1 m2 e2 :
  0 < m1 -> 0 < m2 ->
  e1 < e2 \/ (e1 = e2 /\ m1 <= m2) ->
  SFleb (finish false m1 e1) (finish false m2 e2) = true.
Proof.
  intros Hm1 Hm2 Hlex. unfold finish, SFleb, SFcompare.
  destruct (Z.leb_spec e1 971), (Z.leb_spec e2 971); try done; try lia.
  destruct (Z.compare_spec e1 e2) as [Heq|Hlt|Hgt]; try done; try lia.
  fold (Pos.compare (Z.to_pos m1) (Z.to_pos m2)).
  destruct (Pos.compare_spec (Z.to_pos m1) (Z.to_pos m2)); try done; lia.
Qed.

Lemma finish_leb_neg m1 e1 m2 e2 :
  0 < m1 -> 0 < m2 ->
  e1 < e2 \/ (e1 = e2 /\ m1 <= m2) ->
  SFleb (finish true m2 e2) (finish true m1 e1) = true.
Proof.
  intros Hm1 Hm2 Hlex. unfold finish, SFleb, SFcompare.
  destruct (Z.leb_spec e1 971), (Z.leb_spec e2 971); try done; try lia.
  destruct (Z.compare_spec e2 e1) as [Heq|Hlt|Hgt]; try done; try lia.
  fold (Pos.compare (Z.to_pos m2) (Z.to_pos m1)).
  destruct (Pos.compare_spec (Z.to_pos m2) (Z.to_pos m1)); try done; lia.
Qed.

Lemma finish_shape sx m e :
  finish sx m e = S754_finite sx (Z.to_pos m) e \/ finish sx m e = S754_infinity sx.
Proof. unfold finish. destruct (e <=? 971); auto. Qed.

(** Rounding is monotone. *)
Lemma round_signed_mono V1 V2 :
  V1 <= V2 -> SFleb (round_signed V1) (round_signed V2) = true.
Proof.
  intros H12. unfold round_signed.
  destruct V1 as [|p1|p1], V2 as [|p2|p2]; try lia; try done.
  - rewrite round_scaled_parts. by destruct (finish_shape false (scaled_mant (Z.pos p2)) (scaled_exp (Z.pos p2))) as [-> | ->].
  - rewrite !round_scaled_parts.
    apply finish_leb_pos; [apply scaled_mant_pos; lia ..|].
    apply scaled_parts_mono; lia.
  - rewrite round_scaled_parts. by destruct (finish_shape true (scaled_mant (Z.pos p1)) (scaled_exp (Z.pos p1))) as [-> | ->].
  - rewrite !round_scaled_parts.
    destruct (finish_shape true (scaled_mant (Z.pos p1)) (scaled_exp (Z.pos p1))) as [-> | ->],
             (finish_shape false (scaled_mant (Z.pos p2)) (scaled_exp (Z.pos p2))) as [-> | ->]; done.
  - rewrite !round_scaled_parts.
    apply finish_leb_neg; [apply scaled_mant_pos; lia ..|].
    apply scaled_parts_mono; lia.
Qed.

Lemma valid_finite s m e :
  SpecFloat.valid_binary prec emax (S754_finite s m e) = true ->
  -1074 <= e <= 971 /\ Z.pos m < 2 ^ 53 /\ (-1074 < e -> 2 ^ 52 <= Z.pos m).
Proof.
  unfold SpecFloat.valid_binary, bounded, canonical_mantissa.
  rewrite andb_true_iff, fexp64, Z.eqb_eq, Z.leb_le.
  change (emax - prec) with 971.
  intros [Hc He]. pose proof (digits2_bounds m) as [Hlo Hhi].
  set (d := Z.pos (digits2_pos m)) in *.
  assert (d <= 53) as Hd by lia.
  assert (2 ^ d <= 2 ^ 53) by (apply Z.pow_le_mono_r; lia).
  repeat split; try lia.
  intros He'. assert (d = 53) as Hd' by lia. rewrite Hd' in Hlo. exact Hlo.
Qed.

Lemma scaled_lt m1 e1 m2 e2 :
  -1074 <= e1 < e2 -> Z.pos m1 < 2 ^ 53 -> 2 ^ 52 <= Z.pos m2 ->
  Z.pos m1 * 2 ^ (e1 + 1074) <= Z.pos m2 * 2 ^ (e2 + 1074).
Proof.
  intros He H1 H2.
  replace (e2 + 1074) with ((e2 - e1 - 1) + 1 + (e1 + 1074)) by lia.
  rewrite (Z.pow_add_r 2 (e2 - e1 - 1 + 1) (e1 + 1074)) by lia.
  rewrite (Z.pow_add_r 2 (e2 - e1 - 1) 1) by lia.
  assert (0 < 2 ^ (e1 + 1074)) by (apply Z.pow_pos_nonneg; lia).
  assert (0 < 2 ^ (e2 - e1 - 1)) by (apply Z.pow_pos_nonneg; lia).
  change (2 ^ 1) with 2.
  rewrite Z.mul_assoc.
  apply Z.mul_le_mono_nonneg_r; [lia|].
  change (2 ^ 53) with (2 ^ 52 * 2) in H1. nia.
Qed.

(** On valid finite numbers the comparison is that of the values. *)
Lemma SFleb_scaled_val a b :
  SpecFloat.valid_binary prec emax a = true -> SpecFloat.valid_binary prec emax b = true ->
  match a with S754_zero _ | S754_finite _ _ _ => True | _ => False end ->
  match b with S754_zero _ | S754_finite _ _ _ => True | _ => False end ->
  SFleb a b = true -> scaled_val a <= scaled_val b.
Proof.
  intros Ha Hb Na Nb.
  destruct a as [sa|sa| |sa ma ea], b as [sb|sb| |sb mb eb]; try done;
    unfold SFleb, SFcompare, scaled_val.
  - destruct sb; [done|]. intros _. simpl. assert (0 < 2 ^ (eb + 1074)); [|lia].
    apply valid_finite in Hb. lia.
  - destruct sa; [|done]. intros _. simpl. assert (0 < 2 ^ (ea + 1074)); [|lia].
    apply valid_finite in Ha. lia.
  - apply valid_finite in Ha as (Hea & Hma & Hna).
    apply valid_finite in Hb as (Heb & Hmb & Hnb).
    assert (0 < 2 ^ (ea + 1074)) by lia.
    assert (0 < 2 ^ (eb + 1074)) by lia.
    destruct sa, sb; simpl; try done; try lia.
    + destruct (Z.compare_spec ea eb) as [Heq|Hlt|Hgt]; try done.
      * subst eb. fold (Pos.compare ma mb).
        destruct (Pos.compare_spec ma mb); simpl; try done; intros _; nia.
      * intros _. pose proof (scaled_lt mb eb ma ea ltac:(lia) Hmb ltac:(lia)). lia.
    + destruct (Z.compare_spec ea eb) as [Heq|Hlt|Hgt]; try done.
      * subst eb. fold (Pos.compare ma mb).
        destruct (Pos.compare_spec ma mb); simpl; try done; intros _; nia.
      * intros _. pose proof (scaled_lt ma ea mb eb ltac:(lia) Hma ltac:(lia)). lia.
Qed.

Lemma shl_align_val mx ex ez :
  ez <= ex -> Z.pos (fst (shl_align mx ex ez)) = Z.pos mx * 2 ^ (ex - ez).
Proof.
  intros He. unfold shl_align.
  destruct (ez - ex) as [|p|d] eqn:Hk; try lia.
  - replace (ex - ez) with 0 by lia. simpl fst. lia.
  - simpl fst. unfold shift_pos. rewrite pos_iter_xO.
    do 2 f_equal. lia.
Qed.

Lemma round_signed_one : round_signed (2 ^ 1074) = SF_one.
Proof. vm_compute. reflexivity. Qed.

(** [1 - a], for a finite [a], is the rounding of the exact difference. *)
Lemma SFsub_one a :
  SpecFloat.valid_binary prec emax a = true ->
  match a with S754_zero _ | S754_finite _ _ _ => True | _ => False end ->
  SFsub prec emax SF_one a = round_signed (2 ^ 1074 - scaled_val a).
Proof.
  intros Ha Na. destruct a as [sa|sa| |sa ma ea]; [|destruct Na|destruct Na|].
  - replace (2 ^ 1074 - scaled_val (S754_zero sa)) with (2 ^ 1074)
      by (unfold scaled_val; by rewrite Z.sub_0_r).
    rewrite round_signed_one. reflexivity.
  - apply valid_finite in Ha as (Hea & _).
    unfold SF_one, SFsub. cbv zeta.
    set (ez := Z.min (-52) ea).
    rewrite binary_normalize_scaled by lia.
    rewrite !shl_align_val by lia. f_equal.
    unfold scaled_val.
    assert (2 ^ 1074 = 4503599627370496 * 2 ^ (-52 - ez) * 2 ^ (ez + 1074)) as ->.
    { change 4503599627370496 with (2 ^ 52).
      rewrite <- !Z.pow_add_r by lia. f_equal. lia. }
    assert (Z.pos ma * 2 ^ (ea + 1074) = Z.pos ma * 2 ^ (ea - ez) * 2 ^ (ez + 1074)) as ->.
    { rewrite <- Z.mul_assoc, <- Z.pow_add_r by lia. do 2 f_equal. lia. }
    destruct sa; simpl cond_Zopp; lia.
Qed.

Lemma round_signed_not_nan V : round_signed V <> S754_nan.
Proof.
  unfold round_signed. destruct V; [done|..]; rewrite round_scaled_parts;
    match goal with |- finish ?s ?m ?e <> _ =>
      by destruct (finish_shape s m e) as [-> | ->] end.
Qed.

Lemma SFleb_neg_inf r : r <> S754_nan -> SFleb (S754_infinity true) r = true.
Proof. by destruct r as [|[]| |]. Qed.

Lemma SFleb_pos_inf r : r <> S754_nan -> SFleb r (S754_infinity false) = true.
Proof. by destruct r as [|[]| |[]]. Qed.

Lemma SFsub_one_not_nan c :
  SpecFloat.valid_binary prec emax c = true ->
  match c with S754_zero _ | S754_finite _ _ _ => True | _ => False end ->
  SFsub prec emax SF_one c <> S754_nan.
Proof. intros Hc Nc. rewrite SFsub_one by done. apply round_signed_not_nan. Qed.

Lemma SFsub_one_finite_antitone a b :
  SpecFloat.valid_binary prec emax a = true -> SpecFloat.valid_binary prec emax b = true ->
  match a with S754_zero _ | S754_finite _ _ _ => True | _ => False end ->
  match b with S754_zero _ | S754_finite _ _ _ => True | _ => False end ->
  SFleb a b = true ->
  SFleb (SFsub prec emax SF_one b) (SFsub prec emax SF_one a) = true.
Proof.
  intros Ha Hb Na Nb Hab.
  rewrite (SFsub_one a Ha Na), (SFsub_one b Hb Nb).
  apply round_signed_mono, Z.sub_le_mono_l.
  exact (SFleb_scaled_val a b Ha Hb Na Nb Hab).
Qed.

(** Subtraction from one reverses the order. *)
Lemma SFsub_one_antitone a b :
  SpecFloat.valid_binary prec emax a = true -> SpecFloat.valid_binary prec emax b = true ->
  SFleb a b = true ->
  SFleb (SFsub prec emax SF_one b) (SFsub prec emax SF_one a) = true.
Proof.
  intros Ha Hb Hab.
  destruct a as [sa|sa| |sa ma ea].
  - destruct b as [sb|sb| |sb mb eb].
    + exact (SFsub_one_finite_antitone _ _ Ha Hb I I Hab).
    + destruct sb; [discriminate Hab|].
      apply SFleb_neg_inf, SFsub_one_not_nan; [exact Ha|exact I].
    + discriminate Hab.
    + exact (SFsub_one_finite_antitone _ _ Ha Hb I I Hab).
  - destruct sa.
    + apply SFleb_pos_inf.
      destruct b as [sb|sb| |sb mb eb].
      * apply SFsub_one_not_nan; [exact Hb|exact I].
      * destruct sb; discriminate.
      * discriminate Hab.
      * apply SFsub_one_not_nan; [exact Hb|exact I].
    + destruct b as [sb|sb| |sb mb eb]; try discriminate Hab.
      destruct sb; [discriminate Hab|]. reflexivity.
  - discriminate Hab.
  - destruct b as [sb|sb| |sb mb eb].
    + exact (SFsub_one_finite_antitone _ _ Ha Hb I I Hab).
    + destruct sb.
      * unfold SFleb, SFcompare in Hab. destruct sa; discriminate Hab.
      * apply SFleb_neg_inf, SFsub_one_not_nan; [exact Ha|exact I].
    + discriminate Hab.
    + exact (SFsub_one_finite_antitone _ _ Ha Hb I I Hab).
Qed.

Lemma Prim2SF_one : Prim2SF 1%float = SF_one.
Proof. reflexivity. Qed.

(** Binary64 subtraction from 1.0 reverses the order. *)
Lemma float_sub_one_antitone (x y : float) :
  (x <=? y)%float = true -> ((1 - y) <=? (1 - x))%float = true.
Proof.
  rewrite !leb_spec, !sub_spec, Prim2SF_one.
  apply SFsub_one_antitone; apply Prim2SF_valid.
Qed.

End Binary64Facts.

(** ** The chunker: edges *)

Section ChunkerEdges.

Variable encode : string -> list Z.
Variable self : config.

Lemma join_split s : join_nl (split_nl s) = s.
Proof.
  induction s as [|c s IH]; [done|]. cbn [split_nl].
  destruct (Ascii.eqb_spec c nl) as [->|Hc].
  - destruct (split_nl s) as [|l ls] eqn:Hs.
    + by destruct s; simpl in Hs; [|destruct (Ascii.eqb a nl), (split_nl s)].
    + change (join_nl ("" :: l :: ls)) with ("" +:+ NL +:+ join_nl (l :: ls)).
      by rewrite IH.
  - destruct (split_nl s) as [|l ls] eqn:Hs.
    + by destruct s; simpl in Hs; [|destruct (Ascii.eqb a nl), (split_nl s)].
    + destruct ls as [|l' ls].
      * simpl in *. by rewrite IH.
      * change (join_nl (String c l :: l' :: ls))
          with (String c (l +:+ NL +:+ join_nl (l' :: ls))).
        change (join_nl (l :: l' :: ls)) with (l +:+ NL +:+ join_nl (l' :: ls)) in IH.
        by rewrite IH.
Qed.

Lemma split_nl_nonempty s : split_nl s <> [].
Proof.
  destruct s as [|c s]; simpl; [done|].
  destruct (Ascii.eqb c nl); [done|]. by destruct (split_nl s).
Qed.

(** A line within the budget never makes [chunk_step] raise. *)
Lemma chunk_step_fits md st line :
  token_len encode line <= max_tokens_per_chunk self ->
  exists st', chunk_step encode self md st line = Ok st'.
Proof.
  intros Hfit. unfold chunk_step.
  destruct (Z.ltb_spec (max_tokens_per_chunk self) (token_len encode line)); [lia|].
  destruct (_ <? _); by eexists.
Qed.

Lemma chunk_step_total md st line :
  chunk_size self <> 0 -> exists st', chunk_step encode self md st line = Ok st'.
Proof.
  intros Hcs. unfold chunk_step, range.
  destruct (Z.eqb_spec (chunk_size self) 0); [done|].
  destruct (_ <? _); [by eexists|]. destruct (_ <? _); by eexists.
Qed.

Lemma chunk_loop_total md lines : forall st,
  chunk_size self <> 0 -> exists st', chunk_loop encode self md st lines = Ok st'.
Proof.
  induction lines as [|l ls IH]; intros st Hcs; simpl; [by eexists|].
  destruct (chunk_step_total md st l Hcs) as [st1 ->]. simpl. by apply IH.
Qed.

Lemma chunk_content_total content md :
  chunk_size self <> 0 ->
  exists cks, _chunk_content encode self content md = Ok cks.
Proof.
  intros Hcs. unfold _chunk_content. destruct (negb _); [by eexists|].
  destruct (chunk_loop_total md (split_nl content) initial_state Hcs) as [st ->].
  simpl. by eexists.
Qed.

Lemma chunk_step_raises md st line e :
  chunk_step encode self md st line = Raise e ->
  e = ValueError "range() arg 3 must not be zero"
  /\ chunk_size self = 0
  /\ max_tokens_per_chunk self < token_len encode line.
Proof.
  unfold chunk_step, range.
  destruct (Z.ltb_spec (max_tokens_per_chunk self) (token_len encode line)).
  - destruct (Z.eqb_spec (chunk_size self) 0); simpl; [|done].
    by intros [= <-].
  - by destruct (_ <? _).
Qed.

Lemma chunk_loop_raises md lines : forall st e,
  chunk_loop encode self md st lines = Raise e ->
  e = ValueError "range() arg 3 must not be zero"
  /\ chunk_size self = 0
  /\ Exists (fun l => max_tokens_per_chunk self < token_len encode l) lines.
Proof.
  induction lines as [|l ls IH]; intros st e; simpl; [done|].
  destruct (chunk_step encode self md st l) as [st1|e1] eqn:Hs; simpl.
  - intros H. destruct (IH _ _ H) as (? & ? & ?). auto.
  - intros [= <-]. destruct (chunk_step_raises _ _ _ _ Hs) as (? & ? & ?). auto.
Qed.

Lemma chunk_loop_zero_size md lines : forall st,
  chunk_size self = 0 ->
  Exists (fun l => max_tokens_per_chunk self < token_len encode l) lines ->
  chunk_loop encode self md st lines
  = Raise (ValueError "range() arg 3 must not be zero").
Proof.
  induction lines as [|l ls IH]; intros st Hcs Hex; [by inversion Hex|].
  simpl.
  destruct (Z.ltb_spec (max_tokens_per_chunk self) (token_len encode l)) as [Hbig|Hfit].
  - unfold chunk_step, range.
    destruct (Z.ltb_spec (max_tokens_per_chunk self) (token_len encode l)); [|lia].
    rewrite Hcs. done.
  - destruct (chunk_step_fits md st l Hfit) as [st1 ->]. simpl.
    apply IH; [done|]. inversion Hex; subst; [lia|done].
Qed.


(** With an overlap of 0 the slice [current_chunk[-0:]] is the whole
    buffer. *)
Lemma overlap_of_zero cur : chunk_overlap self = 0 -> overlap_of self cur = cur.
Proof.
  intros H0. unfold overlap_of, list_slice, slice_lo, slice_hi, slice_bound.
  rewrite H0. destruct (_ <? _); [|done]. simpl.
  change (- 0) with 0. rewrite Z.min_l by lia.
  rewrite Z.sub_0_r, Nat2Z.id. simpl. by rewrite firstn_all.
Qed.

Lemma chunk_loop_zero_overlap md lines : forall st,
  chunk_overlap self = 0 ->
  Forall (fun l => token_len encode l <= max_tokens_per_chunk self) lines ->
  exists st',
    chunk_loop encode self md st lines = Ok st'
    /\ current_chunk st' = current_chunk st ++ lines.
Proof.
  induction lines as [|l ls IH]; intros st H0 Hfit; simpl.
  - eexists. split; [done|]. by rewrite app_nil_r.
  - inversion Hfit as [|? ? Hl Hls]; subst.
    unfold chunk_step.
    destruct (Z.ltb_spec (max_tokens_per_chunk self) (token_len encode l)); [lia|].
    destruct (_ <? _); simpl.
    + edestruct IH as (st' & -> & Hcur); [done..|].
      eexists. split; [done|]. rewrite Hcur. simpl.
      rewrite overlap_of_zero by done. by rewrite <- app_assoc.
    + edestruct IH as (st' & -> & Hcur); [done..|].
      eexists. split; [done|]. rewrite Hcur. simpl. by rewrite <- app_assoc.
Qed.

(** Property X2.  With [chunk_overlap = 0] no line ever leaves the buffer: when
    every line fits the budget, the last chunk of a text that is not
    blank is the whole text. *)
Theorem zero_overlap_last_chunk_is_whole_text content md :
  chunk_overlap self = 0 ->
  strip content <> "" ->
  Forall (fun l => token_len encode l <= max_tokens_per_chunk self)
    (split_nl content) ->
  exists cks c,
    _chunk_content encode self content md = Ok (cks ++ [c])
    /\ text c = content.
Proof.
  intros H0 Hne Hfit. unfold _chunk_content.
  destruct (strip content) eqn:Hs; [done|]. simpl.
  destruct (chunk_loop_zero_overlap md (split_nl content) initial_state H0 Hfit)
    as (st & -> & Hcur).
  simpl in *. rewrite Hcur. unfold flush.
  destruct (split_nl content) as [|l ls] eqn:Hsp; [by destruct (split_nl_nonempty content)|].
  rewrite <- Hsp. unfold append_chunk. do 2 eexists. split; [done|].
  simpl. apply join_split.
Qed.

Local Abbreviation created md cks :=
  (forall k c, cks !! k = Some c ->
     c = _create_chunk_dict encode (text c) md (Z.of_nat k)).

Lemma created_append md cks txt :
  created md cks -> created md (append_chunk encode md cks txt).
Proof.
  intros H k c. unfold append_chunk. rewrite lookup_app_Some.
  intros [Hk|[Hge Hk]]; [by apply H|].
  apply list_lookup_singleton_Some in Hk as [Hk <-].
  replace k with (length cks) by lia. done.
Qed.

Lemma created_flush md cks cur :
  created md cks -> created md (flush encode md cks cur).
Proof. intros H. destruct cur; [done|]. by apply created_append. Qed.

Lemma created_fold md pieces : forall cks,
  created md cks -> created md (fold_left (append_chunk encode md) pieces cks).
Proof.
  induction pieces as [|p ps IH]; intros cks H; simpl; [done|].
  by apply IH, created_append.
Qed.

Lemma created_step md st line st' :
  created md (chunks st) ->
  chunk_step encode self md st line = Ok st' ->
  created md (chunks st').
Proof.
  intros H. unfold chunk_step.
  destruct (_ <? _).
  - destruct (range _ _ _) as [indices|]; simpl; [|done]. intros [= <-]. simpl.
    rewrite emit_slices_pieces. apply created_fold.
    destruct (current_chunk st); simpl; [done|]. by apply created_append.
  - destruct (_ <? _); intros [= <-]; simpl; [by apply created_flush|done].
Qed.

Lemma created_loop md lines : forall st st',
  created md (chunks st) ->
  chunk_loop encode self md st lines = Ok st' ->
  created md (chunks st').
Proof.
  induction lines as [|line rest IH]; intros st st' H; simpl.
  - by intros [= <-].
  - destruct (chunk_step encode self md st line) as [st1|] eqn:Hs; simpl; [|done].
    apply IH. by eapply created_step.
Qed.

Lemma chunk_content_created content md cks :
  _chunk_content encode self content md = Ok cks -> created md cks.
Proof.
  unfold _chunk_content. destruct (negb _).
  - intros [= <-] k c Hk. done.
  - destruct (chunk_loop _ _ _ _ _) as [st|] eqn:Hl; simpl; [|done].
    intros [= <-]. apply created_flush.
    eapply created_loop; [|exact Hl]. intros k c Hk. done.
Qed.

(** Property X3.  The [k]-th chunk of a file records its position as
    [chunk_index], the number of characters of its text as [chunk_size]
    and the number of tokens of its text as [token_count]; its other
    metadata are the file's (a file key with one of these three names is
    overwritten), and it has no embedding yet. *)
Theorem chunk_content_metadata content md cks k c :
  _chunk_content encode self content md = Ok cks ->
  cks !! k = Some c ->
  metadata c
  = <["token_count" := MInt (token_len encode (text c))]>
      (<["chunk_size" := MInt (Z.of_nat (String.length (text c)))]>
         (<["chunk_index" := MInt (Z.of_nat k)]> md))
  /\ embedding c = None.
Proof.
  intros Hc Hk. rewrite (chunk_content_created content md cks Hc k c Hk). done.
Qed.

(** Property X4.  With a negative [chunk_size] the fallback for a line over the
    budget emits nothing: the buffer is flushed and the line is dropped.
    A text made of one such line gives no chunk at all. *)
Theorem negative_chunk_size_drops_oversized_lines md st line :
  chunk_size self < 0 ->
  max_tokens_per_chunk self < token_len encode line ->
  chunk_step encode self md st line
  = Ok {| chunks := flush encode md (chunks st) (current_chunk st);
          current_chunk := [];
          current_tokens := match current_chunk st with
                            | [] => current_tokens st
                            | _ :: _ => 0
                            end |}
  /\ (has_nl line = false -> strip line <> "" ->
      _chunk_content encode self line md = Ok []).
Proof.
  intros Hcs Hbig.
  assert (chunk_step encode self md st line
          = Ok {| chunks := flush encode md (chunks st) (current_chunk st);
                  current_chunk := [];
                  current_tokens := match current_chunk st with
                                    | [] => current_tokens st
                                    | _ :: _ => 0
                                    end |}) as Hstep.
  { unfold chunk_step, range, range_len.
    destruct (Z.ltb_spec (max_tokens_per_chunk self) (token_len encode line)); [|lia].
    destruct (Z.eqb_spec (chunk_size self) 0); [lia|].
    destruct (Z.ltb_spec 0 (chunk_size self)); [lia|].
    destruct (Z.ltb_spec (Z.of_nat (String.length line)) 0); [lia|].
    simpl. destruct (current_chunk st) eqn:Hcur; simpl; by rewrite ?Hcur. }
  split; [exact Hstep|].
  intros Hnl Hne. unfold _chunk_content.
  destruct (strip line) eqn:Hs; [done|]. simpl.
  rewrite split_nl_line by done. simpl.
  unfold chunk_step, range, range_len.
  destruct (Z.ltb_spec (max_tokens_per_chunk self) (token_len encode line)); [|lia].
  destruct (Z.eqb_spec (chunk_size self) 0); [lia|].
  destruct (Z.ltb_spec 0 (chunk_size self)); [lia|].
  destruct (Z.ltb_spec (Z.of_nat (String.length line)) 0); [lia|].
  done.
Qed.

End ChunkerEdges.

(** ** Runs of the indexing pipeline *)

Lemma list_slice_window {A} (l : list A) i n :
  0 <= i -> 0 < n ->
  list_slice l (Some i) (Some (i + n)) = take (Z.to_nat n) (drop (Z.to_nat i) l).
Proof.
  intros Hi Hn. unfold list_slice, slice_lo, slice_hi, slice_bound.
  destruct (Z.ltb_spec i 0); [lia|]. destruct (Z.ltb_spec (i + n) 0); [lia|].
  destruct (Z.le_gt_cases i (Z.of_nat (length l))) as [Hle|Hgt].
  - rewrite (Z.min_l i) by lia.
    destruct (Z.le_gt_cases (i + n) (Z.of_nat (length l))).
    + rewrite Z.min_l by lia. f_equal. lia.
    + rewrite Z.min_r by lia.
      rewrite !take_ge; [done|rewrite length_drop; lia..].
  - rewrite (Z.min_r i) by lia. rewrite (Z.min_r (i + n)) by lia.
    rewrite Z.sub_diag. rewrite !drop_ge by lia. by rewrite !take_nil.
Qed.

Lemma concat_list_windows {A} (l : list A) c : forall count i0,
  (length l <= i0 + count * c)%nat ->
  concat (map (fun k => take c (drop (i0 + k * c) l)) (seq 0 count)) = drop i0 l.
Proof.
  induction count as [|n IH]; intros i0 Hle.
  - simpl. symmetry. apply drop_ge. lia.
  - rewrite <- cons_seq, <- seq_shift, map_cons, map_map. cbn [concat].
    rewrite (map_ext _ (fun k => take c (drop ((i0 + c) + k * c) l)))
      by (intros; do 2 f_equal; lia).
    rewrite IH by lia. rewrite Nat.mul_0_l, Nat.add_0_r.
    rewrite <- drop_drop. apply take_drop.
Qed.

(** The batches of [vectorize_repository] are the files, each once and
    in order. *)
Lemma batches_partition {A} (files : list A) batch_size offsets :
  0 < batch_size ->
  range 0 (Z.of_nat (length files)) batch_size = Ok offsets ->
  concat (map (fun i => list_slice files (Some i) (Some (i + batch_size))) offsets)
  = files.
Proof.
  intros Hbs. rewrite range_windows by lia. intros [= <-].
  rewrite map_map.
  rewrite (map_ext _ (fun k => take (Z.to_nat batch_size)
                                 (drop (0 + k * Z.to_nat batch_size) files))).
  2:{ intros k. rewrite list_slice_window by lia. do 2 f_equal. lia. }
  rewrite concat_list_windows; [done|].
  pose proof (ceil_div_bounds (Z.of_nat (length files)) batch_size Hbs ltac:(lia))
    as (H0 & Hhi & _).
  cbv zeta in *. nia.
Qed.

Section PipelineRuns.

Context {E : externals}.

Local Abbreviation keyed c :=
  (is_Some (vectorize_repo.metadata c !! "file_path")
   /\ is_Some (vectorize_repo.metadata c !! "chunk_index")).

Local Abbreviation storable c :=
  (is_Some (vectorize_repo.metadata c !! "file_path")
   /\ is_Some (vectorize_repo.metadata c !! "chunk_index")
   /\ is_Some (embedding c)).

Local Abbreviation with_path file :=
  (forall content md, file = Some (content, md) -> is_Some (md !! "file_path")).

Lemma chunk_requests_app cks1 cks2 :
  chunk_requests (cks1 ++ cks2) = chunk_requests cks1 ++ chunk_requests cks2.
Proof. unfold chunk_requests. by rewrite map_app, concat_app. Qed.

Lemma indexed_chunks_app self f1 f2 :
  indexed_chunks E self (f1 ++ f2)
  = indexed_chunks E self f1 ++ indexed_chunks E self f2.
Proof. unfold indexed_chunks. by rewrite map_app, concat_app. Qed.

Lemma chunk_requests_filter cks :
  chunk_requests cks
  = map (fun c => titan_request (text c))
        (List.filter (fun c => str_truthy (text c)) cks).
Proof.
  induction cks as [|c rest IH]; [done|].
  change (chunk_requests (c :: rest))
    with (requests_for (PStr (text c)) ++ chunk_requests rest).
  rewrite IH. cbn [List.filter requests_for].
  by destruct (str_truthy (text c)).
Qed.

Lemma gather_sent cks : forall w : world E,
  sent (snd (gather (map embedding_task cks) w)) = sent w ++ chunk_requests cks.
Proof.
  induction cks as [|c rest IH]; intros w; simpl.
  - by rewrite app_nil_r.
  - destruct (get_embedding_total (PStr (text c)) w) as (w' & Hg & Hs & _).
    unfold embedding_task at 1. rewrite Hg.
    specialize (IH w'). destruct (gather (map embedding_task rest) w') as [rs w2].
    simpl in *. rewrite IH, Hs. unfold chunk_requests. simpl.
    by rewrite <- app_assoc.
Qed.

(** Property X5.  [_process_chunks_batch] sends one request for each chunk whose
    text is not empty, in the order of the chunks, with the first 8192
    characters of the text; a chunk with an empty text gets no request. *)
Theorem process_chunks_batch_requests cks (w : world E) :
  sent (snd (_process_chunks_batch cks w))
  = sent w ++ map (fun c => titan_request (text c))
                  (List.filter (fun c => str_truthy (text c)) cks).
Proof.
  rewrite process_chunks_batch_eq. cbn [snd].
  by rewrite gather_sent, chunk_requests_filter.
Qed.

Lemma processed_storable cks ans :
  Forall (fun c => keyed c) cks ->
  Forall (fun c => storable c) (omap with_embedding (zip cks ans)).
Proof.
  intros Hk. apply Forall_forall. intros c Hc.
  apply list_elem_of_omap in Hc as ([c0 a] & Hin & Hw).
  apply elem_of_zip_l in Hin. simpl in Hin.
  rewrite Forall_forall in Hk. destruct (Hk c0 Hin) as [Hp Hi].
  destruct a as [e|]; simpl in Hw; [|done]. injection Hw as <-. simpl.
  repeat split; try done; by eexists.
Qed.

Lemma store_rows_total cks :
  Forall (fun c => storable c) cks -> exists rows, store_rows (E:=E) cks = Ok rows.
Proof.
  induction 1 as [|c rest ([fp Hfp] & [idx Hidx] & [e He]) _ [rows IH]]; simpl.
  - by eexists.
  - unfold dict_get. rewrite Hfp, Hidx, He. simpl. rewrite IH. simpl. by eexists.
Qed.

Lemma store_outcome handle cks (w : world E) rows :
  store_rows (E:=E) cks = Ok rows ->
  exists w',
    _store_in_chromadb handle cks w = (Ok tt, w')
    /\ sent w' = sent w /\ provider w' = provider w
    /\ dom (chroma w') = dom (chroma w).
Proof.
  intros Hrows. unfold _store_in_chromadb.
  destruct cks as [|c rest]; [by eexists|].
  unfold bind, lift, try_except, call_collection_add, logger. rewrite Hrows. simpl.
  destruct (chroma w !! handle) as [col|] eqn:Hc; simpl; [|by eexists].
  destruct (collection_add E col rows) as [col'|e]; simpl; [|by eexists].
  eexists. split; [done|]. simpl. repeat split; try done.
  apply dom_insert_lookup_L. by eexists.
Qed.

(** Property X6.  A failure of the store is not an error of
    [_store_in_chromadb]: when [collection.add] raises, the call logs
    one record of level ERROR and returns; the collection is as it was,
    and the rows are lost. *)
Theorem store_failure_is_logged handle cks rows c e (w : world E) :
  cks <> [] ->
  store_rows (E:=E) cks = Ok rows ->
  chroma w !! handle = Some c ->
  collection_add E c rows = Raise e ->
  _store_in_chromadb handle cks w
  = (Ok tt,
     {| provider := provider w; sent := sent w; chroma := chroma w;
        log := log w ++ [{| levelname := ERROR;
                            message := "Error almacenando en ChromaDB: "
                                       +:+ exn_str e |}] |}).
Proof.
  intros Hne Hrows Hc Hadd. unfold _store_in_chromadb.
  destruct cks as [|c0 rest]; [done|].
  unfold bind, lift, try_except, call_collection_add, logger.
  rewrite Hrows. simpl. rewrite Hc, Hadd. done.
Qed.

Lemma file_chunks_keyed self file :
  with_path file -> Forall (fun c => keyed c) (file_chunks E self file).
Proof.
  intros Hp. unfold file_chunks. destruct file as [[content md]|]; [|done].
  destruct (_chunk_content _ _ _ _) as [cks|] eqn:Hc; [|done].
  pose proof (chunk_content_positioned _ _ _ _ _ Hc) as Hpos.
  apply Forall_forall. intros c Hin. apply list_elem_of_lookup in Hin as [k Hk].
  destruct (Hpos k c Hk) as [Hidx Hfp]. split.
  - rewrite Hfp. by eapply Hp.
  - rewrite Hidx. by eexists.
Qed.

Lemma indexed_chunks_keyed self files :
  Forall (fun f => with_path f) files ->
  Forall (fun c => keyed c) (indexed_chunks E self files).
Proof.
  intros H. unfold indexed_chunks. apply Forall_concat, Forall_fmap.
  eapply Forall_impl; [exact H|]. intros f Hf. by apply file_chunks_keyed.
Qed.

Lemma read_batch_spec self total batch :
  chunk_size (self_config self) <> 0 ->
  forall acc n (w : world E),
  exists n' w',
    read_batch self total batch acc n w
    = (Ok (acc ++ indexed_chunks E (self_config self) batch, n'), w')
    /\ sent w' = sent w /\ provider w' = provider w /\ chroma w' = chroma w.
Proof.
  intros Hcs. induction batch as [|f rest IH]; intros acc n w.
  - simpl. do 2 eexists. split; [by rewrite app_nil_r|done].
  - destruct f as [[content md]|]; simpl.
    + unfold indexed_chunks. cbn [map concat file_chunks].
      destruct (chunk_content_total (tokenizer_encode E) (self_config self)
                  content md Hcs) as [cks Hck].
      unfold bind at 1, lift. rewrite Hck.
      unfold bind at 1.
      destruct ((n + 1) mod 10 =? 0).
      * unfold logger at 1.
        edestruct IH as (n' & w' & -> & Hs & Hp & Hc).
        do 2 eexists. split; [by rewrite app_assoc|]. done.
      * unfold ret at 1.
        edestruct IH as (n' & w' & -> & Hs & Hp & Hc).
        do 2 eexists. split; [by rewrite app_assoc|]. done.
    + apply IH.
Qed.

Lemma run_batches_spec self files :
  chunk_size (self_config self) <> 0 ->
  Forall (fun f => with_path f) files ->
  forall offsets pf tc (w : world E),
  exists pf' tc' w',
    run_batches self files offsets pf tc w = (Ok (pf', tc'), w')
    /\ sent w'
       = sent w
         ++ chunk_requests
              (indexed_chunks E (self_config self)
                 (concat (map (fun i => list_slice files (Some i)
                                          (Some (i + batch_size (self_args self))))
                              offsets)))
    /\ dom (chroma w') = dom (chroma w).
Proof.
  intros Hcs Hfiles. induction offsets as [|i rest IH]; intros pf tc w.
  - simpl. do 3 eexists. split; [done|]. by rewrite app_nil_r.
  - cbn [run_batches map concat].
    set (batch := list_slice files (Some i) (Some (i + batch_size (self_args self)))).
    assert (Forall (fun f => with_path f) batch) as Hbatch.
    { subst batch. unfold list_slice. by apply Forall_take, Forall_drop. }
    destruct (read_batch_spec self (Z.of_nat (length files)) batch Hcs [] pf w)
      as (n' & w1 & Hread & Hs1 & Hp1 & Hc1).
    unfold bind at 1. rewrite Hread. cbn [app].
    rewrite indexed_chunks_app, chunk_requests_app.
    destruct (indexed_chunks E (self_config self) batch) as [|c0 cks0] eqn:Hb.
    + destruct (IH n' tc w1) as (pf' & tc' & w' & -> & Hs & Hc).
      do 3 eexists. split; [done|]. rewrite Hs, Hs1, Hc, Hc1. done.
    + rewrite <- Hb. unfold bind at 1. rewrite process_chunks_batch_eq.
      pose proof (gather_sent (indexed_chunks E (self_config self) batch) w1) as Hs2.
      pose proof (gather_keeps_chroma (indexed_chunks E (self_config self) batch) w1) as Hc2.
      set (w2 := snd (gather _ w1)) in *.
      set (pcs := omap with_embedding _).
      assert (Forall (fun c => storable c) pcs) as Hst
        by (apply processed_storable, indexed_chunks_keyed, Hbatch).
      destruct (store_rows_total pcs Hst) as [rows Hrows].
      destruct (store_outcome (self_collection self) pcs w2 rows Hrows)
        as (w3 & Hstore & Hs3 & _ & Hc3).
      unfold bind at 1. rewrite Hstore.
      destruct (IH n' (tc + Z.of_nat (length pcs)) w3) as (pf' & tc' & w' & -> & Hs & Hc).
      do 3 eexists. split; [done|].
      rewrite Hs, Hs3, Hs2, Hs1, Hc, Hc3, Hc2, Hc1. by rewrite <- app_assoc.
Qed.

Lemma vectorize_repository_total self (w : world E) :
  chunk_size (self_config self) <> 0 ->
  batch_size (self_args self) <> 0 ->
  Forall (fun f => with_path f) (repo_files E (repo_path (self_args self))) ->
  exists w',
    vectorize_repository self w = (Ok tt, w')
    /\ dom (chroma w') = dom (chroma w).
Proof.
  intros Hcs Hbs Hfiles. unfold vectorize_repository.
  unfold bind at 1, logger at 1. unfold bind at 1, logger at 1.
  unfold bind at 1, logger at 1. unfold bind at 1, lift, range.
  destruct (Z.eqb_spec (batch_size (self_args self)) 0); [done|].
  set (offsets := map _ _). unfold bind at 1.
  match goal with |- context [run_batches self ?fs offsets 0 0 ?w0] =>
    destruct (run_batches_spec self fs Hcs Hfiles offsets 0 0 w0)
      as (pf & tc & w1 & Hrun & _ & Hc) end.
  rewrite Hrun.
  unfold bind, logger. simpl. eexists. split; [done|]. simpl. by rewrite Hc.
Qed.




(** Property X10.  When a client cannot be built, [_setup_clients] logs the error
    and raises it again unchanged, and [main] ends with that exception
    (exit status 1) before any file is read: nothing is sent and no
    collection is created. *)
Theorem main_setup_failure args e (w : world E) :
  path_exists E (repo_path args) = true ->
  boto3_client E (aws_region args) = Raise e
  \/ (boto3_client E (aws_region args) = Ok tt
      /\ PersistentClient E (chroma_dir args) = Raise e) ->
  main args w
  = (Raise e,
     {| provider := provider w; sent := sent w; chroma := chroma w;
        log := log w ++ [{| levelname := ERROR;
                            message := "Error configurando clientes: "
                                       +:+ exn_str e |}] |})
  /\ exit_status (fst (main args w)) = 1.
Proof.
  intros Hp Hfail.
  assert (main args w
          = (Raise e,
             {| provider := provider w; sent := sent w; chroma := chroma w;
                log := log w ++ [{| levelname := ERROR;
                                    message := "Error configurando clientes: "
                                               +:+ exn_str e |}] |})) as Hmain.
  { unfold main. rewrite Hp. simpl.
    unfold RepositoryVectorizer, _setup_clients, bind, try_except, lift, logger, raise.
    destruct Hfail as [-> | [-> ->]]; done. }
  split; [exact Hmain|]. by rewrite Hmain.
Qed.

End PipelineRuns.

Section PipelineEdges.

Context {E : externals}.



(** Property X13.  A response of the provider that is not JSON is logged by
    [_get_embedding] as a validation error: [json.JSONDecodeError] is a
    [ValueError], so the first handler takes it.  No call ever logs the
    message of the handler for [json.JSONDecodeError]. *)
Theorem get_embedding_json_error_is_validation_error :
  (forall s raw m (w : world E),
     str_truthy s = true ->
     fst (invoke_model E (provider w) (titan_request s)) = Ok raw ->
     json_loads E raw = Raise (JSONDecodeError m) ->
     fst (_get_embedding (PStr s) w) = Ok None
     /\ log (snd (_get_embedding (PStr s) w))
        = log w ++ [{| levelname := ERROR;
                       message := "Error de validación en respuesta AWS: " +:+ m |}])
  /\ (forall txt (w : world E),
        exists records,
          log (snd (_get_embedding txt w)) = log w ++ records
          /\ Forall (fun r => startswith (message r)
                                "Error decodificando JSON de AWS: " = false)
               records).
Proof.
  split.
  - intros s raw m w Hs Hi Hj.
    unfold _get_embedding, try_except, bind, call_invoke_model, lift, logger, ret.
    simpl. rewrite Hs. simpl. fold (titan_request s).
    destruct (invoke_model E (provider w) (titan_request s)) as [r p].
    simpl in Hi. subst r. simpl. rewrite Hj. done.
  - intros txt w.
    unfold _get_embedding, try_except, bind, call_invoke_model, lift, logger, ret, raise.
    destruct txt as [|b|n|s|t]; simpl;
      try (destruct b); try (destruct (n =? 0)); try (destruct t); simpl;
      try (eexists; split; [reflexivity|]; by repeat constructor).
    destruct (str_truthy s); simpl;
      [|eexists; split; [reflexivity|]; by repeat constructor].
    destruct (invoke_model E (provider w) _) as [[raw|e] p]; simpl.
    + destruct (json_loads E raw) as [body|e]; simpl.
      * destruct (_validar_respuesta_embedding body) as [emb|e]; simpl.
        -- eexists; split; [reflexivity|]; by repeat constructor.
        -- destruct (is_ValueError e) eqn:Hv; simpl;
             [eexists; split; [reflexivity|]; by repeat constructor|].
           destruct (is_JSONDecodeError e) eqn:Hj; [by destruct e|]. simpl.
           eexists; split; [reflexivity|]; by repeat constructor.
      * destruct (is_ValueError e) eqn:Hv; simpl;
          [eexists; split; [reflexivity|]; by repeat constructor|].
        destruct (is_JSONDecodeError e) eqn:Hj; [by destruct e|]. simpl.
        eexists; split; [reflexivity|]; by repeat constructor.
    + destruct (is_ValueError e) eqn:Hv; simpl;
        [eexists; split; [reflexivity|]; by repeat constructor|].
      destruct (is_JSONDecodeError e) eqn:Hj; [by destruct e|]. simpl.
      eexists; split; [reflexivity|]; by repeat constructor.
Qed.

End PipelineEdges.

(** ** The search service *)

Section SearchFacts.

Context {E : externals}.

(** Property X14.  [_validar_respuesta_embedding] accepts a response exactly when
    it is an object whose [embedding] field is a list, not empty, of
    numbers (integers, floats and booleans, [bool] being a subclass of
    [int]), and returns that list unchanged; every rejection is a
    [ValueError].  The validator of the search service,
    [_validar_respuesta_bedrock], gives the same outcome on every
    response. *)
Theorem validators_accept_number_lists response_body :
  (forall e,
     _validar_respuesta_embedding response_body = Ok e
     <-> exists d,
           response_body = JDict d
           /\ json_field d "embedding" = Some (JList e)
           /\ e <> []
           /\ Forall (fun x => is_number x = true) e)
  /\ (forall err,
        _validar_respuesta_embedding response_body = Raise err ->
        exists msg, err = ValueError msg)
  /\ busqueda._validar_respuesta_bedrock response_body
     = _validar_respuesta_embedding response_body.
Proof.
  split; [|split; [|reflexivity]].
  - intros e. unfold _validar_respuesta_embedding. split.
    + destruct response_body as [| | | | |l|d]; try done.
      destruct (json_field d "embedding") as [[| | | | |l|]|] eqn:Hf; try done.
      destruct l as [|x l]; [done|].
      destruct (forallb is_number (x :: l)) eqn:Hn; [|done].
      intros [= <-]. exists d. repeat split; try done.
      apply Forall_forall. intros y Hy. rewrite forallb_forall in Hn.
      apply Hn. by apply list_elem_of_In.
    + intros (d & -> & -> & Hne & Hall).
      destruct e as [|x l]; [done|].
      assert (forallb is_number (x :: l) = true) as ->; [|done].
      apply forallb_forall. intros y Hy. rewrite Forall_forall in Hall.
      apply Hall. by apply list_elem_of_In.
  - intros err. unfold _validar_respuesta_embedding.
    destruct response_body as [| | | | |l|d]; try (intros [= <-]; by eexists).
    destruct (json_field d "embedding") as [[| | | | |l|]|];
      try (intros [= <-]; by eexists).
    destruct l as [|x l]; [intros [= <-]; by eexists|].
    destruct (forallb is_number (x :: l)); [done|intros [= <-]; by eexists].
Qed.

Lemma startswith_append p s : startswith (p +:+ s) p = true.
Proof.
  unfold startswith. induction p as [|a p IH]; simpl.
  - by destruct s.
  - by destruct (ascii_dec a a).
Qed.

Lemma generar_embedding_invalid texto (w : world E) :
  truthy texto = false \/ is_str texto = false ->
  busqueda.generar_embedding texto w
  = (Raise (WrappedException
              ("Error de validación en respuesta Bedrock: "
               +:+ "Texto de entrada inválido para embedding")), w).
Proof.
  intros H. unfold busqueda.generar_embedding, try_except, raise.
  assert (negb (truthy texto) || negb (is_str texto) = true) as ->
    by (destruct H as [-> | ->]; [done|by rewrite orb_true_r]).
  done.
Qed.

(** Property X15.  Every failure of [generar_embedding] is raised as a plain
    [Exception] whose message starts with the validation prefix or with
    the generic prefix; the prefix for a response that is not JSON is
    never used, such a response being reported as a validation error.
    An empty query, or one that is not a string, is rejected before any
    request is sent. *)
Theorem generar_embedding_failures texto (w : world E) :
  (forall e, fst (busqueda.generar_embedding texto w) = Raise e ->
     exists msg,
       e = WrappedException msg
       /\ (startswith msg "Error de validación en respuesta Bedrock: " = true
           \/ startswith msg "Error al generar embedding con Bedrock: " = true)
       /\ startswith msg "Error decodificando JSON de Bedrock: " = false)
  /\ (forall s raw m,
        texto = PStr s -> str_truthy s = true ->
        fst (invoke_model E (provider w)
               {| modelId := busqueda.BEDROCK_MODEL_ID; contentType := None;
                  accept := None; inputText := s |}) = Ok raw ->
        json_loads E raw = Raise (JSONDecodeError m) ->
        fst (busqueda.generar_embedding texto w)
        = Raise (WrappedException
                   ("Error de validación en respuesta Bedrock: " +:+ m)))
  /\ (truthy texto = false \/ is_str texto = false ->
      busqueda.generar_embedding texto w
      = (Raise (WrappedException
                  ("Error de validación en respuesta Bedrock: "
                   +:+ "Texto de entrada inválido para embedding")), w)).
Proof.
  split; [|split; [|apply generar_embedding_invalid]].
  - intros e.
    unfold busqueda.generar_embedding, try_except, bind, call_invoke_model, lift,
      logger, ret, raise.
    destruct (negb (truthy texto) || negb (is_str texto)); simpl.
    { intros [= <-]. eexists. split; [done|]. split; [left; apply startswith_append|done]. }
    destruct texto as [|b|n|s|t]; simpl;
      try (intros [= <-]; eexists; split; [done|]; split; [right; apply startswith_append|done]).
    destruct (invoke_model E (provider w) _) as [[raw|e0] p]; simpl.
    + destruct (json_loads E raw) as [body|e0]; simpl.
      * destruct (busqueda._validar_respuesta_bedrock body) as [emb|e0]; simpl; [done|].
        destruct (is_ValueError e0) eqn:Hv; simpl;
          [intros [= <-]; eexists; split; [done|]; split; [left; apply startswith_append|done]|].
        destruct (is_JSONDecodeError e0) eqn:Hj; [by destruct e0|]. simpl.
        intros [= <-]; eexists; split; [done|]; split; [right; apply startswith_append|done].
      * destruct (is_ValueError e0) eqn:Hv; simpl;
          [intros [= <-]; eexists; split; [done|]; split; [left; apply startswith_append|done]|].
        destruct (is_JSONDecodeError e0) eqn:Hj; [by destruct e0|]. simpl.
        intros [= <-]; eexists; split; [done|]; split; [right; apply startswith_append|done].
    + destruct (is_ValueError e0) eqn:Hv; simpl;
        [intros [= <-]; eexists; split; [done|]; split; [left; apply startswith_append|done]|].
      destruct (is_JSONDecodeError e0) eqn:Hj; [by destruct e0|]. simpl.
      intros [= <-]; eexists; split; [done|]; split; [right; apply startswith_append|done].
  - intros s raw m -> Hs Hi Hj.
    unfold busqueda.generar_embedding, try_except, bind, call_invoke_model, lift,
      logger, ret, raise.
    simpl. rewrite Hs. simpl.
    destruct (invoke_model E (provider w) _) as [r p]. simpl in Hi. subst r.
    simpl. rewrite Hj. done.
Qed.

Lemma buscar_invalid_query handle query n (w : world E) :
  truthy query = false \/ is_str query = false ->
  busqueda.buscar handle query n w
  = (Raise (WrappedException
              ("Error al buscar en ChromaDB: "
               +:+ "Error de validación en respuesta Bedrock: "
               +:+ "Texto de entrada inválido para embedding")), w).
Proof.
  intros H. unfold busqueda.buscar, try_except, bind, raise.
  by rewrite generar_embedding_invalid.
Qed.

(** Property X16.  Every failure of [buscar] is raised as a plain [Exception]
    whose message starts with [Error al buscar en ChromaDB: ].  For a
    query that is empty or not a string the message is the doubly
    wrapped validation message, nothing is sent to the provider and the
    store is not queried: the world is as it was. *)
Theorem buscar_failures handle query n (w : world E) :
  (forall e, fst (busqueda.buscar handle query n w) = Raise e ->
     exists msg,
       e = WrappedException ("Error al buscar en ChromaDB: " +:+ msg))
  /\ (truthy query = false \/ is_str query = false ->
      busqueda.buscar handle query n w
      = (Raise (WrappedException
                  ("Error al buscar en ChromaDB: "
                   +:+ "Error de validación en respuesta Bedrock: "
                   +:+ "Texto de entrada inválido para embedding")), w)).
Proof.
  split.
  - intros e. unfold busqueda.buscar, try_except, bind, raise.
    destruct (busqueda.generar_embedding query w) as [[emb|e0] w1]; simpl.
    + destruct (call_collection_query _ _ _ _) as [[res|e0] w2]; simpl.
      * unfold lift.
        destruct (list_index (ids res) 0) as [first_ids|e0]; simpl.
        -- destruct (busqueda.format_results _ _ _) as [rs|e0]; simpl; [done|].
           intros [= <-]. by eexists.
        -- intros [= <-]. by eexists.
      * intros [= <-]. by eexists.
    + intros [= <-]. by eexists.
  - apply buscar_invalid_query.
Qed.

(** Property X17.  The results of [buscar] come in the store's order, and their
    relevance does not increase when the distance does not decrease: a
    hit at least as far as another gets a relevance at most as high
    (binary64 subtraction from 1.0 is monotone, though not strictly). *)
Theorem buscar_nearest_first
    handle query n (w w1 : world E) e c hits i j hi hj :
  busqueda.generar_embedding query w = (Ok e, w1) ->
  chroma w1 !! handle = Some c ->
  collection_query E c [e] n = Ok (busqueda.query_result_of hits) ->
  hits !! i = Some hi ->
  hits !! j = Some hj ->
  (busqueda.hit_distance hi <=? busqueda.hit_distance hj)%float = true ->
  exists rs ri rj,
    fst (busqueda.buscar handle query n w) = Ok rs
    /\ rs !! i = Some ri
    /\ rs !! j = Some rj
    /\ busqueda.contenido ri = busqueda.hit_document hi
    /\ busqueda.contenido rj = busqueda.hit_document hj
    /\ (busqueda.relevancia rj <=? busqueda.relevancia ri)%float = true.
Proof.
  intros Hg Hc Hq Hi Hj Hd.
  exists (map busqueda.result_of hits), (busqueda.result_of hi), (busqueda.result_of hj).
  split.
  - unfold busqueda.buscar, try_except, bind, call_collection_query, lift.
    rewrite Hg. simpl. rewrite Hc, Hq. simpl.
    unfold list_index. simpl. rewrite length_map.
    pose proof (format_results_hits hits hits [] [] eq_refl) as Hf.
    simpl in Hf. by rewrite Hf.
  - rewrite !list_lookup_fmap, Hi, Hj. repeat split; try done.
    simpl. by apply float_sub_one_antitone.
Qed.

End SearchFacts.

(** ** The search tool *)

Section ToolFacts.

Context {E : externals}.

Variable round2 : float -> float.
Variable float_str : float -> string.
Variable format_3f : float -> string.
Variable float_sum : list float -> float.
Variable float_of_len : nat -> float.

Local Abbreviation buscar_codigo :=
  (busqueda.buscar_codigo round2 float_str format_3f float_sum float_of_len).
Local Abbreviation responder :=
  (busqueda.responder round2 float_str format_3f float_sum float_of_len).

(** The request [generar_embedding] sends for a query. *)
Local Abbreviation query_request consulta :=
  {| modelId := busqueda.BEDROCK_MODEL_ID; contentType := None;
     accept := None; inputText := consulta |}.

(** Property X18.  [obtener_buscador] builds the searcher once: after a call
    that returned, every later call returns the same collection and
    touches nothing, whatever has become of the store; a call that
    raised has left the global empty, so the next call tries again, and
    its exception is a plain [Exception] that names the failed
    initialisation. *)
Theorem obtener_buscador_builds_once region g (w : world E) :
  (forall b g' w',
     busqueda.obtener_buscador region g w = (Ok b, g', w') ->
     g' = Some b
     /\ forall w2 : world E,
          busqueda.obtener_buscador region g' w2 = (Ok b, g', w2))
  /\ (forall e g' w',
        busqueda.obtener_buscador region g w = (Raise e, g', w') ->
        g = None /\ g' = None
        /\ exists msg,
             e = WrappedException
                   ("No se pudo inicializar el buscador semántico: " +:+ msg)).
Proof.
  unfold busqueda.obtener_buscador. split.
  - intros b g' w'. destruct g as [b0|].
    + by intros [= <- <- <-].
    + destruct (busqueda.__init__ region w) as [[b0|e0] w0]; [|done].
      by intros [= <- <- <-].
  - intros e g' w'. destruct g as [b0|]; [done|].
    destruct (busqueda.__init__ region w) as [[b0|e0] w0]; [done|].
    intros [= <- <- <-]. repeat split; try done. by eexists.
Qed.

Lemma log_estadisticas_quiet rs (w : world E) :
  exists w',
    busqueda.log_estadisticas format_3f float_sum float_of_len rs w = (Ok tt, w')
    /\ sent w' = sent w /\ chroma w' = chroma w.
Proof.
  unfold busqueda.log_estadisticas.
  destruct (map busqueda.relevancia rs); [by eexists|].
  unfold bind, logger. by eexists.
Qed.

Lemma formatear_quiet rs : forall i respuesta (w : world E),
  exists s w',
    busqueda.formatear round2 float_str i rs respuesta w = (Ok s, w')
    /\ sent w' = sent w /\ chroma w' = chroma w.
Proof.
  induction rs as [|r rest IH]; intros i respuesta w; simpl.
  - by do 2 eexists.
  - unfold bind at 1, logger at 1.
    edestruct IH as (s & w' & -> & Hs & Hc). by do 2 eexists.
Qed.

Lemma generar_embedding_sent texto (w : world E) :
  sent (snd (busqueda.generar_embedding texto w))
  = sent w ++ match texto with
              | PStr s => if str_truthy s then [query_request s] else []
              | _ => []
              end.
Proof.
  destruct texto as [|b|n|s|t];
    try (rewrite generar_embedding_invalid by (by right); simpl; by rewrite app_nil_r).
  destruct (str_truthy s) eqn:Hs.
  - by apply generar_embedding_request.
  - rewrite generar_embedding_invalid by (by left). simpl. by rewrite app_nil_r.
Qed.

Lemma buscar_sent handle query n (w : world E) :
  sent (snd (busqueda.buscar handle query n w))
  = sent (snd (busqueda.generar_embedding query w)).
Proof.
  unfold busqueda.buscar, try_except, bind, call_collection_query, lift, raise.
  destruct (busqueda.generar_embedding query w) as [[e|ex] w1]; simpl; [|done].
  destruct (chroma w1 !! handle); simpl; [|done].
  destruct (collection_query E _ _ _) as [res|ex]; simpl; [|done].
  destruct (list_index (ids res) 0); simpl; [|done].
  by destruct (busqueda.format_results _ _ _).
Qed.

Lemma responder_traffic b consulta (w : world E) :
  exists r w',
    responder b consulta w = (r, w')
    /\ sent w'
       = sent w ++ (if str_truthy consulta then [query_request consulta] else [])
    /\ chroma w' = chroma w.
Proof.
  unfold busqueda.responder. unfold bind at 1, logger at 1.
  set (w0 := {| provider := provider w; sent := sent w; chroma := chroma w;
                log := _ |}).
  pose proof (buscar_sent b (PStr consulta) busqueda.MAX_RESULTS w0) as Hs.
  pose proof (buscar_keeps_chroma b (PStr consulta) busqueda.MAX_RESULTS w0) as Hc.
  rewrite generar_embedding_sent in Hs.
  unfold bind at 1.
  destruct (busqueda.buscar b (PStr consulta) busqueda.MAX_RESULTS w0)
    as [[rs|e] w1]; simpl in Hs, Hc; [|by do 2 eexists].
  destruct (log_estadisticas_quiet rs w1) as (w2 & Hl & Hs2 & Hc2).
  unfold bind at 1. rewrite Hl. unfold bind at 1.
  match goal with |- context [busqueda.formatear _ _ 1 rs ?hdr w2] =>
    destruct (formatear_quiet rs 1 hdr w2) as (s & w3 & Hf & Hs3 & Hc3) end.
  rewrite Hf. unfold bind, logger, ret.
  do 2 eexists. split; [done|]. simpl.
  rewrite Hs3, Hs2, Hs, Hc3, Hc2, Hc. done.
Qed.

Lemma init_keeps_sent region (w : world E) :
  sent (snd (busqueda.__init__ region w)) = sent w.
Proof.
  unfold busqueda.__init__, bind, lift, try_except, get_collection, raise.
  destruct (boto3_client E _); simpl; [|done].
  destruct (PersistentClient E _); simpl; [|done].
  by destruct (chroma w !! busqueda.COLLECTION_NAME).
Qed.

(** Property X19.  [buscar_codigo] never raises: it returns a text for every
    query, every state of the global and every behaviour of the
    provider and of the store.  It only reads the store, and it sends
    at most one request to the provider, which carries the whole query. *)
Theorem buscar_codigo_returns region consulta g (w : world E) :
  exists respuesta g' w',
    buscar_codigo region consulta g w = (Ok respuesta, g', w')
    /\ chroma w' = chroma w
    /\ (sent w' = sent w \/ sent w' = sent w ++ [query_request consulta]).
Proof.
  assert (forall l : list invoke_request,
            l = sent w ++ (if str_truthy consulta then [query_request consulta] else []) ->
            l = sent w \/ l = sent w ++ [query_request consulta]) as Hcases.
  { intros l ->. destruct (str_truthy consulta); [by right|left; by rewrite app_nil_r]. }
  unfold busqueda.buscar_codigo, busqueda.gbind, busqueda.gtry, busqueda.glift.
  unfold logger at 1 2. unfold busqueda.obtener_buscador.
  destruct g as [b|].
  - match goal with |- context [responder b consulta ?w1] =>
      destruct (responder_traffic b consulta w1) as (r & w2 & Hr & Hs & Hc) end.
    rewrite Hr. simpl in Hs, Hc.
    destruct r as [s|e]; [|unfold bind, logger, ret];
      do 3 eexists; (split; [done|]); simpl; (split; [done|by apply Hcases]).
  - match goal with |- context [busqueda.__init__ region ?w1] =>
      pose proof (init_keeps_store region w1) as Hic;
      pose proof (init_keeps_sent region w1) as His;
      destruct (busqueda.__init__ region w1) as [[b|e] w2] end;
      simpl in Hic, His.
    + destruct (responder_traffic b consulta w2) as (r & w3 & Hr & Hs & Hc).
      rewrite Hr. rewrite His in Hs. rewrite Hic in Hc.
      destruct r as [s|e]; [|unfold bind, logger, ret];
        do 3 eexists; (split; [done|]); simpl; (split; [done|by apply Hcases]).
    + unfold bind, logger, ret. do 3 eexists. split; [done|]. simpl.
      split; [done|]. by left.
Qed.

Lemma generar_embedding_reads texto (w1 w2 : world E) :
  provider w1 = provider w2 -> chroma w1 = chroma w2 ->
  fst (busqueda.generar_embedding texto w1) = fst (busqueda.generar_embedding texto w2)
  /\ chroma (snd (busqueda.generar_embedding texto w1))
     = chroma (snd (busqueda.generar_embedding texto w2)).
Proof.
  intros Hp Hc.
  unfold busqueda.generar_embedding, try_except, bind, call_invoke_model, lift,
    logger, ret, raise.
  destruct (negb (truthy texto) || negb (is_str texto)); simpl; [done|].
  destruct texto; simpl; try done. rewrite Hp.
  destruct (invoke_model E (provider w2) _) as [[raw|e] p]; simpl.
  - destruct (json_loads E raw) as [body|e]; simpl.
    + destruct (busqueda._validar_respuesta_bedrock body) as [emb|e]; simpl; [done|].
      by destruct (is_ValueError e), (is_JSONDecodeError e).
    + by destruct (is_ValueError e), (is_JSONDecodeError e).
  - by destruct (is_ValueError e), (is_JSONDecodeError e).
Qed.

(** What [buscar] answers depends on the provider and on the store, not
    on the log. *)
Lemma buscar_reads handle query n (w1 w2 : world E) :
  provider w1 = provider w2 -> chroma w1 = chroma w2 ->
  fst (busqueda.buscar handle query n w1) = fst (busqueda.buscar handle query n w2).
Proof.
  intros Hp Hc.
  destruct (generar_embedding_reads query w1 w2 Hp Hc) as [Hf Hs].
  unfold busqueda.buscar, try_except, bind, call_collection_query, lift, raise.
  destruct (busqueda.generar_embedding query w1) as [r1 w1'].
  destruct (busqueda.generar_embedding query w2) as [r2 w2'].
  simpl in Hf, Hs. subst r2. destruct r1 as [emb|e]; simpl; [|done].
  rewrite Hs. destruct (chroma w2' !! handle); simpl; [|done].
  destruct (collection_query E _ _ _) as [res|ex]; simpl; [|done].
  destruct (list_index (ids res) 0); simpl; [|done].
  by destruct (busqueda.format_results _ _ _).
Qed.

(** Property X20.  When the search fails, [buscar_codigo] returns the message of
    the exception after a fixed prefix.  For an empty query and a
    searcher already built, that is the validation message wrapped
    twice, and nothing is sent to the provider. *)
Theorem buscar_codigo_reports_failures region consulta b (w : world E) :
  (forall e,
     fst (busqueda.buscar b (PStr consulta) busqueda.MAX_RESULTS w) = Raise e ->
     fst (fst (buscar_codigo region consulta (Some b) w))
     = Ok ("Error al realizar la b" +:+ busqueda.chr 250 +:+ "squeda: "
           +:+ exn_str e))
  /\ (consulta = "" ->
      fst (fst (buscar_codigo region consulta (Some b) w))
      = Ok ("Error al realizar la b" +:+ busqueda.chr 250 +:+ "squeda: "
            +:+ "Error al buscar en ChromaDB: "
            +:+ "Error de validación en respuesta Bedrock: "
            +:+ "Texto de entrada inválido para embedding")
      /\ sent (snd (buscar_codigo region consulta (Some b) w)) = sent w).
Proof.
  split.
  - intros e Hr.
    unfold busqueda.buscar_codigo, busqueda.gbind, busqueda.gtry, busqueda.glift,
      busqueda.obtener_buscador, busqueda.responder.
    unfold bind, logger. cbv beta iota.
    match goal with |- context [busqueda.buscar b (PStr consulta) ?n ?w0] =>
      pose proof (buscar_reads b (PStr consulta) n w0 w eq_refl eq_refl) as Hb;
      rewrite Hr in Hb;
      destruct (busqueda.buscar b (PStr consulta) n w0) as [r w1] end.
    simpl in Hb. subst r. done.
  - intros ->.
    unfold busqueda.buscar_codigo, busqueda.gbind, busqueda.gtry, busqueda.glift,
      busqueda.obtener_buscador, busqueda.responder.
    unfold bind, logger, ret.
    rewrite buscar_invalid_query by (by left). done.
Qed.

End ToolFacts.

(** ** Files *)

Lemma in_ignored_dir_Forall parts :
  in_ignored_dir parts = false
  <-> Forall (fun part => str_mem part ignore_dirs = false) parts.
Proof.
  induction parts as [|p ps IH]; cbn [in_ignored_dir].
  - split; [constructor|done].
  - destruct (str_mem p ignore_dirs) eqn:Hp.
    + split; [done|]. intros H. inversion H; subst. congruence.
    + rewrite IH. split; [by constructor|]. intros H. by inversion H.
Qed.

Lemma in_ignored_dir_app ps qs :
  in_ignored_dir (ps ++ qs) = in_ignored_dir ps || in_ignored_dir qs.
Proof.
  induction ps as [|p ps IH]; cbn [in_ignored_dir app]; [done|].
  by destruct (str_mem p ignore_dirs).
Qed.

Lemma starts_with_app l rest : pathlib.starts_with (l ++ rest) l = true.
Proof.
  induction l as [|x l IH]; simpl; [by destruct rest|].
  rewrite String.eqb_refl. exact IH.
Qed.

Lemma starts_with_split l pre :
  pathlib.starts_with l pre = true -> exists rest, l = pre ++ rest.
Proof.
  revert l. induction pre as [|x pre IH]; intros l; simpl.
  - destruct l; by eexists.
  - destruct l as [|y l]; [done|]. intros [Hxy Hl]%andb_true_iff.
    apply String.eqb_eq in Hxy as ->. destruct (IH l Hl) as [rest ->]. by eexists.
Qed.

Lemma List_last_app {A} (l rel : list A) d :
  rel <> [] -> List.last (l ++ rel) d = List.last rel d.
Proof.
  intros Hne. induction l as [|x l IH]; [done|].
  change ((x :: l) ++ rel) with (x :: (l ++ rel)). cbn [List.last].
  destruct (l ++ rel) eqn:Happ; [|done].
  apply app_eq_nil in Happ as [_ ?]. done.
Qed.

Section FileFacts.

Context {E : externals}.

Variable stat : pathlib.Path -> result stat_result.
Variable is_file : pathlib.Path -> bool.
Variable rglob : pathlib.Path -> list pathlib.Path.
Variable read_bytes : pathlib.Path -> result (list Byte.byte).
Variable utf8_decode : list Byte.byte -> option string.
Variable cp1252_decode : list Byte.byte -> option string.
Variable isoformat : float -> string.

(** Property X21.  [_should_process_file] never raises, and accepts a file
    exactly when its suffix is supported, no component of its path
    (the file's name and the components of the repository path
    included) is an ignored directory name, its name is not an ignored
    file name, and [stat] gives a size of at most 1 MiB.  An accepted
    file leaves the world as it was; a rejection may log. *)
Theorem should_process_file_accepts file_path (w : world E) :
  exists keep w',
    _should_process_file stat file_path w = (Ok keep, w')
    /\ (keep = true
        <-> str_mem (pathlib.suffix file_path) supported_extensions = true
            /\ Forall (fun part => str_mem part ignore_dirs = false)
                 (pathlib.parts file_path)
            /\ str_mem (pathlib.name file_path) ignore_files = false
            /\ exists st, stat file_path = Ok st /\ st_size st <= 1048576)
    /\ (keep = true -> w' = w)
    /\ provider w' = provider w /\ sent w' = sent w /\ chroma w' = chroma w.
Proof.
  unfold _should_process_file, ret.
  destruct (str_mem (pathlib.suffix file_path) supported_extensions) eqn:Hs;
    cbn [negb].
  2:{ do 2 eexists. split; [done|]. split; [|done]. split; [done|]. by intros [? _]. }
  destruct (in_ignored_dir (pathlib.parts file_path)) eqn:Hd.
  { do 2 eexists. split; [done|]. split; [|done]. split; [done|].
    intros (_ & Hf & _). apply in_ignored_dir_Forall in Hf. congruence. }
  apply in_ignored_dir_Forall in Hd.
  destruct (str_mem (pathlib.name file_path) ignore_files) eqn:Hn.
  { do 2 eexists. split; [done|]. split; [|done]. split; [done|].
    by intros (_ & _ & ? & _). }
  unfold bind, try_except, lift, logger.
  destruct (stat file_path) as [st|e] eqn:Hst; cbv beta iota.
  - change (1024 * 1024) with 1048576.
    destruct (Z.ltb_spec 1048576 (st_size st)); cbv beta iota.
    + do 2 eexists. split; [done|]. split; [|done]. split; [done|].
      intros (_ & _ & _ & st' & [= <-] & ?). lia.
    + do 2 eexists. split; [done|]. split; [|done]. split; [|done].
      intros _. repeat split; try done. by exists st.
  - do 2 eexists. split; [done|]. split; [|done]. split; [done|].
    by intros (_ & _ & _ & st' & ? & _).
Qed.

Lemma should_process_ignored file_path (w : world E) :
  in_ignored_dir (pathlib.parts file_path) = true ->
  _should_process_file stat file_path w = (Ok false, w).
Proof.
  intros Hd. unfold _should_process_file.
  destruct (str_mem _ supported_extensions); cbn [negb]; [|done]. by rewrite Hd.
Qed.

Lemma select_files_ignored candidates : forall w : world E,
  Forall (fun f => in_ignored_dir (pathlib.parts f) = true) candidates ->
  select_files stat is_file candidates w = (Ok [], w).
Proof.
  induction candidates as [|f rest IH]; intros w H; simpl; [done|].
  inversion H as [|? ? Hf Hrest]; subst.
  destruct (is_file f); [|by apply IH].
  unfold bind at 1. rewrite should_process_ignored by done.
  unfold bind. by rewrite IH.
Qed.

(** Property X22.  When a component of the repository path itself is an ignored
    directory name (a repository under [/tmp] or [build], say), the
    loop over [file_path.parts] rejects every file found under it:
    [_get_all_files] yields nothing and logs nothing. *)
Theorem ignored_repository_path_selects_nothing root (w : world E) :
  in_ignored_dir (pathlib.parts root) = true ->
  Forall (fun f => pathlib.starts_with (pathlib.parts f) (pathlib.parts root) = true)
    (rglob root) ->
  _get_all_files stat is_file rglob root w = (Ok [], w).
Proof.
  intros Hroot Hunder. unfold _get_all_files. apply select_files_ignored.
  eapply Forall_impl; [exact Hunder|]. intros f Hf.
  destruct (starts_with_split _ _ Hf) as [rest ->].
  by rewrite in_ignored_dir_app, Hroot.
Qed.

(** Latin-1 decodes every file: the loop over the encodings ends with a
    text at the third encoding at the latest. *)
Lemma read_content_decodes file_path raw :
  read_bytes file_path = Ok raw ->
  read_content read_bytes utf8_decode cp1252_decode file_path encodings
  = Ok (Some (translate_newlines
                match utf8_decode raw with
                | Some s => s
                | None =>
                    match utf8_decode (strip_bom raw) with
                    | Some s => s
                    | None => string_of_list_byte raw
                    end
                end)).
Proof.
  intros Hr. unfold encodings. simpl. rewrite Hr. simpl.
  destruct (utf8_decode raw); [done|].
  by destruct (utf8_decode (strip_bom raw)).
Qed.

(** Property X23.  [_read_file_content] never raises and never gives up on the
    encoding: a file that can be opened is decoded as UTF-8, else as
    UTF-8 after its byte order mark, else as Latin-1, which decodes
    every file, so the warning for an undecodable file is never logged
    and [cp1252] is never the encoding read.  The result is [None] only
    after an error ([open], [relative_to] or [stat] raising), which is
    logged; otherwise it records the text, its number of characters
    and its hash, and the world is as it was. *)
Theorem read_file_content_decodes root file_path (w : world E) :
  exists r w',
    _read_file_content stat read_bytes utf8_decode cp1252_decode isoformat
      root file_path w = (Ok r, w')
    /\ match r with
       | Some fc =>
           w' = w
           /\ exists raw,
                read_bytes file_path = Ok raw
                /\ fc_content fc
                   = translate_newlines
                       match utf8_decode raw with
                       | Some s => s
                       | None =>
                           match utf8_decode (strip_bom raw) with
                           | Some s => s
                           | None => string_of_list_byte raw
                           end
                       end
                /\ fc_size fc = Z.of_nat (String.length (fc_content fc))
                /\ fc_hash fc = sha256_hexdigest E (fc_content fc)
                /\ _get_file_metadata stat isoformat root file_path
                   = Ok (fc_metadata fc)
       | None =>
           exists e,
             w' = {| provider := provider w; sent := sent w; chroma := chroma w;
                     log := log w
                            ++ [{| levelname := ERROR;
                                   message := "Error leyendo "
                                              +:+ pathlib.str file_path +:+ ": "
                                              +:+ exn_str e |}] |}
       end.
Proof.
  unfold _read_file_content, try_except, bind, lift, logger, ret.
  destruct (read_bytes file_path) as [raw|e] eqn:Hr.
  - rewrite (read_content_decodes file_path raw Hr).
    destruct (pathlib.relative_to file_path root) as [rel|e] eqn:Hrel.
    + destruct (_get_file_metadata stat isoformat root file_path) as [md|e] eqn:Hmd.
      * do 2 eexists. split; [done|]. split; [done|]. exists raw. done.
      * do 2 eexists. split; [done|]. by exists e.
    + do 2 eexists. split; [done|]. by exists e.
  - assert (read_content read_bytes utf8_decode cp1252_decode file_path encodings
            = Raise e) as -> by (unfold encodings; simpl; by rewrite Hr).
    do 2 eexists. split; [done|]. by exists e.
Qed.

Lemma relative_to_under root rel :
  pathlib.relative_to
    {| pathlib.anchored := pathlib.anchored root;
       pathlib.components := pathlib.components root ++ rel |} root
  = Ok {| pathlib.anchored := false; pathlib.components := rel |}.
Proof.
  unfold pathlib.relative_to. simpl.
  rewrite eqb_reflx, starts_with_app. simpl. by rewrite drop_app_length.
Qed.

(** Property X24.  The [file_path] and the [directory] that [_get_file_metadata]
    records are relative to the repository path: they are made of the
    components below it, whatever the repository path is.  (The ids of
    the chunks, computed from [file_path], are therefore the same
    wherever the repository is checked out.) *)
Theorem get_file_metadata_is_relative root rel md :
  rel <> [] ->
  _get_file_metadata stat isoformat root
    {| pathlib.anchored := pathlib.anchored root;
       pathlib.components := pathlib.components root ++ rel |} = Ok md ->
  md !! "file_path" = Some (MStr (join "/" rel))
  /\ md !! "directory"
     = Some (MStr (match removelast rel with
                   | [] => "."
                   | _ :: _ => join "/" (removelast rel)
                   end))
  /\ md !! "file_name" = Some (MStr (List.last rel "")).
Proof.
  intros Hne. unfold _get_file_metadata.
  destruct (stat _) as [st|]; simpl; [|done].
  rewrite relative_to_under. simpl.
  destruct (_is_react_component _) as [comp|]; simpl; [|done].
  intros [= <-].
  assert (pathlib.name
            {| pathlib.anchored := pathlib.anchored root;
               pathlib.components := pathlib.components root ++ rel |}
          = List.last rel "") as Hname.
  { unfold pathlib.name. simpl. by apply List_last_app. }
  split; [|split];
    repeat first [rewrite lookup_insert_eq | rewrite lookup_insert_ne by discriminate].
  - unfold pathlib.str. simpl. by destruct rel.
  - unfold pathlib.str, pathlib.parent. simpl. done.
  - by rewrite Hname.
Qed.

End FileFacts.

(** ** From the file to the answer of the tool *)

Section FileLabels.

Variable stat : pathlib.Path -> result stat_result.
Variable isoformat : float -> string.
Variable encode : string -> list Z.
Variable self : config.

(** Property X25.  A file with the suffix [.tsx] or [.jsx] is flagged as a
    component whatever else it is, and the flags are kept by every
    chunk of the file; the search tool names the kind of a chunk by its
    first flag, so every chunk of such a file, a test file included, is
    presented as a React component. *)
Theorem tsx_chunks_are_labelled_components root file_path md content cks c :
  str_mem (pathlib.suffix file_path) [".tsx"; ".jsx"] = true ->
  _get_file_metadata stat isoformat root file_path = Ok md ->
  _chunk_content encode self content md = Ok cks ->
  c ∈ cks ->
  metadata c !! "is_component" = Some (MBool true)
  /\ metadata c !! "is_test" = Some (MBool (_is_test_file file_path))
  /\ busqueda.tipo (metadata c) = "Tipo: Componente React" +:+ NL.
Proof.
  intros Hsuf Hmd Hck Hin.
  apply list_elem_of_lookup in Hin as [k Hk].
  rewrite (chunk_content_created encode self content md cks Hck k c Hk).
  revert Hmd. unfold _get_file_metadata.
  destruct (stat file_path) as [st|]; simpl; [|done].
  destruct (pathlib.relative_to file_path root) as [rel|]; simpl; [|done].
  unfold _is_react_component. rewrite Hsuf. simpl. intros [= <-].
  assert (forall key v (m : gmap string mdval),
            m !! key = Some v ->
            key <> "token_count" -> key <> "chunk_size" -> key <> "chunk_index" ->
            (<["token_count" := MInt (token_len encode (text c))]>
               (<["chunk_size" := MInt (Z.of_nat (String.length (text c)))]>
                  (<["chunk_index" := MInt (Z.of_nat k)]> m))) !! key = Some v)
    as Hkeep.
  { intros key v m Hm H1 H2 H3. by rewrite !lookup_insert_ne by done. }
  split; [|split].
  - apply Hkeep; try discriminate.
    repeat first [rewrite lookup_insert_eq | rewrite lookup_insert_ne by discriminate].
    done.
  - apply Hkeep; try discriminate.
    repeat first [rewrite lookup_insert_eq | rewrite lookup_insert_ne by discriminate].
    done.
  - unfold busqueda.tipo.
    rewrite (Hkeep "is_component" (MBool true)); [done| |discriminate..].
    repeat first [rewrite lookup_insert_eq | rewrite lookup_insert_ne by discriminate].
    done.
Qed.

End FileLabels.

(** ** Examples of the further properties *)

Lemma zero_overlap_last_chunk_is_whole_text_witness :
  exists cks c,
    _chunk_content char_encode Samples.no_overlap Samples.three_short_lines ∅
    = Ok (cks ++ [c])
    /\ text c = Samples.three_short_lines.
Proof.
  apply (zero_overlap_last_chunk_is_whole_text char_encode Samples.no_overlap).
  - reflexivity.
  - vm_compute. discriminate.
  - vm_compute. repeat constructor; discriminate.
Defined.

Lemma chunk_content_metadata_witness :
  metadata Samples.second_chunk
  = <["token_count" := MInt (token_len char_encode (text Samples.second_chunk))]>
      (<["chunk_size" := MInt (Z.of_nat (String.length (text Samples.second_chunk)))]>
         (<["chunk_index" := MInt (Z.of_nat 1)]> ∅))
  /\ embedding Samples.second_chunk = None.
Proof.
  eapply (chunk_content_metadata char_encode Demo.small_config Demo.short_file ∅).
  - reflexivity.
  - reflexivity.
Defined.

Lemma negative_chunk_size_drops_oversized_lines_witness :
  chunk_step char_encode Samples.negative_size ∅
    {| chunks := []; current_chunk := ["ab"]; current_tokens := 2 |} "abcde"
  = Ok {| chunks := flush char_encode ∅ [] ["ab"];
          current_chunk := [];
          current_tokens := 0 |}
  /\ (has_nl "abcde" = false -> strip "abcde" <> "" ->
      _chunk_content char_encode Samples.negative_size "abcde" ∅ = Ok []).
Proof.
  apply (negative_chunk_size_drops_oversized_lines char_encode Samples.negative_size ∅
           {| chunks := []; current_chunk := ["ab"]; current_tokens := 2 |} "abcde").
  - reflexivity.
  - reflexivity.
Defined.

Lemma store_failure_is_logged_witness :
  _store_in_chromadb (E:=Samples.full_disk) "react_typescript_code"
    Demo.stored_chunks Samples.full_disk_start
  = (Ok tt,
     @World Samples.full_disk 0%nat [] {[ "react_typescript_code" := [] ]}
       [{| levelname := ERROR;
           message := "Error almacenando en ChromaDB: disk full" |}]).
Proof.
  apply (store_failure_is_logged (E:=Samples.full_disk) "react_typescript_code"
           Demo.stored_chunks Demo.stored_rows [] (OtherError "disk full")
           Samples.full_disk_start).
  - discriminate.
  - reflexivity.
  - reflexivity.
  - reflexivity.
Defined.






Lemma main_setup_failure_witness :
  main (E:=Samples.no_credentials) (Samples.args 2) Samples.no_credentials_start
  = (Raise (OtherError "NoRegionError"),
     @World Samples.no_credentials 0%nat [] ∅
       [{| levelname := ERROR;
           message := "Error configurando clientes: NoRegionError" |}])
  /\ exit_status (fst (main (E:=Samples.no_credentials) (Samples.args 2)
                         Samples.no_credentials_start)) = 1.
Proof.
  apply (main_setup_failure (E:=Samples.no_credentials) (Samples.args 2)
           (OtherError "NoRegionError") Samples.no_credentials_start).
  - reflexivity.
  - left. reflexivity.
Defined.

Lemma buscar_nearest_first_witness :
  exists rs ri rj,
    fst (busqueda.buscar (E:=Demo.search) busqueda.COLLECTION_NAME
           (PStr "authentication logic") 5 Demo.search_world) = Ok rs
    /\ rs !! 0%nat = Some ri
    /\ rs !! 1%nat = Some rj
    /\ busqueda.contenido ri = "login()"
    /\ busqueda.contenido rj = "logout()"
    /\ (busqueda.relevancia rj <=? busqueda.relevancia ri)%float = true.
Proof.
  eapply (buscar_nearest_first (E:=Demo.search) busqueda.COLLECTION_NAME
            (PStr "authentication logic") 5 Demo.search_world _
            [JFloat 0.5] Demo.hits Demo.hits 0 1
            {| busqueda.hit_id := "a"; busqueda.hit_document := "login()";
               busqueda.hit_metadata := ∅; busqueda.hit_distance := 0%float |}
            {| busqueda.hit_id := "b"; busqueda.hit_document := "logout()";
               busqueda.hit_metadata := ∅;
               busqueda.hit_distance := 0x1p-60%float |}).
  - reflexivity.
  - reflexivity.
  - reflexivity.
  - reflexivity.
  - reflexivity.
  - reflexivity.
Defined.

Lemma ignored_repository_path_selects_nothing_witness :
  _get_all_files (E:=Demo.pipeline) Samples.stat_10 (fun _ => true)
    Samples.tmp_files Samples.tmp_repo Demo.empty_world
  = (Ok [], Demo.empty_world).
Proof.
  apply (ignored_repository_path_selects_nothing (E:=Demo.pipeline) Samples.stat_10
           (fun _ => true) Samples.tmp_files Samples.tmp_repo Demo.empty_world).
  - reflexivity.
  - repeat constructor.
Defined.

Lemma get_file_metadata_is_relative_witness :
  Samples.button_test_md !! "file_path" = Some (MStr (join "/" ["src"; "button.test.tsx"]))
  /\ Samples.button_test_md !! "directory"
     = Some (MStr (match removelast ["src"; "button.test.tsx"] with
                   | [] => "."
                   | _ :: _ => join "/" (removelast ["src"; "button.test.tsx"])
                   end))
  /\ Samples.button_test_md !! "file_name"
     = Some (MStr (List.last ["src"; "button.test.tsx"] "")).
Proof.
  apply (get_file_metadata_is_relative Samples.stat_10 Samples.epoch
           Samples.home_repo ["src"; "button.test.tsx"] Samples.button_test_md).
  - discriminate.
  - reflexivity.
Defined.

Lemma tsx_chunks_are_labelled_components_witness :
  metadata Samples.button_test_chunk !! "is_component" = Some (MBool true)
  /\ metadata Samples.button_test_chunk !! "is_test"
     = Some (MBool (_is_test_file Samples.button_test))
  /\ busqueda.tipo (metadata Samples.button_test_chunk)
     = "Tipo: Componente React" +:+ NL.
Proof.
  apply (tsx_chunks_are_labelled_components Samples.stat_10 Samples.epoch
           char_encode default_config Samples.home_repo Samples.button_test
           Samples.button_test_md "it()" [Samples.button_test_chunk]
           Samples.button_test_chunk).
  - reflexivity.
  - reflexivity.
  - reflexivity.
  - constructor.
Defined.
